(** * homebridge-appletv-enhanced: a shallow embedding of the accessory,
      the pairing loop, the control channel and the Python checker.

    The development follows the TypeScript sources:
    - [appleTVEnhancedAccessory.ts]: class [AppleTVEnhancedAccessory]
      (characteristic handlers, per-device files, the pairing loop);
    - [RocketRemote.ts]: class [RocketRemote] (control subprocess, heartbeat);
    - [PythonChecker.ts]: class [PythonChecker] (environment check);
    - [appleTVEnhancedPlatform.ts]: class [AppleTVEnhancedPlatform] (device
      discovery).

    Conventions.  A JavaScript string is a [string] (a sequence of 8-bit
    characters; the texts the program handles are ASCII).  A JavaScript
    number that holds an integer is a [Z]; [NaN] is explicit where [parseInt]
    can produce it.  Objects used as dictionaries are [gmap string _].
    Code that throws returns [Throw]; the state at the throw is kept. *)

From Stdlib Require Import ZArith Lia Bool Ascii String List DecimalString.
From stdpp Require Import base option list strings gmap.

Local Open Scope string_scope.
Local Open Scope Z_scope.

(* ===================================================================== *)
(** * Part I: definitions *)
(* ===================================================================== *)

(** ** JavaScript string primitives used by the sources *)
Module JS.

(** [s.startsWith(p)], the test behind every search below. *)
Fixpoint startsWith (p s : string) : bool :=
  match p, s with
  | EmptyString, _ => true
  | String a p', String b s' => if Ascii.eqb a b then startsWith p' s' else false
  | String _ _, EmptyString => false
  end.

(** [s.indexOf(p)]: the least index at which [p] occurs; [None] is JS [-1].
    [s.search(p)] agrees with it for a pattern without regex operators. *)
Fixpoint indexOf (p s : string) : option nat :=
  if startsWith p s then Some O
  else match s with
       | EmptyString => None
       | String _ s' => S <$> indexOf p s'
       end.

Definition search := indexOf.

(** [s.includes(p)] *)
Definition includes (p s : string) : bool :=
  match indexOf p s with Some _ => true | None => false end.

(** [s.substring(n)]: the suffix from index [n] (empty past the end). *)
Fixpoint substring (n : nat) (s : string) : string :=
  match n, s with
  | O, _ => s
  | S n', String _ s' => substring n' s'
  | S _, EmptyString => EmptyString
  end.

(** [s.charAt(n)]: the one-character string at index [n], or the empty one. *)
Fixpoint charAt (n : nat) (s : string) : string :=
  match s, n with
  | EmptyString, _ => EmptyString
  | String c _, O => String c EmptyString
  | String _ s', S n' => charAt n' s'
  end.

Fixpoint rev_onto (acc s : string) : string :=
  match s with
  | EmptyString => acc
  | String c s' => rev_onto (String c acc) s'
  end.

(** [s.split(sep)] for a non-empty separator.  [skip] counts the characters
    of a separator occurrence still to be passed over; [acc] is the current
    piece, reversed. *)
Fixpoint split_go (sep : string) (skip : nat) (acc s : string) : list string :=
  match s with
  | EmptyString => [rev_onto EmptyString acc]
  | String c s' =>
      match skip with
      | S k => split_go sep k acc s'
      | O =>
          if startsWith sep s
          then rev_onto EmptyString acc
                 :: split_go sep (Nat.pred (String.length sep)) EmptyString s'
          else split_go sep O (String c acc) s'
      end
  end.

Definition split (sep s : string) : list string := split_go sep O EmptyString s.

(** [s.split(sep, limit)] *)
Definition splitLimit (sep : string) (limit : nat) (s : string) : list string :=
  take limit (split sep s).

(** White space removed by [trim] (the ASCII part of the ECMAScript set). *)
Definition isSpace (c : ascii) : bool :=
  let n := nat_of_ascii c in
  ((9 <=? n)%nat && (n <=? 13)%nat) || (n =? 32)%nat.

Fixpoint trimStart (s : string) : string :=
  match s with
  | String c s' => if isSpace c then trimStart s' else s
  | EmptyString => EmptyString
  end.

Fixpoint trimEnd (s : string) : string :=
  match s with
  | EmptyString => EmptyString
  | String c s' =>
      match trimEnd s' with
      | EmptyString => if isSpace c then EmptyString else String c EmptyString
      | t => String c t
      end
  end.

Definition trim (s : string) : string := trimEnd (trimStart s).

Definition upper (c : ascii) : ascii :=
  let n := nat_of_ascii c in
  if ((97 <=? n)%nat && (n <=? 122)%nat)%bool then ascii_of_nat (n - 32) else c.

(** [s.toUpperCase()] *)
Fixpoint toUpperCase (s : string) : string :=
  match s with
  | EmptyString => EmptyString
  | String c s' => String (upper c) (toUpperCase s')
  end.

(** [s.replaceAll(c, '')] for a one-character pattern [c]. *)
Fixpoint removeAll (c : ascii) (s : string) : string :=
  match s with
  | EmptyString => EmptyString
  | String a s' => if Ascii.eqb a c then removeAll c s' else String a (removeAll c s')
  end.

(** [s.replaceAll(a, b)] for one-character [a] and [b]. *)
Fixpoint replaceAll (a b : ascii) (s : string) : string :=
  match s with
  | EmptyString => EmptyString
  | String c s' => String (if Ascii.eqb c a then b else c) (replaceAll a b s')
  end.

(** [s.replace(p, '')] for a string pattern: the first occurrence goes. *)
Fixpoint removeFirst (p s : string) : string :=
  if startsWith p s then substring (String.length p) s
  else match s with
       | EmptyString => EmptyString
       | String c s' => String c (removeFirst p s')
       end.

(** A number as [parseInt] returns it. *)
Inductive num := Num (z : Z) | NaN.

Definition digitVal (radix : Z) (c : ascii) : option Z :=
  let n := Z.of_nat (nat_of_ascii c) in
  let v := if (48 <=? n) && (n <=? 57) then Some (n - 48)
           else if (97 <=? n) && (n <=? 122) then Some (n - 87)
           else if (65 <=? n) && (n <=? 90) then Some (n - 55)
           else None in
  match v with
  | Some d => if d <? radix then Some d else None
  | None => None
  end.

(** The longest prefix of digits, read as a number; [None] with no digit. *)
Fixpoint digits (radix : Z) (acc : option Z) (s : string) : option Z :=
  match s with
  | EmptyString => acc
  | String c s' =>
      match digitVal radix c with
      | Some d => digits radix (Some (radix * default 0 acc + d)) s'
      | None => acc
      end
  end.

Definition parseUnsigned (s : string) : option Z :=
  if startsWith "0x" s || startsWith "0X" s
  then digits 16 None (substring 2 s)
  else digits 10 None s.

(** [parseInt(s)]: leading white space, an optional sign, an optional [0x],
    then the longest digit prefix. *)
Definition parseInt (s : string) : num :=
  let s := trimStart s in
  let '(neg, body) :=
    match s with
    | String "-" s' => (true, s')
    | String "+" s' => (false, s')
    | _ => (false, s)
    end in
  match parseUnsigned body with
  | Some z => Num (if neg then - z else z)
  | None => NaN
  end.

(** [n + k] on numbers. *)
Definition numAdd (n : num) (k : Z) : num :=
  match n with Num z => Num (z + k) | NaN => NaN end.

(** An integer inside a template literal. *)
Definition showZ (z : Z) : string := NilZero.string_of_int (Z.to_int z).

(** Array element as it appears in a template literal: [undefined] prints as
    the word. *)
Definition showUndef (o : option string) : string := default "undefined" o.

End JS.

(** ** Results of code that may throw, threading a state *)

Inductive Result (S A : Type) : Type :=
| Ok (a : A) (s : S)
| Throw (e : string) (s : S).
Arguments Ok {S A} a s.
Arguments Throw {S A} e s.

Definition M (S A : Type) : Type := S -> Result S A.

Definition ret {S A} (a : A) : M S A := fun s => Ok a s.

Definition bind {S A B} (m : M S A) (k : A -> M S B) : M S B :=
  fun s => match m s with
           | Ok a s' => k a s'
           | Throw e s' => Throw e s'
           end.

Definition throw {S A} (e : string) : M S A := fun s => Throw e s.

(** [try { m } catch (err) { /* empty */ }] *)
Definition tryCatchEmpty {S} (m : M S unit) : M S unit :=
  fun s => match m s with
           | Ok _ s' => Ok tt s'
           | Throw _ s' => Ok tt s'
           end.

Definition stateOf {S A} (r : Result S A) : S :=
  match r with Ok _ s => s | Throw _ s => s end.

Declare Scope js_scope.
Delimit Scope js_scope with js.
Notation "'let!' x ':=' m 'in' k" := (bind m (fun x => k))
  (at level 10, x name, m at level 100, k at level 200) : js_scope.
Notation "m ';;;' k" := (bind m (fun _ => k))
  (at level 100, k at level 200, right associativity) : js_scope.

(** ** The file system as the sources use it (synchronous [fs] calls)

    A disk maps the paths that exist to a directory or to a file with its
    content.  A call fails as Node's does when the entry is of the wrong
    kind, exists already, or has no parent directory; permissions are not
    modelled. *)
Module Fs.

Inductive node := Dir | File (content : string).

(** A path is its list of segments. *)
Abbreviation path := (list string).
Abbreviation t := (gmap path node).

Definition parent (p : path) : path := removelast p.

Definition existsSync (fs : t) (p : path) : bool :=
  match fs !! p with Some _ => true | None => false end.

Definition isDir (fs : t) (p : path) : bool :=
  match fs !! p with Some Dir => true | _ => false end.

(** [fs.mkdirSync(p)] (not recursive) *)
Definition mkdirSync (p : path) : M t unit :=
  fun fs =>
    if existsSync fs p then Throw "EEXIST" fs
    else if isDir fs (parent p) then Ok tt (<[p := Dir]> fs)
    else Throw "ENOENT" fs.

Inductive flag := W | WX.

(** [fs.writeFileSync(p, data, { encoding: 'utf8', flag })] *)
Definition writeFileSync (p : path) (data : string) (f : flag) : M t unit :=
  fun fs =>
    match f, fs !! p with
    | WX, Some _ => Throw "EEXIST" fs
    | W, Some Dir => Throw "EISDIR" fs
    | _, _ =>
        if isDir fs (parent p) then Ok tt (<[p := File data]> fs)
        else Throw "ENOENT" fs
    end.

(** [fs.readFileSync(p, 'utf8')] *)
Definition readFileSync (p : path) : M t string :=
  fun fs =>
    match fs !! p with
    | Some (File c) => Ok c fs
    | Some Dir => Throw "EISDIR" fs
    | None => Throw "ENOENT" fs
    end.

End Fs.

(** ** [JSON.parse] and the documents it yields *)
Class Json := {
  json : Type;
  (** [None] is the [SyntaxError] that [JSON.parse] throws. *)
  JSON_parse : string -> option json;
}.

(** ** HomeKit constants ([hap-nodejs]) *)
Module Hap.
Definition ACTIVE : Z := 1.
Definition INACTIVE : Z := 0.
Definition PLAY : Z := 0.
Definition PAUSE : Z := 1.
Definition STOP : Z := 2.
Definition LOADING : Z := 4.
Definition INTERRUPTED : Z := 5.
End Hap.

(** ** [AppleTVEnhancedAccessory]: state and handlers *)
Module Accessory.

(** The Television service: the two characteristics the handlers write. *)
Record Television := mkTelevision {
  Active : Z;
  CurrentMediaState : Z;
}.

(** What the accessory does to its collaborators, in order. *)
Inductive Effect :=
| DeviceTurnOn
| DeviceTurnOff
| DeviceGetState
| Delay (ms : Z).

Inductive LogLine :=
| Info (msg : string)
| Debug (msg : string)
| Warn (msg : string).

(** [NodePyATVDeviceEvent]: [value] and [oldValue] are strings or [null]. *)
Record Event := mkEvent {
  key : string;
  value : option string;
  oldValue : option string;
}.

(** The fields of the class.  A sensor service is created once per key
    ([createDeviceStateSensors], [createMediaTypeSensors]); the two
    dictionaries map a key to the [MotionDetected] value of its service.
    [setCharacteristic] is the write of the value; what HomeKit does with a
    written value is outside this class. *)
Record t `{Json} := mk {
  storagePath : Fs.path;
  deviceId : string;
  service : option Television;
  deviceStateServices : gmap string bool;
  mediaTypeServices : gmap string bool;
  appConfigs : option json;
  commonConfig : option json;
  stateConfigs : option json;
  mediaConfigs : option json;
  booted : bool;
  offline : bool;
  turningOn : bool;
  lastOnEvent : Z;
  fs : Fs.t;
  log : list LogLine;
  effects : list Effect;
}.
Arguments mk {_} _ _ _ _ _ _ _ _ _ _ _ _ _ _ _ _.

Section Handlers.
Context `{Json}.

Definition setService (v : option Television) (a : t) : t :=
  mk (storagePath a) (deviceId a) v (deviceStateServices a) (mediaTypeServices a)
     (appConfigs a) (commonConfig a) (stateConfigs a) (mediaConfigs a)
     (booted a) (offline a) (turningOn a) (lastOnEvent a) (fs a) (log a) (effects a).
Definition setDeviceStateServices (v : gmap string bool) (a : t) : t :=
  mk (storagePath a) (deviceId a) (service a) v (mediaTypeServices a)
     (appConfigs a) (commonConfig a) (stateConfigs a) (mediaConfigs a)
     (booted a) (offline a) (turningOn a) (lastOnEvent a) (fs a) (log a) (effects a).
Definition setMediaTypeServices (v : gmap string bool) (a : t) : t :=
  mk (storagePath a) (deviceId a) (service a) (deviceStateServices a) v
     (appConfigs a) (commonConfig a) (stateConfigs a) (mediaConfigs a)
     (booted a) (offline a) (turningOn a) (lastOnEvent a) (fs a) (log a) (effects a).
Definition setAppConfigsField (v : option json) (a : t) : t :=
  mk (storagePath a) (deviceId a) (service a) (deviceStateServices a) (mediaTypeServices a)
     v (commonConfig a) (stateConfigs a) (mediaConfigs a)
     (booted a) (offline a) (turningOn a) (lastOnEvent a) (fs a) (log a) (effects a).
Definition setCommonConfigField (v : option json) (a : t) : t :=
  mk (storagePath a) (deviceId a) (service a) (deviceStateServices a) (mediaTypeServices a)
     (appConfigs a) v (stateConfigs a) (mediaConfigs a)
     (booted a) (offline a) (turningOn a) (lastOnEvent a) (fs a) (log a) (effects a).
Definition setStateConfigsField (v : option json) (a : t) : t :=
  mk (storagePath a) (deviceId a) (service a) (deviceStateServices a) (mediaTypeServices a)
     (appConfigs a) (commonConfig a) v (mediaConfigs a)
     (booted a) (offline a) (turningOn a) (lastOnEvent a) (fs a) (log a) (effects a).
Definition setMediaConfigsField (v : option json) (a : t) : t :=
  mk (storagePath a) (deviceId a) (service a) (deviceStateServices a) (mediaTypeServices a)
     (appConfigs a) (commonConfig a) (stateConfigs a) v
     (booted a) (offline a) (turningOn a) (lastOnEvent a) (fs a) (log a) (effects a).
Definition setOffline (v : bool) (a : t) : t :=
  mk (storagePath a) (deviceId a) (service a) (deviceStateServices a) (mediaTypeServices a)
     (appConfigs a) (commonConfig a) (stateConfigs a) (mediaConfigs a)
     (booted a) v (turningOn a) (lastOnEvent a) (fs a) (log a) (effects a).
Definition setTurningOn (v : bool) (a : t) : t :=
  mk (storagePath a) (deviceId a) (service a) (deviceStateServices a) (mediaTypeServices a)
     (appConfigs a) (commonConfig a) (stateConfigs a) (mediaConfigs a)
     (booted a) (offline a) v (lastOnEvent a) (fs a) (log a) (effects a).
Definition setLastOnEvent (v : Z) (a : t) : t :=
  mk (storagePath a) (deviceId a) (service a) (deviceStateServices a) (mediaTypeServices a)
     (appConfigs a) (commonConfig a) (stateConfigs a) (mediaConfigs a)
     (booted a) (offline a) (turningOn a) v (fs a) (log a) (effects a).
Definition setFs (v : Fs.t) (a : t) : t :=
  mk (storagePath a) (deviceId a) (service a) (deviceStateServices a) (mediaTypeServices a)
     (appConfigs a) (commonConfig a) (stateConfigs a) (mediaConfigs a)
     (booted a) (offline a) (turningOn a) (lastOnEvent a) v (log a) (effects a).
Definition addLog (l : LogLine) (a : t) : t :=
  mk (storagePath a) (deviceId a) (service a) (deviceStateServices a) (mediaTypeServices a)
     (appConfigs a) (commonConfig a) (stateConfigs a) (mediaConfigs a)
     (booted a) (offline a) (turningOn a) (lastOnEvent a) (fs a) (log a ++ [l]) (effects a).
Definition addEffect (e : Effect) (a : t) : t :=
  mk (storagePath a) (deviceId a) (service a) (deviceStateServices a) (mediaTypeServices a)
     (appConfigs a) (commonConfig a) (stateConfigs a) (mediaConfigs a)
     (booted a) (offline a) (turningOn a) (lastOnEvent a) (fs a) (log a) (effects a ++ [e]).

(** Monadic forms of the field updates. *)
Definition modify (f : t -> t) : M t unit := fun a => Ok tt (f a).
Definition get {A} (f : t -> A) : M t A := fun a => Ok (f a) a.

(** Run a file system call on the [fs] field. *)
Definition liftFs {A} (m : M Fs.t A) : M t A :=
  fun a => match m (fs a) with
           | Ok x fs' => Ok x (setFs fs' a)
           | Throw e fs' => Throw e (setFs fs' a)
           end.

(** A [null] value inside a template literal. *)
Definition showNull (o : option string) : string := default "null" o.

Local Open Scope js_scope.

Definition logInfo (m : string) : M t unit := modify (addLog (Info m)).
Definition logDebug (m : string) : M t unit := modify (addLog (Debug m)).
Definition logWarn (m : string) : M t unit := modify (addLog (Warn m)).
Definition effect (e : Effect) : M t unit := modify (addEffect e).

(** [s.setCharacteristic(MotionDetected, b)] on the sensor registered under
    [k] in the given dictionary, when there is one. *)
Definition setMotion (k : string) (b : bool) (m : gmap string bool) : gmap string bool :=
  match m !! k with
  | Some _ => <[k := b]> m
  | None => m
  end.

(** [this.service?.setCharacteristic(CurrentMediaState, v)] *)
Definition setCurrentMediaState (v : Z) (a : t) : t :=
  match service a with
  | Some tv => setService (Some (mkTelevision (Active tv) v)) a
  | None => a
  end.

(** [this.service?.getCharacteristic(Active).value === INACTIVE] *)
Definition isInactive (a : t) : bool :=
  match service a with
  | Some tv => Active tv =? Hap.INACTIVE
  | None => false
  end.

(** [handleMediaTypeUpdate(event)] *)
Definition handleMediaTypeUpdate (event : Event) : M t unit :=
  match oldValue event with
  | Some old => modify (fun a => setMediaTypeServices (setMotion old false (mediaTypeServices a)) a)
  | None => ret tt
  end;;;
  let! inactive := get isInactive in
  if inactive then ret tt
  else
    logInfo ("New Media Type State: " +:+ showNull (value event));;;
    match value event with
    | Some v => modify (fun a => setMediaTypeServices (setMotion v true (mediaTypeServices a)) a)
    | None => ret tt
    end.

(** [handleDeviceStateUpdate(event)] *)
Definition handleDeviceStateUpdate (event : Event) : M t unit :=
  match oldValue event with
  | Some old => modify (fun a => setDeviceStateServices (setMotion old false (deviceStateServices a)) a)
  | None => ret tt
  end;;;
  let! inactive := get isInactive in
  if inactive then ret tt
  else
    logInfo ("New Device State: " +:+ showNull (value event));;;
    match value event with
    | Some v => modify (fun a => setDeviceStateServices (setMotion v true (deviceStateServices a)) a)
    | None => ret tt
    end;;;
    match value event with
    | Some "playing" => modify (setCurrentMediaState Hap.PLAY)
    | Some "paused" => modify (setCurrentMediaState Hap.PAUSE)
    | Some "stopped" => modify (setCurrentMediaState Hap.STOP)
    | Some "loading" => modify (setCurrentMediaState Hap.LOADING)
    | None => modify (setCurrentMediaState Hap.INTERRUPTED)
    | Some _ => ret tt
    end.

Definition WAIT_MAX_FOR_STATES : Z := 30.
Definition STEPS : Z := 250.

(** The polling loop of [handleActiveSet]:
    [for (let i = STEPS; i <= WAIT_MAX_FOR_STATES * 1000; i += STEPS)].
    [getState k] is what the device answers to the [k]-th poll, as the pair
    [(mediaType, deviceState)]. *)
Fixpoint waitForStates (getState : nat -> option string * option string)
    (fuel k : nat) (i : Z) : M t unit :=
  match fuel with
  | O => ret tt
  | S fuel' =>
      if i <=? WAIT_MAX_FOR_STATES * 1000 then
        effect DeviceGetState;;;
        match getState k with
        | (Some mediaType, Some deviceState) =>
            (let! known := get (fun a => mediaTypeServices a !! mediaType) in
             match known with
             | Some _ =>
                 logInfo ("New Media Type State: " +:+ mediaType);;;
                 modify (fun a => setMediaTypeServices (<[mediaType := true]> (mediaTypeServices a)) a)
             | None => ret tt
             end);;;
            (let! known := get (fun a => deviceStateServices a !! deviceState) in
             match known with
             | Some _ =>
                 logInfo ("New Device State: " +:+ deviceState);;;
                 modify (fun a => setDeviceStateServices (<[deviceState := true]> (deviceStateServices a)) a)
             | None => ret tt
             end)
        | _ =>
            effect (Delay STEPS);;;
            logDebug ("Waiting until mediaType and deviceState is reported: " +:+ JS.showZ i +:+ "ms");;;
            waitForStates getState fuel' (S k) (i + STEPS)
        end
      else ret tt
  end.

(** [handleActiveSet(state)], called when [Date.now()] is [now]. The handler
    is run to completion; the answers of the device to its polls are given
    by [getState]. *)
Definition handleActiveSet (now : Z) (getState : nat -> option string * option string)
    (state : Z) : M t unit :=
  let! on := get turningOn in
  let! lastOn := get lastOnEvent in
  if (state =? Hap.ACTIVE) && negb on then
    modify (setTurningOn true);;;
    modify (setLastOnEvent now);;;
    logInfo "Turning on";;;
    effect DeviceTurnOn;;;
    waitForStates getState (Z.to_nat (WAIT_MAX_FOR_STATES * 1000 / STEPS)) O STEPS;;;
    modify (setTurningOn false)
  else if (state =? Hap.INACTIVE) && (lastOn + 7500 <? now) then
    logInfo "Turning off";;;
    effect DeviceTurnOff
  else ret tt.

(** [handleActiveUpdate(event)], called when [Date.now()] is [now].
    [this.service!] throws when the service is not there. *)
Definition handleActiveUpdate (now : Z) (event : Event) : M t unit :=
  match value event with
  | None => ret tt
  | Some v =>
      if bool_decide (value event = oldValue event) then ret tt
      else
        let value := if String.eqb v "on" then Hap.ACTIVE else Hap.INACTIVE in
        let! lastOn := get lastOnEvent in
        if (value =? Hap.INACTIVE) && (lastOn + 7500 >? now) then ret tt
        else
          logInfo ("New Active State: " +:+ v);;;
          let! s := get service in
          match s with
          | Some tv => modify (setService (Some (mkTelevision value (CurrentMediaState tv))))
          | None => throw "TypeError"
          end
  end.

(** What the device emits on an ['update:...'] channel: an [Error] or an
    event. *)
Inductive Emitted :=
| IsError (message : string)
| IsEvent (event : Event).

(** [filterErrorHandler(event, listener)] of [createListeners]. *)
Definition filterErrorHandler (emitted : Emitted) (listener : Event -> M t unit) : M t unit :=
  match emitted with
  | IsError _ => ret tt
  | IsEvent event =>
      (let! off := get offline in
       match off, value event with
       | true, Some _ =>
           logInfo "Reestablished the connection";;;
           modify (setOffline false)
       | _, _ => ret tt
       end);;;
      logDebug ("event " +:+ key event +:+ ": " +:+ showNull (value event));;;
      listener event
  end.

(** The listeners registered by [createListeners], called when [Date.now()]
    is [now]. *)
Definition onPowerState (now : Z) (emitted : Emitted) : M t unit :=
  filterErrorHandler emitted (handleActiveUpdate now).
Definition onDeviceState (emitted : Emitted) : M t unit :=
  filterErrorHandler emitted handleDeviceStateUpdate.
Definition onMediaType (emitted : Emitted) : M t unit :=
  filterErrorHandler emitted handleMediaTypeUpdate.

(** The listener of the ['error'] channel. *)
Definition onError (e : string) : M t unit :=
  logDebug e;;;
  modify (setOffline true);;;
  logWarn "Lost connection. Trying to reconnect ...".

(** The per-device directory: the storage path, [appletv-enhanced], then the
    device id without its colons (ids are MAC addresses, so this is one
    segment). *)
Definition pluginDir (a : t) : Fs.path := (storagePath a ++ ["appletv-enhanced"])%list.
Definition deviceDir (a : t) : Fs.path := (pluginDir a ++ [JS.removeAll ":" (deviceId a)])%list.

Definition ensureDir (dir : Fs.path) : M t unit :=
  let! there := get (fun a => Fs.existsSync (fs a) dir) in
  if there then ret tt else liftFs (Fs.mkdirSync dir).

(** [getPath(file, defaultContent)] *)
Definition getPath (file defaultContent : string) : M t Fs.path :=
  let! dir := get pluginDir in
  ensureDir dir;;;
  let! dir := get deviceDir in
  ensureDir dir;;;
  let filePath := (dir ++ [file])%list in
  tryCatchEmpty (liftFs (Fs.writeFileSync filePath defaultContent Fs.WX));;;
  ret filePath.

(** [getCredentials()] *)
Definition getCredentials : M t string :=
  let! path := getPath "credentials.txt" "" in
  let! content := liftFs (Fs.readFileSync path) in
  let credentials := JS.trim content in
  logDebug ("Loaded credentials: " +:+ credentials);;;
  ret credentials.

(** [saveCredentials(credentials)] *)
Definition saveCredentials (credentials : string) : M t unit :=
  let! path := getPath "credentials.txt" "" in
  liftFs (Fs.writeFileSync path credentials Fs.W).

(** The body shared by the four configuration getters: the cached document
    when there is one, else the parsed content of the file. *)
Definition loadConfig (file : string) (cached : t -> option json)
    (store : option json -> t -> t) : M t json :=
  let! c := get cached in
  match c with
  | Some j => ret j
  | None =>
      let! jsonPath := getPath file "{}" in
      let! text := liftFs (Fs.readFileSync jsonPath) in
      match JSON_parse text with
      | Some j => modify (store (Some j));;; ret j
      | None => throw "SyntaxError"
      end
  end.

(** The effects a call added to those of the state it started from. *)
Definition newEffects {A} (a : t) (r : Result t A) : list Effect :=
  drop (length (effects a)) (effects (stateOf r)).

(** The dictionary of sensors after the indicator of the old value, when
    there is one, was put out. *)
Definition clearOld (old : option string) (m : gmap string bool) : gmap string bool :=
  match old with
  | Some k => setMotion k false m
  | None => m
  end.

(** The directories are in place or can be made: the storage path is a
    directory, and the plugin and device directories are directories or do
    not exist yet. *)
Definition dirsReady (a : t) : Prop :=
  fs a !! storagePath a = Some Fs.Dir
  /\ (fs a !! pluginDir a = None \/ fs a !! pluginDir a = Some Fs.Dir)
  /\ (fs a !! deviceDir a = None \/ fs a !! deviceDir a = Some Fs.Dir).

Definition credentialsPath (a : t) : Fs.path := (deviceDir a ++ ["credentials.txt"])%list.

(** [dirsReady], and no directory sits where the credentials file goes. *)
Definition storageReady (a : t) : Prop :=
  dirsReady a /\ fs a !! credentialsPath a <> Some Fs.Dir.

(** What [ensureDir] does, case by case. *)
Inductive ensured (dir : Fs.path) (a : t) : Result t unit -> Prop :=
| ensured_there n :
    fs a !! dir = Some n -> ensured dir a (Ok tt a)
| ensured_made :
    fs a !! dir = None -> fs a !! Fs.parent dir = Some Fs.Dir ->
    ensured dir a (Ok tt (setFs (<[dir := Fs.Dir]> (fs a)) a))
| ensured_failed :
    fs a !! dir = None -> fs a !! Fs.parent dir <> Some Fs.Dir ->
    ensured dir a (Throw "ENOENT" a).

(** What the write of a default content with flag [wx] does, its errors
    swallowed. *)
Inductive defaulted (p : Fs.path) (d : string) (a : t) : Result t unit -> Prop :=
| defaulted_kept n :
    fs a !! p = Some n -> defaulted p d a (Ok tt a)
| defaulted_written :
    fs a !! p = None -> fs a !! Fs.parent p = Some Fs.Dir ->
    defaulted p d a (Ok tt (setFs (<[p := Fs.File d]> (fs a)) a))
| defaulted_nowhere :
    fs a !! p = None -> fs a !! Fs.parent p <> Some Fs.Dir ->
    defaulted p d a (Ok tt a).

(** [a'] is [a] with a larger disk, on which [p], if it was absent, is still
    absent or is a file holding [d]. *)
Definition grown (p : Fs.path) (d : string) (a a' : t) : Prop :=
  exists disk,
    a' = setFs disk a
    /\ fs a ⊆ disk
    /\ (fs a !! p = None -> disk !! p = None \/ disk !! p = Some (Fs.File d)).

Definition getAppConfigs : M t json := loadConfig "apps.json" appConfigs setAppConfigsField.
Definition getCommonConfig : M t json := loadConfig "common.json" commonConfig setCommonConfigField.
Definition getMediaConfig : M t json := loadConfig "mediaTypes.json" mediaConfigs setMediaConfigsField.
Definition getDeviceStateConfig : M t json :=
  loadConfig "deviceStates.json" stateConfigs setStateConfigsField.

(** The operations that read a per-device file, the file each reads, and
    the content [getPath] gives the file when it makes it. *)
Inductive ReadOp :=
| ReadCredentials
| ReadAppConfigs
| ReadCommonConfig
| ReadMediaConfig
| ReadDeviceStateConfig.

Definition artifact (op : ReadOp) : string :=
  match op with
  | ReadCredentials => "credentials.txt"
  | ReadAppConfigs => "apps.json"
  | ReadCommonConfig => "common.json"
  | ReadMediaConfig => "mediaTypes.json"
  | ReadDeviceStateConfig => "deviceStates.json"
  end.

Definition defaultContent (op : ReadOp) : string :=
  match op with
  | ReadCredentials => ""
  | _ => "{}"
  end.

Definition artifactPath (op : ReadOp) (a : t) : Fs.path := (deviceDir a ++ [artifact op])%list.

(** The state in which the operation leaves the accessory, whether it
    returns or throws. *)
Definition after (op : ReadOp) (a : t) : t :=
  match op with
  | ReadCredentials => stateOf (getCredentials a)
  | ReadAppConfigs => stateOf (getAppConfigs a)
  | ReadCommonConfig => stateOf (getCommonConfig a)
  | ReadMediaConfig => stateOf (getMediaConfig a)
  | ReadDeviceStateConfig => stateOf (getDeviceStateConfig a)
  end.

End Handlers.
End Accessory.

(** ** The pairing loop ([pair] in [appleTVEnhancedAccessory.ts]) *)
Module Pairing.

Inductive Effect :=
| Spawn
| Log (msg : string)
| StdinWrite (data : string)
| HttpEnd (body : string)
| ServerListen
| ServerClose
| Delay (ms : Z).

(** The variables of [pair] that its callbacks share. [goOn], [success] and
    [credentials] live across iterations of the outer loop;
    [backOffSeconds] and [processClosed] are declared anew in each. *)
Record t := mk {
  goOn : bool;
  success : bool;
  credentials : string;
  backOffSeconds : JS.num;
  processClosed : bool;
  trace : list Effect;
}.

Definition emit (e : Effect) (s : t) : t :=
  mk (goOn s) (success s) (credentials s) (backOffSeconds s) (processClosed s)
     (trace s ++ [e]).
Definition setGoOn (v : bool) (s : t) : t :=
  mk v (success s) (credentials s) (backOffSeconds s) (processClosed s) (trace s).
Definition setSuccess (v : bool) (s : t) : t :=
  mk (goOn s) v (credentials s) (backOffSeconds s) (processClosed s) (trace s).
Definition setCredentials (v : string) (s : t) : t :=
  mk (goOn s) (success s) v (backOffSeconds s) (processClosed s) (trace s).
Definition setBackOffSeconds (v : JS.num) (s : t) : t :=
  mk (goOn s) (success s) (credentials s) v (processClosed s) (trace s).
Definition setProcessClosed (v : bool) (s : t) : t :=
  mk (goOn s) (success s) (credentials s) (backOffSeconds s) v (trace s).

Definition PIN_MARKER : string := "Enter PIN on screen:".
Definition BACKOFF_MARKER : string := "BackOff=".
Definition SUCCESS_MARKER : string := "You may now use these credentials: ".

(** [data.search('BackOff=') + 8], with [-1] for no match. *)
Definition afterBackOff (data : string) : nat :=
  match JS.search BACKOFF_MARKER data with
  | Some i => i + 8
  | None => 7
  end%nat.

(** [parseInt(data.substring(data.search('BackOff=') + 8).split('s', 2)[0]) + 5] *)
Definition parseBackOff (data : string) : JS.num :=
  let piece := JS.splitLimit "s" 2 (JS.substring (afterBackOff data) data) !! O in
  JS.numAdd (JS.parseInt (JS.showUndef piece)) 5.

(** The [process.stdout.on('data', ...)] callback. *)
Definition onStdout (data : string) (s : t) : t :=
  let s := emit (Log ("stdout: " +:+ data)) s in
  if JS.includes PIN_MARKER data then s
  else if JS.includes BACKOFF_MARKER data then
    setGoOn true (setBackOffSeconds (parseBackOff data) s)
  else if JS.includes "ERROR" (JS.toUpperCase data) then
    setGoOn true s
  else if JS.includes SUCCESS_MARKER data then
    let split := JS.split ": " data in
    let text := JS.showUndef (split !! 1%nat) in
    let s := setCredentials (JS.trim text) s in
    let s := emit (Log ("Extracted credentials: " +:+ text)) s in
    setSuccess true (setGoOn true s)
  else s.

(** The [process.stderr.on('data', ...)] callback. *)
Definition onStderr (data : string) (s : t) : t :=
  setGoOn true (emit (Log ("stderr: " +:+ data)) s).

(** The [process.on('close', ...)] callback. *)
Definition onClose (s : t) : t := setProcessClosed true s.

(** The callback armed with [setTimeout(..., 32000)]. *)
Definition onWatchdog (s : t) : t :=
  if processClosed s then s
  else emit (StdinWrite (String "010" EmptyString))
         (emit (Log "Send \n to the stdout of the atvremote process to terminate it.")
            (emit (Log "Pairing request timed out, retrying ...") s)).

Inductive Method := GET | POST.

(** [const [a, b, c, d] = reqBody.split('&').map((e) => e.charAt(2));
    const pin = `${a}${b}${c}${d}`] *)
Definition reconstructPin (reqBody : string) : string :=
  let chars := map (JS.charAt 2) (JS.split "&" reqBody) in
  JS.showUndef (chars !! 0%nat) +:+ JS.showUndef (chars !! 1%nat)
    +:+ JS.showUndef (chars !! 2%nat) +:+ JS.showUndef (chars !! 3%nat).

(** [requestListener(req, res)] once the request has been read: [chunks]
    are the pieces the ['data'] events delivered before ['end']. *)
Definition requestListener (appleTVName htmlInput htmlAfterPost : string)
    (method : Method) (chunks : list string) (s : t) : t :=
  match method with
  | GET => emit (HttpEnd htmlInput) s
  | POST =>
      let reqBody := fold_left String.append chunks EmptyString in
      let pin := reconstructPin reqBody in
      let s := emit (Log ("Got PIN " +:+ pin +:+ " for Apple TV " +:+ appleTVName +:+ ".")) s in
      let s := emit (StdinWrite (pin +:+ String "010" EmptyString)) s in
      emit (HttpEnd htmlAfterPost) s
  end.

(** What can happen while [pair] waits. *)
Inductive Event :=
| Stdout (data : string)
| Stderr (data : string)
| Close
| Watchdog
| Request (method : Method) (chunks : list string).

Section Loop.
Variables appleTVName htmlInput htmlAfterPost : string.

Definition handle (e : Event) (s : t) : t :=
  match e with
  | Stdout d => onStdout d s
  | Stderr d => onStderr d s
  | Close => onClose s
  | Watchdog => onWatchdog s
  | Request m cs => requestListener appleTVName htmlInput htmlAfterPost m cs s
  end.

(** [while (!goOn || !processClosed) { await delay(100); }]: during each
    delay the next event is delivered.  [None]: the events ran out while the
    loop was still waiting. *)
Fixpoint waitForProcess (events : list Event) (s : t) : option t :=
  if negb (goOn s) || negb (processClosed s) then
    match events with
    | [] => None
    | e :: rest => waitForProcess rest (handle e (emit (Delay 100) s))
    end
  else Some s.

Definition showNum (n : JS.num) : string :=
  match n with JS.Num z => JS.showZ z | JS.NaN => "NaN" end.

(** [for (; backOffSeconds > 0; backOffSeconds--) { debug; await delay(1000); }] *)
Fixpoint countDown (fuel : nat) (b : Z) (s : t) : t :=
  match fuel with
  | O => setBackOffSeconds (JS.Num b) s
  | S fuel' =>
      if b >? 0 then
        let s := emit (Log (JS.showZ b +:+ " seconds remaining.")) s in
        let s := emit (Delay 1000) s in
        countDown fuel' (b - 1) s
      else setBackOffSeconds (JS.Num b) s
  end.

(** [if (backOffSeconds !== 0) { warn; for ... }] *)
Definition backOffWait (s : t) : t :=
  match backOffSeconds s with
  | JS.Num 0 => s
  | JS.Num b =>
      countDown (Z.to_nat b)  b
        (emit (Log ("Apple TV " +:+ appleTVName +:+ ": Too many attempts. Waiting for "
                      +:+ JS.showZ b +:+ " seconds before retrying.")) s)
  | JS.NaN =>
      emit (Log ("Apple TV " +:+ appleTVName
                   +:+ ": Too many attempts. Waiting for NaN seconds before retrying.")) s
  end.

(** One turn of [while (!success) { ... }], given the events of this turn. *)
Definition iteration (events : list Event) (s : t) : option t :=
  let s := setProcessClosed false (setBackOffSeconds (JS.Num 0) s) in
  let s := emit ServerListen (emit Spawn s) in
  match waitForProcess events s with
  | None => None
  | Some s => Some (backOffWait (emit ServerClose s))
  end.

(** The outer loop: [runs] gives the events of each turn. [None]: still
    pairing when the runs are used up. *)
Fixpoint pairLoop (runs : list (list Event)) (s : t) : option t :=
  if success s then Some s
  else match runs with
       | [] => None
       | events :: rest =>
           match iteration events s with
           | Some s' => pairLoop rest s'
           | None => None
           end
       end.

Definition init : t := mk false false "" (JS.Num 0) false [].

(** The time spent in [delay] calls, in milliseconds. *)
Fixpoint waited (l : list Effect) : Z :=
  match l with
  | [] => 0
  | Delay ms :: rest => ms + waited rest
  | _ :: rest => waited rest
  end.

(** The number of one-second ticks. *)
Fixpoint secondTicks (l : list Effect) : nat :=
  match l with
  | [] => O
  | Delay 1000 :: rest => S (secondTicks rest)
  | _ :: rest => secondTicks rest
  end.

(** [pair(ip, appleTVName)]: the credentials and what was done. *)
Definition pair (runs : list (list Event)) : option (string * list Effect) :=
  match pairLoop runs (emit (Log "Got empty credentials, initiating pairing process.") init) with
  | Some s => Some (credentials s, trace s)
  | None => None
  end.

End Loop.
End Pairing.

(** ** The control channel ([RocketRemote.ts]) *)
Module RocketRemote.

(** A close callback is known by a number. *)
Definition Callback := nat.

Inductive Effect :=
| SpawnProcess
| LogDebug (msg : string)
| LogInfo (msg : string)
| LogWarn (msg : string)
| StdinWrite (data : string)
| RemoveStdoutListeners
| RemoveStderrListeners
| ClearInterval
| Invoke (f : Callback).

(** The fields of the class, and of the child process what the class relies
    on: the listeners registered with [once('close', ...)] (all run the same
    code, so their number is kept) and whether ['close'] was emitted. *)
Record t := mk {
  process : bool;
  onCloseCallable : option Callback;
  heartbeatInterval : bool;
  closeListeners : nat;
  closed : bool;
  trace : list Effect;
}.

Definition emit (e : Effect) (s : t) : t :=
  mk (process s) (onCloseCallable s) (heartbeatInterval s) (closeListeners s) (closed s)
     (trace s ++ [e]).
Definition setOnCloseCallable (f : option Callback) (s : t) : t :=
  mk (process s) f (heartbeatInterval s) (closeListeners s) (closed s) (trace s).
Definition setHeartbeatInterval (b : bool) (s : t) : t :=
  mk (process s) (onCloseCallable s) b (closeListeners s) (closed s) (trace s).
Definition setCloseListeners (n : nat) (s : t) : t :=
  mk (process s) (onCloseCallable s) (heartbeatInterval s) n (closed s) (trace s).
Definition setClosed (b : bool) (s : t) : t :=
  mk (process s) (onCloseCallable s) (heartbeatInterval s) (closeListeners s) b (trace s).

Definition newline : string := String "010" EmptyString.

(** [this.process?.stdin.write(data)] *)
Definition stdinWrite (data : string) (s : t) : t :=
  if process s then emit (StdinWrite data) s else s.

(** The constructor: [initProcess()] then [initHeartbeat()]. *)
Definition create : t :=
  let s := mk false None false O false [] in
  let s := emit (LogDebug "creating") s in
  let s := emit SpawnProcess (mk true (onCloseCallable s) (heartbeatInterval s)
                                 (closeListeners s) (closed s) (trace s)) in
  setHeartbeatInterval true s.

(** The callback given to [setInterval(..., 15000)]. *)
Definition heartbeat (s : t) : t :=
  stdinWrite ("app_list" +:+ newline) (emit (LogDebug "heartbeat") s).

(** [sendCommand(cmd)] *)
Definition sendCommand (cmd : string) (s : t) : t :=
  stdinWrite (cmd +:+ newline) (emit (LogInfo cmd) s).

(** [onClose(f)] *)
Definition onClose (f : Callback) (s : t) : t :=
  let s := setOnCloseCallable (Some f) s in
  if process s then setCloseListeners (S (closeListeners s)) s else s.

(** The listener that [onClose] registers. *)
Definition closeListener (s : t) : t :=
  let s := if process s then emit RemoveStdoutListeners s else s in
  let s := if process s then emit RemoveStderrListeners s else s in
  let s := setHeartbeatInterval false (emit ClearInterval s) in
  let s := emit (LogWarn "Lost connection. Trying to reconnect ...") s in
  match onCloseCallable s with
  | Some f => emit (Invoke f) s
  | None => s
  end.

(** What happens to a channel: calls of its methods, the interval timer
    coming due, the child process emitting ['close']. *)
Inductive Op :=
| OnClose (f : Callback)
| SendCommand (cmd : string)
| Tick
| Exit.

(** A timer that was cleared does not call back; a process emits ['close']
    once, and a [once] listener is removed when it has run. *)
Definition step (s : t) (o : Op) : t :=
  match o with
  | OnClose f => onClose f s
  | SendCommand cmd => sendCommand cmd s
  | Tick => if heartbeatInterval s then heartbeat s else s
  | Exit =>
      if closed s then s
      else setCloseListeners O (Nat.iter (closeListeners s) closeListener (setClosed true s))
  end.

Definition run (ops : list Op) (s : t) : t := fold_left step ops s.

Definition isInvoke (e : Effect) : bool :=
  match e with Invoke _ => true | _ => false end.

Definition isStdinWrite (e : Effect) : bool :=
  match e with StdinWrite _ => true | _ => false end.

Definition isOnClose (o : Op) : bool :=
  match o with OnClose _ => true | _ => false end.

Definition isExit (o : Op) : bool :=
  match o with Exit => true | _ => false end.

(** The writes that the [sendCommand] calls among [ops] make. *)
Fixpoint commandWrites (ops : list Op) : list Effect :=
  match ops with
  | [] => []
  | SendCommand cmd :: rest => StdinWrite (cmd +:+ newline) :: commandWrites rest
  | _ :: rest => commandWrites rest
  end.

(** Before the process closes: it is there, its timer runs, no callback was
    invoked, and there are as many close listeners as [onClose] calls, the
    last of which gave the stored callback. *)
Record open (registered : list Op) (s : t) : Prop := {
  open_process : process s = true;
  open_heartbeat : heartbeatInterval s = true;
  open_closed : closed s = false;
  open_listeners : closeListeners s = length registered;
  open_callable : onCloseCallable s = match last registered with
                                      | Some (OnClose f) => Some f
                                      | _ => None
                                      end;
  open_quiet : List.filter isInvoke (trace s) = [];
}.

(** After the close: the timer is cleared and stays so, the process does not
    close again, and what follows adds only the writes of [sendCommand]. *)
Record shut (s : t) : Prop := {
  shut_heartbeat : heartbeatInterval s = false;
  shut_closed : closed s = true;
  shut_process : process s = true;
}.

End RocketRemote.

(** ** The environment check ([PythonChecker.ts]) *)
Module PythonChecker.

(** What the checker needs from its host: the file system, subprocesses
    ([runCommand] of [utils], which yields the standard output), the request
    to pypi.org, and the two version helpers [String.prototype.match] with
    [/\d+\.\d+\.\d+/] and [compareVersions].  A command or a [mkdir] may
    change the world.  The requirements files ship with the plugin, so
    reading one does not fail.  Logging is left out. *)
Class Host := {
  world : Type;
  existsSync : world -> string -> bool;
  mkdirSync : string -> world -> world;
  readFileSync : world -> string -> string;
  runCommand : string -> list string -> world -> string * world;
  (** [None]: [axios.get] threw. *)
  pypiPipVersion : world -> option string;
  matchVersion : string -> option string;
  compareVersions : string -> string -> Z;
}.

Inductive Action :=
| Mkdir (dir : string)
| Run (exe : string) (args : list string)
| HttpGet (url : string).

(** [path.join(a, b)] *)
Definition join (a b : string) : string := a +:+ "/" +:+ b.

Definition MIN_OPENSSL_VERSION : string := "3.0.0".
Definition initialSupportedPythonVersions : list string :=
  ["3.8"; "3.9"; "3.10"; "3.11"; "3.12"].

(** The commands that change the environment: [python -m venv <venv>
    --clear] and [pip install ...]. *)
Definition isMutatingCommand (python venv pip exe : string) (args : list string) : bool :=
  bool_decide (exe = python /\ args = ["-m"; "venv"; venv; "--clear"])
  || (bool_decide (exe = pip) && bool_decide (args !! 0%nat = Some "install")).

Section Checker.
Context `{Host}.

(** The fields of the class, the module-level [supportedPythonVersions], the
    world, and the actions taken so far. [dirname] is [__dirname]. *)
Record t := mk {
  dirname : string;
  pluginDirPath : string;
  pythonExecutable : string;
  requirementsPath : string;
  venvConfigPath : string;
  venvPath : string;
  venvPipExecutable : string;
  venvPythonExecutable : string;
  supportedPythonVersions : list string;
  w : world;
  trace : list Action;
}.

Definition setWorld (v : world) (c : t) : t :=
  mk (dirname c) (pluginDirPath c) (pythonExecutable c) (requirementsPath c)
     (venvConfigPath c) (venvPath c) (venvPipExecutable c) (venvPythonExecutable c)
     (supportedPythonVersions c) v (trace c).
Definition act (a : Action) (c : t) : t :=
  mk (dirname c) (pluginDirPath c) (pythonExecutable c) (requirementsPath c)
     (venvConfigPath c) (venvPath c) (venvPipExecutable c) (venvPythonExecutable c)
     (supportedPythonVersions c) (w c) (trace c ++ [a]).
Definition setLegacy (path : string) (versions : list string) (c : t) : t :=
  mk (dirname c) (pluginDirPath c) (pythonExecutable c) path
     (venvConfigPath c) (venvPath c) (venvPipExecutable c) (venvPythonExecutable c)
     versions (w c) (trace c).

Definition requirementsFile (dir variant : string) : string :=
  join (join (join (join dir "..") "python_requirements") variant) "requirements.txt".

(** The constructor; [pythonExecutable ?? 'python3']. *)
Definition create (dir storagePath : string) (python : option string)
    (versions : list string) (w0 : world) : t :=
  let pluginDir := join storagePath "appletv-enhanced" in
  let venv := join pluginDir ".venv" in
  mk dir pluginDir (default "python3" python) (requirementsFile dir "default")
     (join venv "pyvenv.cfg") venv
     (join (join venv "bin") "pip3") (join (join venv "bin") "python3")
     versions w0 [].

(** A step either returns or never does (the [while (true)] loops that log
    an error every five minutes). *)
Inductive Outcome (A : Type) :=
| Returns (a : A) (c : t)
| Blocks (c : t).
Arguments Returns {A} a c.
Arguments Blocks {A} c.

Definition C (A : Type) : Type := t -> Outcome A.
Definition cret {A} (a : A) : C A := fun c => Returns a c.
Definition cbind {A B} (m : C A) (k : A -> C B) : C B :=
  fun c => match m c with
           | Returns a c' => k a c'
           | Blocks c' => Blocks c'
           end.
Definition block {A} : C A := fun c => Blocks c.
Definition ask {A} (f : t -> A) : C A := fun c => Returns (f c) c.

Notation "'let*' x ':=' m 'in' k" := (cbind m (fun x => k))
  (at level 10, x name, m at level 100, k at level 200).
Notation "m '>>' k" := (cbind m (fun _ => k))
  (at level 100, k at level 200, right associativity).

(** [await runCommand(this.log, exe, args, ...)], first component. *)
Definition run (exe : string) (args : list string) : C string :=
  fun c => let '(out, w') := runCommand exe args (w c) in
           Returns out (setWorld w' (act (Run exe args) c)).

Definition exists_ (p : string) : C bool := ask (fun c => existsSync (w c) p).

(** [freezeStringToObject(value)]: a present key may hold [undefined]. *)
Definition freezeStringToObject (value : string) : gmap string (option string) :=
  fold_left
    (fun (packages : gmap string (option string)) line =>
       let parts := JS.split "==" line in
       <[JS.replaceAll "_" "-" (JS.showUndef (parts !! 0%nat)) := parts !! 1%nat]> packages)
    (JS.split (String "010" EmptyString) (JS.trim value)) ∅.

(** [o[k]] *)
Definition prop (o : gmap string (option string)) (k : string) : option string :=
  match o !! k with Some v => v | None => None end.

(** [for (const pkg in requirements) if (freeze[pkg] !== requirements[pkg]) return false] *)
Definition allPinned (freeze requirements : gmap string (option string)) : bool :=
  forallb (fun kv => bool_decide (prop freeze kv.1 = kv.2)) (map_to_list requirements).

Definition areRequirementsSatisfied : C bool :=
  let* pip := ask venvPipExecutable in
  let* freezeStdout := run pip ["freeze"] in
  let freeze := freezeStringToObject freezeStdout in
  let* text := ask (fun c => readFileSync (w c) (requirementsPath c)) in
  cret (allPinned freeze (freezeStringToObject text)).

Definition isVenvCreated : C bool :=
  let* pip := ask venvPipExecutable in
  let* cfg := ask venvConfigPath in
  let* py := ask venvPythonExecutable in
  let* a := exists_ pip in
  if a then
    let* b := exists_ cfg in
    if b then exists_ py else cret false
  else cret false.

Definition createVenv : C unit :=
  let* python := ask pythonExecutable in
  let* venv := ask venvPath in
  let* stdout := run python ["-m"; "venv"; venv; "--clear"] in
  if JS.includes "not created successfully" stdout then block
  else
    let* created := isVenvCreated in
    if created then cret tt else block.

Definition ensurePluginDir : C unit :=
  let* dir := ask pluginDirPath in
  let* there := exists_ dir in
  if there then cret tt
  else fun c => Returns tt (setWorld (mkdirSync dir (w c)) (act (Mkdir dir) c)).

Definition getSystemPythonVersion : C string :=
  let* python := ask pythonExecutable in
  let* version := run python ["--version"] in
  cret (JS.removeFirst "Python " (JS.trim version)).

Definition ensurePythonVersion : C unit :=
  let* version := getSystemPythonVersion in
  let* supported := ask supportedPythonVersions in
  if existsb (fun e => JS.includes e version) supported then cret tt else block.

Definition ensureVenvCreated (forceVenvRecreate : bool) : C unit :=
  if forceVenvRecreate then createVenv
  else
    let* created := isVenvCreated in
    if created then cret tt else createVenv.

Definition getVenvPipVersion : C string :=
  let* pip := ask venvPipExecutable in
  let* version := run pip ["--version"] in
  cret (JS.showUndef (JS.split " " (JS.removeFirst "pip " (JS.trim version)) !! 0%nat)).

Definition PYPI_URL : string := "https://pypi.org/pypi/pip/json".

Definition getMostRecentPipVersion : C string :=
  fun c => Returns (default "error" (pypiPipVersion (w c))) (act (HttpGet PYPI_URL) c).

Definition updatePip : C unit :=
  let* pip := ask venvPipExecutable in
  let* _ := run pip ["install"; "--upgrade"; "pip"] in
  cret tt.

Definition ensureVenvPipUpToDate : C unit :=
  let* venvPipVersion := getVenvPipVersion in
  let* latest := getMostRecentPipVersion in
  if String.eqb venvPipVersion latest then cret tt else updatePip.

Definition installRequirements : C unit :=
  let* pip := ask venvPipExecutable in
  let* req := ask requirementsPath in
  let* _ := run pip ["install"; "-r"; req] in
  cret tt.

Definition ensureVenvRequirementsSatisfied : C unit :=
  let* ok := areRequirementsSatisfied in
  if ok then cret tt else installRequirements.

Definition getPythonHome (executable : string) : C string :=
  let* dir := ask dirname in
  let* home := run executable [join dir "determinePythonHome.py"] in
  cret (JS.trim home).

Definition ensureVenvUsesCorrectPythonHome : C unit :=
  let* venvPython := ask venvPythonExecutable in
  let* python := ask pythonExecutable in
  let* venvPythonHome := getPythonHome venvPython in
  let* pythonHome := getPythonHome python in
  if String.eqb venvPythonHome pythonHome then cret tt else createVenv.

(** [openSSL()]: on an old or unknown OpenSSL, the legacy requirements and
    no Python 3.12. *)
Definition openSSL : C unit :=
  let* openSSLVersionString := run "openssl" ["version"] in
  let compatible :=
    match matchVersion openSSLVersionString with
    | Some r0 => negb (compareVersions MIN_OPENSSL_VERSION r0 =? 1)
    | None => false
    end in
  if compatible then cret tt
  else fun c =>
    Returns tt (setLegacy (requirementsFile (dirname c) "openssl_legacy")
                  (filter (fun e => e ≠ "3.12") (supportedPythonVersions c)) c).

(** [allInOne(forceVenvRecreate)] *)
Definition allInOne (forceVenvRecreate : bool) : C unit :=
  ensurePluginDir >>
  openSSL >>
  ensurePythonVersion >>
  ensureVenvCreated forceVenvRecreate >>
  ensureVenvUsesCorrectPythonHome >>
  ensureVenvPipUpToDate >>
  ensureVenvRequirementsSatisfied.

(** *** What the checker observes in a world

    The answers the queries of [allInOne] get in the world of [c]. *)
Definition out (c : t) (exe : string) (args : list string) : string :=
  (runCommand exe args (w c)).1.

(** The test of [openSSL()] on the answer of [openssl version]. *)
Definition compatible (c : t) : bool :=
  match matchVersion (out c "openssl" ["version"]) with
  | Some r0 => negb (compareVersions MIN_OPENSSL_VERSION r0 =? 1)
  | None => false
  end.

(** [c] after the switch that [openSSL()] makes, as decided in the world of
    [c0]. *)
Definition settle (c0 c : t) : t :=
  if compatible c0 then c
  else setLegacy (requirementsFile (dirname c) "openssl_legacy")
         (filter (fun e => e ≠ "3.12") (supportedPythonVersions c)) c.

Definition systemPythonVersion (c : t) : string :=
  JS.removeFirst "Python " (JS.trim (out c (pythonExecutable c) ["--version"])).

Definition venvPipVersion (c : t) : string :=
  JS.showUndef
    (JS.split " " (JS.removeFirst "pip " (JS.trim (out c (venvPipExecutable c) ["--version"])))
       !! 0%nat).

Definition pythonHome (c : t) (executable : string) : string :=
  JS.trim (out c executable [join (dirname c) "determinePythonHome.py"]).

Definition venvFiles (c : t) : bool :=
  existsSync (w c) (venvPipExecutable c)
  && existsSync (w c) (venvConfigPath c)
  && existsSync (w c) (venvPythonExecutable c).

(** The packages [pip freeze] lists, and those the requirements file in
    force pins. *)
Definition installed (c : t) : gmap string (option string) :=
  freezeStringToObject (out c (venvPipExecutable c) ["freeze"]).

Definition pinned (c : t) : gmap string (option string) :=
  freezeStringToObject (readFileSync (w c) (requirementsPath (settle c c))).

(** The actions that change the environment: creating the plugin directory,
    (re)creating the venv, and the two [pip install] commands. *)
Definition mutating (c : t) (a : Action) : bool :=
  match a with
  | Mkdir _ => true
  | Run exe args =>
      isMutatingCommand (pythonExecutable c) (venvPath c) (venvPipExecutable c) exe args
  | HttpGet _ => false
  end.

(** The queries of a run that finds nothing to do, in order. *)
Definition queries (c : t) : list Action :=
  [ Run "openssl" ["version"];
    Run (pythonExecutable c) ["--version"];
    Run (venvPythonExecutable c) [join (dirname c) "determinePythonHome.py"];
    Run (pythonExecutable c) [join (dirname c) "determinePythonHome.py"];
    Run (venvPipExecutable c) ["--version"];
    HttpGet PYPI_URL;
    Run (venvPipExecutable c) ["freeze"] ].

Definition addTrace (l : list Action) (c : t) : t :=
  mk (dirname c) (pluginDirPath c) (pythonExecutable c) (requirementsPath c)
     (venvConfigPath c) (venvPath c) (venvPipExecutable c) (venvPythonExecutable c)
     (supportedPythonVersions c) (w c) (trace c ++ l).

(** [c'] is [c] further along a run: the same world and the same paths;
    the trace, the requirements path and the supported versions may
    differ. *)
Record alike (c c' : t) : Prop := {
  same_w : w c' = w c;
  same_dirname : dirname c' = dirname c;
  same_pluginDirPath : pluginDirPath c' = pluginDirPath c;
  same_pythonExecutable : pythonExecutable c' = pythonExecutable c;
  same_venvConfigPath : venvConfigPath c' = venvConfigPath c;
  same_venvPath : venvPath c' = venvPath c;
  same_venvPipExecutable : venvPipExecutable c' = venvPipExecutable c;
  same_venvPythonExecutable : venvPythonExecutable c' = venvPythonExecutable c;
}.

(** A satisfied environment: the plugin directory and the venv exist, the
    interpreter is supported, the venv has the home of the system Python
    and the latest pip, and every pinned package is installed at its pinned
    version.  Commands other than the mutating ones leave the world as it
    is. *)
Record satisfied (c : t) : Prop := {
  sat_queries : forall exe args,
    mutating c (Run exe args) = false -> (runCommand exe args (w c)).2 = w c;
  sat_pluginDir : existsSync (w c) (pluginDirPath c) = true;
  sat_venv : venvFiles c = true;
  sat_python :
    existsb (fun e => JS.includes e (systemPythonVersion c))
      (supportedPythonVersions (settle c c)) = true;
  sat_home : pythonHome c (venvPythonExecutable c) = pythonHome c (pythonExecutable c);
  sat_pip : pypiPipVersion (w c) = Some (venvPipVersion c);
  sat_pinned : forall pkg v, pinned c !! pkg = Some v -> prop (installed c) pkg = v;
}.

End Checker.

Arguments Returns {_ _} _ _.
Arguments Blocks {_ _} _.

End PythonChecker.

(** ** Sample data for the worked examples *)
Module Sample.

(** Documents kept as their text: every text parses. *)
Definition rawJson : Json := {| json := string; JSON_parse := Some |}.

(** An accessory that has booted: two device-state sensors, one of them
    lit, one media-type sensor, and the last power-on at time [1000]. *)
Definition accessory (active : Z) (files : Fs.t) : @Accessory.t rawJson :=
  @Accessory.mk rawJson ["var"; "lib"; "homebridge"] "AA:BB:CC:DD:EE:FF"
    (Some (Accessory.mkTelevision active Hap.PLAY))
    {["playing" := true; "paused" := false]}
    {["video" := true]}
    None None None None true false false 1000 files [] [].

Definition deviceDir : Fs.path :=
  ["var"; "lib"; "homebridge"; "appletv-enhanced"; "AABBCCDDEEFF"].

(** Only the storage directory exists. *)
Definition freshDisk : Fs.t := {[ ["var"; "lib"; "homebridge"] := Fs.Dir ]}.

(** A device that was paired before. *)
Definition pairedDisk : Fs.t :=
  {[ ["var"; "lib"; "homebridge"] := Fs.Dir;
     ["var"; "lib"; "homebridge"; "appletv-enhanced"] := Fs.Dir;
     deviceDir := Fs.Dir;
     (deviceDir ++ ["credentials.txt"])%list := Fs.File "0123abcd" ]}.

(** A machine for the environment check: whether the venv is there, the
    version of its pip, and what [pip freeze] prints. *)
Record machine := mkMachine {
  hasVenv : bool;
  pipVersion : string;
  frozen : string;
}.

Definition nl : string := String "010" EmptyString.
Definition venvDir : string := "/var/lib/homebridge/appletv-enhanced/.venv".
Definition pip3 : string := "/var/lib/homebridge/appletv-enhanced/.venv/bin/pip3".
Definition requirementsText : string :=
  "pyatv==0.14.3" +:+ nl +:+ "typing_extensions==4.8.0" +:+ nl.

Definition answer (exe : string) (args : list string) (m : machine) : string :=
  match args with
  | ["version"] => "OpenSSL 3.1.4 24 Oct 2023" +:+ nl
  | ["--version"] =>
      if String.eqb exe pip3
      then "pip " +:+ pipVersion m +:+ " from /x/site-packages/pip (python 3.11)" +:+ nl
      else "Python 3.11.6" +:+ nl
  | ["freeze"] => frozen m
  | _ => "/usr" +:+ nl
  end.

(** The venv creation makes a bare venv with an old pip; [pip install
    --upgrade pip] brings the latest pip; [pip install -r] installs what is
    pinned; every other command only answers. *)
Definition sampleHost : PythonChecker.Host := {|
  PythonChecker.world := machine;
  PythonChecker.existsSync m p := if JS.includes ".venv" p then hasVenv m else true;
  PythonChecker.mkdirSync _ m := m;
  PythonChecker.readFileSync _ _ := requirementsText;
  PythonChecker.runCommand exe args m :=
    if PythonChecker.isMutatingCommand "python3" venvDir pip3 exe args
    then ("",
          if bool_decide (args !! 0%nat = Some "-m") then mkMachine true "20.0" ""
          else if bool_decide (args !! 1%nat = Some "--upgrade")
               then mkMachine (hasVenv m) "23.3.1" (frozen m)
               else mkMachine (hasVenv m) (pipVersion m) requirementsText)
    else (answer exe args m, m);
  PythonChecker.pypiPipVersion _ := Some "23.3.1";
  PythonChecker.matchVersion s := if JS.includes "3.1.4" s then Some "3.1.4" else None;
  PythonChecker.compareVersions a b := if String.eqb a b then 0 else -1;
|}.

(** The checker on a machine where everything is in place; [pip freeze]
    spells with a hyphen the package that the requirements spell with an
    underscore. *)
Definition sampleChecker : @PythonChecker.t sampleHost :=
  @PythonChecker.create sampleHost "/usr/lib/node_modules/homebridge-appletv-enhanced/dist"
    "/var/lib/homebridge" None PythonChecker.initialSupportedPythonVersions
    (mkMachine true "23.3.1"
       ("pyatv==0.14.3" +:+ nl +:+ "typing-extensions==4.8.0" +:+ nl +:+ "zeroconf==0.131.0" +:+ nl)).

End Sample.

(** ** Vocabulary for the power-on wait *)
Module PowerOn.
Import Accessory.

(** The device has reported both its media type and its device state. *)
Definition reported (answer : option string * option string) : bool :=
  match answer with
  | (Some _, Some _) => true
  | _ => false
  end.

(** [n] rounds of a poll followed by a wait of [STEPS] ms. *)
Fixpoint rounds (n : nat) : list Effect :=
  match n with
  | O => []
  | S n' => DeviceGetState :: Delay STEPS :: rounds n'
  end.

(** The number of polls [handleActiveSet] makes at most. *)
Definition maxPolls : nat := Z.to_nat (WAIT_MAX_FOR_STATES * 1000 / STEPS).

End PowerOn.

(** ** Vocabulary for the event handlers *)
Module Events.
Import Accessory.

(** The CurrentMediaState that [handleDeviceStateUpdate] writes for a
    device state, if it writes one. *)
Definition mediaStateFor (v : option string) : option Z :=
  match v with
  | None => Some Hap.INTERRUPTED
  | Some s =>
      if String.eqb s "playing" then Some Hap.PLAY
      else if String.eqb s "paused" then Some Hap.PAUSE
      else if String.eqb s "stopped" then Some Hap.STOP
      else if String.eqb s "loading" then Some Hap.LOADING
      else None
  end.

(** The dictionary of sensors after the indicator of the new value, when
    there is one, was lit. *)
Definition lightNew (v : option string) (m : gmap string bool) : gmap string bool :=
  match v with
  | Some k => setMotion k true m
  | None => m
  end.

Section WithJson.
Context `{Json}.

(** The accessory after the write of CurrentMediaState that goes with a
    device state, if one does. *)
Definition applyMediaState (v : option string) (a : t) : t :=
  match mediaStateFor v with
  | Some c => setCurrentMediaState c a
  | None => a
  end.

End WithJson.

(** [value === null] *)
Definition isNull (v : option string) : bool :=
  match v with Some _ => false | None => true end.


End Events.

(** ** Vocabulary for the per-device files *)
Module Storage.
Import Accessory.

Section WithJson.
Context `{Json}.

(** The text of the credentials file, [''] when the file is not there. *)
Definition storedCredentials (a : t) : string :=
  match fs a !! credentialsPath a with
  | Some (Fs.File c) => c
  | _ => ""
  end.

(** The four getters of configuration documents. *)
Definition configGetters : list (M t json) :=
  [getAppConfigs; getCommonConfig; getMediaConfig; getDeviceStateConfig].

End WithJson.
End Storage.

(** ** Vocabulary for the pairing loop *)
Module PairingSpec.
Import Pairing.

Definition isClose (e : Event) : bool :=
  match e with Close => true | _ => false end.

(** A line that the stdout callback takes for the success message: it has
    the success marker and none of the markers tested before it. *)
Definition successLine (data : string) : bool :=
  negb (JS.includes PIN_MARKER data)
  && negb (JS.includes BACKOFF_MARKER data)
  && negb (JS.includes "ERROR" (JS.toUpperCase data))
  && JS.includes SUCCESS_MARKER data.

(** [data.split(': ')[1].trim()] *)
Definition extracted (data : string) : string :=
  JS.trim (JS.showUndef (JS.split ": " data !! 1%nat)).

(** What was added to a trace. *)
Definition added (before after : t) : list Effect :=
  drop (length (trace before)) (trace after).

(** If the state says success, a success line among the events seen gave
    the credentials it holds. *)
Definition sound (seen : list Event) (s : t) : Prop :=
  success s = true ->
  exists data,
    In (Stdout data) seen /\ successLine data = true /\ credentials s = extracted data.

(** The seconds a back-off value makes the loop wait. *)
Definition backOffMillis (n : JS.num) : Z :=
  match n with
  | JS.Num b => 1000 * Z.max 0 b
  | JS.NaN => 0
  end.

End PairingSpec.

(** ** Vocabulary for the control channel *)
Module RocketRemoteSpec.
Import RocketRemote.

(** What the heartbeat and [sendCommand] write while nothing stops the
    timer. *)
Fixpoint allWrites (ops : list Op) : list Effect :=
  match ops with
  | [] => []
  | SendCommand cmd :: rest => StdinWrite (cmd +:+ newline) :: allWrites rest
  | Tick :: rest => StdinWrite ("app_list" +:+ newline) :: allWrites rest
  | _ :: rest => allWrites rest
  end.

(** No close of the process finds a listener: [registered] says whether
    [onClose] was called, [closed] whether the process has closed. *)
Fixpoint undisturbed (registered closed : bool) (ops : list Op) : bool :=
  match ops with
  | [] => true
  | OnClose _ :: rest => undisturbed true closed rest
  | Exit :: rest =>
      if closed then undisturbed registered closed rest
      else if registered then false
      else undisturbed registered true rest
  | _ :: rest => undisturbed registered closed rest
  end.

(** The callback that the last [onClose] call of [ops] gave. *)
Definition lastCallback (ops : list Op) : option Callback :=
  match last (List.filter isOnClose ops) with
  | Some (OnClose f) => Some f
  | _ => None
  end.

(** The channel is alive: the process is there, its timer runs, nothing was
    invoked; the process has closed or not as [closed] says, and while it
    has not, there are listeners exactly when [registered] says so. *)
Record alive (registered closed : bool) (s : t) : Prop := {
  alive_process : process s = true;
  alive_heartbeat : heartbeatInterval s = true;
  alive_closed : RocketRemote.closed s = closed;
  alive_listeners : closed = false -> (closeListeners s = O <-> registered = false);
  alive_quiet : List.filter isInvoke (trace s) = [];
}.

End RocketRemoteSpec.

(** ** Vocabulary for the environment check *)
Module PythonCheckerSpec.
Import PythonChecker.

Section Spec.
Context `{Host}.

(** Where a step leaves the checker, whether it returns or not. *)
Definition state {A} (o : Outcome A) : t :=
  match o with
  | Returns _ c => c
  | Blocks c => c
  end.

(** The checker when [allInOne] reaches [ensurePythonVersion()]. *)
Definition afterOpenSSL (c : t) : t :=
  state (cbind ensurePluginDir (fun _ => openSSL) c).

(** The test of [ensurePythonVersion()] in the world of [c]. *)
Definition supported (c : t) : bool :=
  existsb (fun e => JS.includes e (systemPythonVersion c)) (supportedPythonVersions c).

(** What [ensurePluginDir()] does in the world of [c]. *)
Definition pluginDirActions (c : t) : list Action :=
  if existsSync (w c) (pluginDirPath c) then [] else [Mkdir (pluginDirPath c)].

(** The command of [createVenv()]. *)
Definition creation (c : t) : Action :=
  Run (pythonExecutable c) ["-m"; "venv"; venvPath c; "--clear"].

(** The checker when [areRequirementsSatisfied()] has run [pip freeze]. *)
Definition afterFreeze (c : t) : t := state (run (venvPipExecutable c) ["freeze"] c).

(** The checker when [getVenvPipVersion()] has run [pip --version]. *)
Definition afterPipVersion (c : t) : t := state (run (venvPipExecutable c) ["--version"] c).

(** The checker when [ensureVenvUsesCorrectPythonHome()] has asked the
    Python of the virtual environment for its home. *)
Definition afterVenvHome (c : t) : t := state (getPythonHome (venvPythonExecutable c) c).

(** The two questions of [ensureVenvUsesCorrectPythonHome()]. *)
Definition homeQueries (c : t) : list Action :=
  [Run (venvPythonExecutable c) [join (dirname c) "determinePythonHome.py"];
   Run (pythonExecutable c) [join (dirname c) "determinePythonHome.py"]].

(** What the requirements file in force at [c] pins. *)
Definition requirements (c : t) : gmap string (option string) :=
  freezeStringToObject (readFileSync (w c) (requirementsPath c)).

End Spec.
End PythonCheckerSpec.

(** ** More sample machines for the environment check *)
Module SampleMore.
Import Sample.

(** The host of [Sample.sampleHost] with another system Python and another
    answer of pypi.org. *)
Definition hostWith (python : string) (pypi : option string) : PythonChecker.Host := {|
  PythonChecker.world := machine;
  PythonChecker.existsSync := @PythonChecker.existsSync sampleHost;
  PythonChecker.mkdirSync := @PythonChecker.mkdirSync sampleHost;
  PythonChecker.readFileSync := @PythonChecker.readFileSync sampleHost;
  PythonChecker.runCommand exe args m :=
    if bool_decide (args = ["--version"]) && negb (String.eqb exe pip3)
    then ("Python " +:+ python +:+ nl, m)
    else @PythonChecker.runCommand sampleHost exe args m;
  PythonChecker.pypiPipVersion _ := pypi;
  PythonChecker.matchVersion := @PythonChecker.matchVersion sampleHost;
  PythonChecker.compareVersions := @PythonChecker.compareVersions sampleHost;
|}.

Definition checkerOn (h : PythonChecker.Host) (m : @PythonChecker.world h) : @PythonChecker.t h :=
  @PythonChecker.create h "/usr/lib/node_modules/homebridge-appletv-enhanced/dist"
    "/var/lib/homebridge" None PythonChecker.initialSupportedPythonVersions m.

(** No virtual environment yet. *)
Definition bareChecker : @PythonChecker.t sampleHost :=
  checkerOn sampleHost (mkMachine false "" "").

(** A system Python that the plugin does not support. *)
Definition oldPythonChecker : @PythonChecker.t (hostWith "3.7.3" (Some "23.3.1")) :=
  checkerOn (hostWith "3.7.3" (Some "23.3.1")) (mkMachine false "" "").

(** pypi.org cannot be reached. *)
Definition offlineChecker : @PythonChecker.t (hostWith "3.11.6" None) :=
  checkerOn (hostWith "3.11.6" None) (mkMachine true "23.3.1" requirementsText).

End SampleMore.

(** ** The platform ([appleTVEnhancedPlatform.ts]): device discovery *)
Module Platform.

(** A scan result of [CustomPyAtvInstance.find()]: the fields that
    [discoverDevices()] reads. *)
Record Device := mkDevice {
  id : option string;
  name : string;
  modelName : option string;
  os : option string;
}.

(** [[0-9A-Fa-f]] *)
Definition isHex (c : ascii) : bool :=
  let n := nat_of_ascii c in
  ((48 <=? n)%nat && (n <=? 57)%nat)
  || ((65 <=? n)%nat && (n <=? 70)%nat)
  || ((97 <=? n)%nat && (n <=? 102)%nat).

(** [groups] times two hex digits and a colon, then two hex digits and the
    end of the string. *)
Fixpoint macGroups (groups : nat) (s : string) : bool :=
  match groups, s with
  | O, String a (String b EmptyString) => isHex a && isHex b
  | S n, String a (String b (String c rest)) =>
      isHex a && isHex b && Ascii.eqb c ":" && macGroups n rest
  | _, _ => false
  end.

(** [/^([0-9A-Fa-f]{2}[:]){5}([0-9A-Fa-f]{2})$/.test(s)] *)
Definition isMac (s : string) : bool := macGroups 5 s.

(** The callback of [scanResults.filter]; the regular expression tests the
    word [undefined] when the device has no id. *)
Definition isAppleTV (d : Device) : bool :=
  isMac (JS.showUndef (id d))
  && match modelName d with
     | Some m => JS.includes "Apple TV" m
     | None => false
     end
  && bool_decide (os d = Some "TvOS").

(** [new this.api.platformAccessory(displayName, uuid)] with its
    [context.id]. *)
Record Accessory := mkAccessory {
  displayName : string;
  UUID : string;
  contextId : string;
}.

(** [config.blacklist], [publishedUUIDs], and the accessories created so
    far. *)
Record t := mk {
  blacklist : option (list string);
  publishedUUIDs : list string;
  created : list Accessory;
}.

(** The platform after its constructor. *)
Definition create (blacklist : option (list string)) : t := mk blacklist [] [].

(** [this.config.blacklist && this.config.blacklist.includes(id)] *)
Definition blacklisted (s : t) (id : string) : bool :=
  match blacklist s with
  | Some l => bool_decide (id ∈ l)
  | None => false
  end.

Section Discovery.
(** [this.api.hap.uuid.generate] *)
Variable generate : string -> string.

(** The body of the loop over the Apple TVs. *)
Definition register (s : t) (appleTV : Device) : t :=
  let id := JS.showUndef (id appleTV) in
  if blacklisted s id then s
  else
    let uuid := generate id in
    if bool_decide (uuid ∈ publishedUUIDs s) then s
    else mk (blacklist s) (publishedUUIDs s ++ [uuid])
            (created s ++ [mkAccessory ("Apple TV " +:+ name appleTV) uuid id]).

(** [discoverDevices()]; [scan] is [None] when [find()] rejects, which the
    [catch] turns into no device. *)
Definition discoverDevices (scan : option (list Device)) (s : t) : t :=
  fold_left register (List.filter isAppleTV (default [] scan)) s.

(** The discovery at launch and the ones of the 30 s interval. *)
Definition discoveries (scans : list (option (list Device))) (s : t) : t :=
  fold_left (fun s scan => discoverDevices scan s) scans s.

(** The accessories follow the published UUIDs, which do not repeat. *)
Definition consistent (s : t) : Prop :=
  publishedUUIDs s = map UUID (created s) /\ NoDup (publishedUUIDs s).

(** An accessory stands for a device that passed the filter and the
    blacklist. *)
Definition genuine (bl : option (list string)) (a : Accessory) : Prop :=
  isMac (contextId a) = true
  /\ UUID a = generate (contextId a)
  /\ forall l, bl = Some l -> contextId a ∉ l.

End Discovery.

End Platform.

(** ** Sample scans for the discovery *)
Module SampleScans.

(** What a scan finds: an Apple TV, a HomePod, and an Apple TV that the
    user has put on the blacklist. *)
Definition livingRoom : Platform.Device :=
  Platform.mkDevice (Some "AA:BB:CC:DD:EE:FF") "Living Room" (Some "Apple TV 4K") (Some "TvOS").
Definition homePod : Platform.Device :=
  Platform.mkDevice (Some "11:22:33:44:55:66") "Kitchen" (Some "HomePod Mini") (Some "TvOS").
Definition bedroom : Platform.Device :=
  Platform.mkDevice (Some "0a:1b:2c:3d:4e:5f") "Bedroom" (Some "Apple TV HD") (Some "TvOS").

Definition uuidOf (id : string) : string := "uuid-" +:+ id.

(** The scan at launch, a scan that fails, and a later scan. *)
Definition scans : list (option (list Platform.Device)) :=
  [Some [livingRoom; homePod; bedroom; livingRoom]; None; Some [bedroom; livingRoom]].

End SampleScans.

(* ===================================================================== *)
(** * Part II: properties *)
(* ===================================================================== *)

(** ** Power commands and power events *)
Module AccessoryProps.
Import Accessory.

Section Power.
Context `{Json}.

Lemma newEffects_same (a : t) : newEffects a (Ok tt a) = [].
Proof. unfold newEffects. simpl. apply drop_all. Qed.

Lemma newEffects_add (a : t) (l : LogLine) (e : Effect) :
  newEffects a (Ok tt (addEffect e (addLog l a))) = [e].
Proof. unfold newEffects. simpl. by rewrite drop_app_length. Qed.

(** An off command takes one of two courses, decided by a strict
    comparison of [lastOnEvent + 7500] with the clock. *)
Lemma handleActiveSet_inactive (now : Z) getState (a : t) :
  handleActiveSet now getState Hap.INACTIVE a =
    if lastOnEvent a + 7500 <? now
    then Ok tt (addEffect DeviceTurnOff (addLog (Info "Turning off") a))
    else Ok tt a.
Proof.
  unfold handleActiveSet, bind, get. simpl.
  destruct (lastOnEvent a + 7500 <? now); reflexivity.
Qed.

(** C1 (as amended): an off command issued at time [now] is not forwarded
    to the device exactly when [now - lastOnEvent <= 7500]; in that case the
    handler changes nothing, otherwise it logs and calls [turnOff()] once. *)
Theorem C1_off_command_forwarded_after_window (now : Z) getState (a : t) :
  let r := handleActiveSet now getState Hap.INACTIVE a in
  (DeviceTurnOff ∉ newEffects a r <-> now - lastOnEvent a <= 7500)
  /\ (now - lastOnEvent a <= 7500 -> r = Ok tt a)
  /\ (7500 < now - lastOnEvent a -> newEffects a r = [DeviceTurnOff]).
Proof.
  intros r. subst r. rewrite handleActiveSet_inactive.
  destruct (Z.ltb_spec (lastOnEvent a + 7500) now) as [Hlt | Hge].
  - rewrite newEffects_add. repeat split; try lia.
    intros Hnot. exfalso. apply Hnot. by apply list_elem_of_singleton.
  - rewrite newEffects_same. repeat split; try lia.
    intros _. apply not_elem_of_nil.
Qed.

(** When a power event is suppressed. *)
Lemma handleActiveUpdate_suppressed (now : Z) (event : Event) (a : t) :
  value event = None
  \/ value event = oldValue event
  \/ (exists v, value event = Some v /\ v <> "on" /\ now - lastOnEvent a < 7500) ->
  handleActiveUpdate now event a = Ok tt a.
Proof.
  intros Hcase. unfold handleActiveUpdate.
  destruct (value event) as [v|] eqn:Hv; [|reflexivity].
  destruct Hcase as [Hnone | [Hsame | (v' & Hv' & Hoff & Hwin)]].
  - discriminate.
  - by rewrite bool_decide_eq_true_2.
  - injection Hv' as <-.
    case_bool_decide; [reflexivity|].
    unfold bind, get. simpl.
    destruct (String.eqb_spec v "on") as [->|_]; [done|].
    replace (lastOnEvent a + 7500 >? now) with true; [reflexivity|].
    symmetry. apply Z.gtb_lt. lia.
Qed.

(** What [filterErrorHandler] does before it calls the listener touches
    neither the service, nor the time of the last power-on. *)
Lemma filterErrorHandler_prelude (event : Event) (listener : Event -> M t unit) (a : t) :
  exists a',
    filterErrorHandler (IsEvent event) listener a = listener event a'
    /\ service a' = service a
    /\ lastOnEvent a' = lastOnEvent a
    /\ effects a' = effects a.
Proof.
  unfold filterErrorHandler, bind, get, logInfo, logDebug, modify. cbv beta iota.
  destruct (offline a), (value event); eexists; (split; [reflexivity|]); by repeat split.
Qed.

(** C2: a power event is dropped when its value is [null], when it equals
    the old value, or when it means off and arrives less than 7500 ms after
    the last power-on command: the handler returns with the accessory as it
    was, and on the way through the listener registered for the event the
    Television service, with its Active characteristic, is not written. *)
Theorem C2_power_event_suppressed (now : Z) (event : Event) (a : t) :
  value event = None
  \/ value event = oldValue event
  \/ (exists v, value event = Some v /\ v <> "on" /\ now - lastOnEvent a < 7500) ->
  handleActiveUpdate now event a = Ok tt a
  /\ service (stateOf (onPowerState now (IsEvent event) a)) = service a.
Proof.
  intros Hcase. split; [by apply handleActiveUpdate_suppressed|].
  unfold onPowerState.
  destruct (filterErrorHandler_prelude event (handleActiveUpdate now) a)
    as (a' & -> & Hservice & Hlast & _).
  rewrite handleActiveUpdate_suppressed; [exact Hservice|].
  by rewrite Hlast.
Qed.

(** ** Sensor indicators while the accessory is inactive *)

Lemma setMotion_other (k k' : string) (b : bool) (m : gmap string bool) :
  k <> k' -> setMotion k b m !! k' = m !! k'.
Proof.
  intros Hne. unfold setMotion.
  destruct (m !! k); [by rewrite lookup_insert_ne | done].
Qed.

Lemma setMotion_false_true (k k' : string) (m : gmap string bool) :
  setMotion k false m !! k' = Some true -> m !! k' = Some true.
Proof.
  unfold setMotion. destruct (m !! k) eqn:Hk; [|done].
  destruct (decide (k = k')) as [<-|Hne].
  - rewrite lookup_insert_eq. discriminate.
  - by rewrite lookup_insert_ne.
Qed.

Lemma clearOld_other (old : option string) (k : string) (m : gmap string bool) :
  old <> Some k -> clearOld old m !! k = m !! k.
Proof.
  destruct old as [o|]; simpl; [|done].
  intros Hne. apply setMotion_other. congruence.
Qed.

Lemma clearOld_no_new_true (old : option string) (k : string) (m : gmap string bool) :
  clearOld old m !! k = Some true -> m !! k = Some true.
Proof. destruct old; simpl; [apply setMotion_false_true | done]. Qed.

Lemma handleDeviceStateUpdate_inactive (event : Event) (a : t) :
  isInactive a = true ->
  handleDeviceStateUpdate event a
  = Ok tt (setDeviceStateServices (clearOld (oldValue event) (deviceStateServices a)) a).
Proof.
  intros Hin. unfold handleDeviceStateUpdate, bind, get, modify, ret.
  destruct (oldValue event) as [old|]; simpl.
  - unfold isInactive in *. simpl. by rewrite Hin.
  - rewrite Hin. by destruct a.
Qed.

Lemma handleMediaTypeUpdate_inactive (event : Event) (a : t) :
  isInactive a = true ->
  handleMediaTypeUpdate event a
  = Ok tt (setMediaTypeServices (clearOld (oldValue event) (mediaTypeServices a)) a).
Proof.
  intros Hin. unfold handleMediaTypeUpdate, bind, get, modify, ret.
  destruct (oldValue event) as [old|]; simpl.
  - unfold isInactive in *. simpl. by rewrite Hin.
  - rewrite Hin. by destruct a.
Qed.

(** C5 (as amended): while the Active characteristic is INACTIVE, a
    device-state or media-type event lights no indicator and writes nothing
    but the indicator of the old value, which is put out when that value has
    a sensor; the indicator of every other key, the new value's included
    when it differs from the old one, is unchanged. *)
Theorem C5_inactive_only_clears_old (event : Event) (a : t) :
  isInactive a = true ->
  let d := stateOf (handleDeviceStateUpdate event a) in
  let m := stateOf (handleMediaTypeUpdate event a) in
  d = setDeviceStateServices (clearOld (oldValue event) (deviceStateServices a)) a
  /\ m = setMediaTypeServices (clearOld (oldValue event) (mediaTypeServices a)) a
  /\ (forall k, oldValue event <> Some k ->
        deviceStateServices d !! k = deviceStateServices a !! k
        /\ mediaTypeServices m !! k = mediaTypeServices a !! k)
  /\ (forall k, deviceStateServices d !! k = Some true -> deviceStateServices a !! k = Some true)
  /\ (forall k, mediaTypeServices m !! k = Some true -> mediaTypeServices a !! k = Some true).
Proof.
  intros Hin d m. subst d m.
  rewrite (handleDeviceStateUpdate_inactive _ _ Hin).
  rewrite (handleMediaTypeUpdate_inactive _ _ Hin). simpl.
  split; [reflexivity|]. split; [reflexivity|].
  split; [|split].
  - intros k Hk. split; by apply clearOld_other.
  - intros k. apply clearOld_no_new_true.
  - intros k. apply clearOld_no_new_true.
Qed.

End Power.

(** C5, the claim as stated fails: with the accessory inactive, an event
    whose old value is [playing] puts out the lit [playing] indicator. *)
Lemma C5_old_indicator_counterexample :
  let a := Sample.accessory Hap.INACTIVE Sample.pairedDisk in
  let r := handleDeviceStateUpdate (mkEvent "deviceState" (Some "paused") (Some "playing")) a in
  isInactive a = true
  /\ deviceStateServices (stateOf r) !! "playing" <> deviceStateServices a !! "playing".
Proof. split; [reflexivity|]. vm_compute. discriminate. Qed.

Lemma C5_inactive_only_clears_old_witness :
  let a := Sample.accessory Hap.INACTIVE Sample.pairedDisk in
  let ev := mkEvent "mediaType" (Some "music") (Some "video") in
  stateOf (handleMediaTypeUpdate ev a)
  = setMediaTypeServices (clearOld (Some "video") (mediaTypeServices a)) a.
Proof.
  intros a ev.
  apply (C5_inactive_only_clears_old ev a). reflexivity.
Defined.

(** C1, the claim as stated fails on the boundary: an off command that comes
    exactly 7500 ms after the power-on is not forwarded, though
    [now - lastOnEvent < 7500] is false. *)
Lemma C1_boundary_counterexample :
  let a := Sample.accessory Hap.ACTIVE Sample.pairedDisk in
  let r := handleActiveSet 8500 (fun _ => (None, None)) Hap.INACTIVE a in
  ~ (DeviceTurnOff ∉ newEffects a r <-> 8500 - lastOnEvent a < 7500).
Proof.
  intros a r [Hfwd _].
  assert (Hnot : DeviceTurnOff ∉ newEffects a r).
  { subst r. rewrite handleActiveSet_inactive. simpl.
    rewrite newEffects_same. apply not_elem_of_nil. }
  specialize (Hfwd Hnot). simpl in Hfwd. lia.
Qed.

Lemma C2_power_event_suppressed_witness :
  let a := Sample.accessory Hap.ACTIVE Sample.pairedDisk in
  let event := mkEvent "powerState" (Some "off") (Some "on") in
  handleActiveUpdate 5000 event a = Ok tt a
  /\ service (stateOf (onPowerState 5000 (IsEvent event) a)) = service a.
Proof.
  intros a event. apply C2_power_event_suppressed.
  right. right. exists "off". split; [reflexivity|]. split; [discriminate|].
  simpl. lia.
Defined.

(** Past the window an off event is applied, and an off command sent. *)
Example off_event_applied :
  let a := Sample.accessory Hap.ACTIVE Sample.pairedDisk in
  service (stateOf (handleActiveUpdate 8500 (mkEvent "powerState" (Some "off") (Some "on")) a))
  = Some (mkTelevision Hap.INACTIVE Hap.PLAY).
Proof. reflexivity. Qed.

Example off_command_sent :
  let a := Sample.accessory Hap.ACTIVE Sample.pairedDisk in
  newEffects a (handleActiveSet 8501 (fun _ => (None, None)) Hap.INACTIVE a) = [DeviceTurnOff].
Proof. reflexivity. Qed.

(** A power-on command whose second poll reports the states. *)
Example on_command :
  let a := Sample.accessory Hap.INACTIVE Sample.pairedDisk in
  let answers k := match k with
                   | O => (None, None)
                   | _ => (Some "video", Some "paused")
                   end in
  let a' := stateOf (handleActiveSet 20000 answers Hap.ACTIVE a) in
  newEffects a (Ok tt a') = [DeviceTurnOn; DeviceGetState; Delay 250; DeviceGetState]
  /\ lastOnEvent a' = 20000
  /\ turningOn a' = false
  /\ deviceStateServices a' !! "paused" = Some true.
Proof. vm_compute. repeat split. Qed.

(** While the accessory is active, a device-state event moves the light
    from the old state to the new one. *)
Example active_device_state_event :
  let a := Sample.accessory Hap.ACTIVE Sample.pairedDisk in
  let a' := stateOf (handleDeviceStateUpdate
                       (mkEvent "deviceState" (Some "paused") (Some "playing")) a) in
  deviceStateServices a' !! "playing" = Some false
  /\ deviceStateServices a' !! "paused" = Some true
  /\ service a' = Some (mkTelevision Hap.ACTIVE Hap.PAUSE).
Proof. vm_compute. repeat split. Qed.

End AccessoryProps.

(** ** Per-device files *)
Module StorageProps.
Import Accessory.
Local Open Scope list_scope.

Section Files.
Context `{Json}.

Lemma setFs_same (a : t) : setFs (fs a) a = a.
Proof. by destruct a. Qed.

Lemma parent_snoc (p : Fs.path) (x : string) : Fs.parent (p ++ [x]) = p.
Proof. apply removelast_last. Qed.

Lemma snoc_neq (p : Fs.path) (x : string) : p ++ [x] <> p.
Proof.
  intros Heq. apply (f_equal length) in Heq.
  rewrite length_app in Heq. simpl in Heq. lia.
Qed.

Lemma snoc2_neq (p : Fs.path) (x y : string) : (p ++ [x]) ++ [y] <> p.
Proof.
  intros Heq. apply (f_equal length) in Heq.
  rewrite !length_app in Heq. simpl in Heq. lia.
Qed.

Lemma stateOf_bind {A B} (m : M t A) (k : A -> M t B) (a : t) :
  stateOf (bind m k a)
  = match m a with Ok x a' => stateOf (k x a') | Throw _ a' => a' end.
Proof. unfold bind. by destruct (m a). Qed.

Lemma ensureDir_ensured (dir : Fs.path) (a : t) : ensured dir a (ensureDir dir a).
Proof.
  unfold ensureDir, bind, get, liftFs, Fs.mkdirSync, Fs.existsSync, Fs.isDir, ret.
  destruct (fs a !! dir) as [n|] eqn:Hdir.
  - eapply ensured_there; eassumption.
  - cbv beta. rewrite Hdir.
    destruct (fs a !! Fs.parent dir) as [[|c]|] eqn:Hpar; cbv beta iota.
    + apply ensured_made; assumption.
    + rewrite setFs_same. apply ensured_failed; [assumption | congruence].
    + rewrite setFs_same. apply ensured_failed; [assumption | congruence].
Qed.

Lemma writeDefault_defaulted (p : Fs.path) (d : string) (a : t) :
  defaulted p d a (tryCatchEmpty (liftFs (Fs.writeFileSync p d Fs.WX)) a).
Proof.
  unfold tryCatchEmpty, liftFs, Fs.writeFileSync, Fs.isDir.
  destruct (fs a !! p) as [n|] eqn:Hp.
  - rewrite setFs_same. eapply defaulted_kept; eassumption.
  - destruct (fs a !! Fs.parent p) as [[|c]|] eqn:Hpar; cbv beta iota.
    + apply defaulted_written; assumption.
    + rewrite setFs_same. apply defaulted_nowhere; [assumption | congruence].
    + rewrite setFs_same. apply defaulted_nowhere; [assumption | congruence].
Qed.

Lemma grown_refl (p : Fs.path) (d : string) (a : t) : grown p d a a.
Proof. exists (fs a). rewrite setFs_same. split; [done|]. split; [done | by left]. Qed.

Lemma grown_trans (p : Fs.path) (d : string) (a b c : t) :
  grown p d a b -> grown p d b c -> grown p d a c.
Proof.
  intros (d1 & -> & Hs1 & Hp1) (d2 & -> & Hs2 & Hp2). simpl in *.
  exists d2. split; [reflexivity|]. split.
  - by etrans.
  - intros Hnone. destruct (Hp1 Hnone) as [Hd1 | Hd1].
    + by apply Hp2.
    + right. by eapply lookup_weaken.
Qed.

Lemma grown_insert_other (p q : Fs.path) (d : string) (n : Fs.node) (a : t) :
  fs a !! q = None -> q <> p -> grown p d a (setFs (<[q := n]> (fs a)) a).
Proof.
  intros Hq Hne. exists (<[q := n]> (fs a)).
  split; [reflexivity|]. split.
  - by apply insert_subseteq.
  - intros Hp. left. by rewrite lookup_insert_ne.
Qed.

Lemma ensureDir_grown (p dir : Fs.path) (d : string) (a : t) :
  dir <> p -> grown p d a (stateOf (ensureDir dir a)).
Proof.
  intros Hne. destruct (ensureDir_ensured dir a); simpl.
  - apply grown_refl.
  - by apply grown_insert_other.
  - apply grown_refl.
Qed.

Lemma writeDefault_grown (p : Fs.path) (d : string) (a : t) :
  grown p d a (stateOf (tryCatchEmpty (liftFs (Fs.writeFileSync p d Fs.WX)) a)).
Proof.
  destruct (writeDefault_defaulted p d a); simpl.
  - apply grown_refl.
  - exists (<[p := Fs.File d]> (fs a)).
    split; [reflexivity|]. split.
    + by apply insert_subseteq.
    + intros _. right. by rewrite lookup_insert_eq.
  - apply grown_refl.
Qed.

(** [getPath] touches the disk only, and only by adding to it; the file is
    as before or, if it was not there, absent or holding the default
    content.  When [getPath] returns, it returns the path of the file. *)
Lemma getPath_grown (file d : string) (a : t) :
  let p := deviceDir a ++ [file] in
  match getPath file d a with
  | Ok q a' => q = p /\ grown p d a a'
  | Throw _ a' => grown p d a a'
  end.
Proof.
  intros p. unfold getPath, bind, get. cbv beta iota.
  assert (H1 := ensureDir_grown p (pluginDir a) d a (not_eq_sym (snoc2_neq _ _ _))).
  destruct (ensureDir (pluginDir a) a) as [[] a1 | e a1]; simpl in H1; [|exact H1].
  assert (Hdd : deviceDir a1 = deviceDir a) by (by destruct H1 as (? & -> & _)).
  rewrite Hdd.
  assert (H2 := ensureDir_grown p (deviceDir a) d a1 (not_eq_sym (snoc_neq _ _))).
  destruct (ensureDir (deviceDir a) a1) as [[] a2 | e a2]; simpl in H2;
    [| by eapply grown_trans].
  assert (H3 := writeDefault_grown p d a2). fold p.
  destruct (tryCatchEmpty (liftFs (Fs.writeFileSync p d Fs.WX)) a2) as [[] a3 | e a3];
    simpl in *; eauto using grown_trans.
Qed.

Lemma getPath_keeps (file d : string) (a : t) (q : Fs.path) (n : Fs.node) :
  fs a !! q = Some n -> fs (stateOf (getPath file d a)) !! q = Some n.
Proof.
  intros Hq. pose proof (getPath_grown file d a) as Hg. simpl in Hg.
  destruct (getPath file d a) as [x a' | e a']; simpl.
  - destruct Hg as (_ & disk & -> & Hsub & _). simpl. by eapply lookup_weaken.
  - destruct Hg as (disk & -> & Hsub & _). simpl. by eapply lookup_weaken.
Qed.

Lemma liftFs_read (p : Fs.path) (a : t) :
  liftFs (Fs.readFileSync p) a
  = match fs a !! p with
    | Some (Fs.File c) => Ok c a
    | Some Fs.Dir => Throw "EISDIR" a
    | None => Throw "ENOENT" a
    end.
Proof.
  unfold liftFs, Fs.readFileSync.
  destruct (fs a !! p) as [[|c]|]; by rewrite setFs_same.
Qed.

(** Reading through [getPath] leaves the disk as [getPath] left it. *)
Lemma getCredentials_disk (a : t) :
  fs (stateOf (getCredentials a)) = fs (stateOf (getPath "credentials.txt" "" a)).
Proof.
  unfold getCredentials, bind.
  destruct (getPath "credentials.txt" "" a) as [p a' | e a']; [|reflexivity].
  rewrite liftFs_read. by destruct (fs a' !! p) as [[|c]|].
Qed.

Lemma loadConfig_disk (file : string) cached store (a : t) :
  (forall o b, fs (store o b) = fs b) ->
  fs (stateOf (loadConfig file cached store a)) = fs a
  \/ fs (stateOf (loadConfig file cached store a)) = fs (stateOf (getPath file "{}" a)).
Proof.
  intros Hstore. unfold loadConfig, bind, get. cbv beta iota.
  destruct (cached a) as [j|]; [by left | right].
  destruct (getPath file "{}" a) as [p a' | e a']; [|reflexivity].
  rewrite liftFs_read. destruct (fs a' !! p) as [[|c]|]; try reflexivity.
  destruct (JSON_parse c); [|reflexivity]. simpl. apply Hstore.
Qed.

Lemma after_disk (op : ReadOp) (a : t) :
  fs (after op a) = fs a
  \/ fs (after op a) = fs (stateOf (getPath (artifact op) (defaultContent op) a)).
Proof.
  destruct op; simpl.
  - right. apply getCredentials_disk.
  - by apply loadConfig_disk.
  - by apply loadConfig_disk.
  - by apply loadConfig_disk.
  - by apply loadConfig_disk.
Qed.

(** C10: a read operation only adds to the disk. Every entry that exists
    keeps its content, so a file that is present is not overwritten with the
    default; a file that is absent stays absent or gets the default
    content ([''] for the credentials, ['{}'] for the documents). *)
Theorem C10_read_keeps_existing_files (op : ReadOp) (a : t) :
  (forall q n, fs a !! q = Some n -> fs (after op a) !! q = Some n)
  /\ match fs a !! artifactPath op a with
     | Some n => fs (after op a) !! artifactPath op a = Some n
     | None =>
         fs (after op a) !! artifactPath op a = None
         \/ fs (after op a) !! artifactPath op a = Some (Fs.File (defaultContent op))
     end.
Proof.
  assert (Hkeep : forall q n, fs a !! q = Some n -> fs (after op a) !! q = Some n).
  { intros q n Hq. destruct (after_disk op a) as [-> | ->]; [done|].
    by apply getPath_keeps. }
  split; [exact Hkeep|].
  destruct (fs a !! artifactPath op a) as [n|] eqn:Hp; [by apply Hkeep|].
  destruct (after_disk op a) as [-> | ->]; [by left|].
  pose proof (getPath_grown (artifact op) (defaultContent op) a) as Hg. simpl in Hg.
  fold (artifactPath op a) in Hg.
  destruct (getPath (artifact op) (defaultContent op) a) as [x a' | e a']; simpl.
  - destruct Hg as (_ & disk & -> & _ & Hnew). simpl. by apply Hnew.
  - destruct Hg as (disk & -> & _ & Hnew). simpl. by apply Hnew.
Qed.

(** With the directories ready, [getPath] returns: both directories exist
    afterwards, and the file holds what it held, or the default content if
    it was not there.  If everything was there, the disk is as before. *)
Lemma getPath_ready (file d : string) (a : t) :
  dirsReady a ->
  let p := deviceDir a ++ [file] in
  exists disk,
    getPath file d a = Ok p (setFs disk a)
    /\ dirsReady (setFs disk a)
    /\ disk !! pluginDir a = Some Fs.Dir
    /\ disk !! deviceDir a = Some Fs.Dir
    /\ disk !! p = match fs a !! p with Some n => Some n | None => Some (Fs.File d) end
    /\ (is_Some (fs a !! pluginDir a) -> is_Some (fs a !! deviceDir a) ->
        is_Some (fs a !! p) -> disk = fs a).
Proof.
  intros (Hsp & Hplug & Hdev) p.
  assert (Hne1 : pluginDir a <> storagePath a) by apply snoc_neq.
  assert (Hne2 : deviceDir a <> storagePath a) by apply snoc2_neq.
  assert (Hne3 : deviceDir a <> pluginDir a) by apply snoc_neq.
  assert (Hne4 : p <> deviceDir a) by apply snoc_neq.
  assert (Hne5 : p <> pluginDir a) by apply snoc2_neq.
  assert (Hne6 : p <> storagePath a).
  { unfold p, deviceDir, pluginDir. intros Heq. apply (f_equal length) in Heq.
    rewrite !length_app in Heq. simpl in Heq. lia. }
  (* the plugin directory *)
  assert (exists d1, ensureDir (pluginDir a) a = Ok tt (setFs d1 a)
                     /\ d1 !! storagePath a = Some Fs.Dir
                     /\ d1 !! pluginDir a = Some Fs.Dir
                     /\ d1 !! deviceDir a = fs a !! deviceDir a
                     /\ d1 !! p = fs a !! p
                     /\ (is_Some (fs a !! pluginDir a) -> d1 = fs a))
    as (d1 & E1 & Hsp1 & Hplug1 & Hdev1 & Hp1 & Hsame1).
  { destruct (ensureDir_ensured (pluginDir a) a) as [n Hn | Hn Hpar | Hn Hpar].
    - exists (fs a). rewrite setFs_same. destruct Hplug; [congruence|]. done.
    - exists (<[pluginDir a := Fs.Dir]> (fs a)). split; [done|].
      rewrite lookup_insert_eq. rewrite !lookup_insert_ne by done.
      repeat split; try done; rewrite Hn; by intros [? ?].
    - exfalso. apply Hpar. unfold pluginDir. by rewrite parent_snoc. }
  (* the device directory *)
  assert (exists d2, ensureDir (deviceDir a) (setFs d1 a) = Ok tt (setFs d2 a)
                     /\ d2 !! storagePath a = Some Fs.Dir
                     /\ d2 !! pluginDir a = Some Fs.Dir
                     /\ d2 !! deviceDir a = Some Fs.Dir
                     /\ d2 !! p = fs a !! p
                     /\ (is_Some (fs a !! deviceDir a) -> d2 = d1))
    as (d2 & E2 & Hsp2 & Hplug2 & Hdev2 & Hp2 & Hsame2).
  { destruct (ensureDir_ensured (deviceDir a) (setFs d1 a)) as [n Hn | Hn Hpar | Hn Hpar];
      cbn [fs setFs] in *.
    - exists d1. rewrite Hdev1 in *. destruct Hdev; [congruence|]. done.
    - exists (<[deviceDir a := Fs.Dir]> d1). split; [done|].
      rewrite lookup_insert_eq. rewrite !lookup_insert_ne by done.
      repeat split; try done; rewrite <- Hdev1, Hn; by intros [? ?].
    - exfalso. apply Hpar. unfold deviceDir. by rewrite parent_snoc. }
  (* the default content *)
  assert (exists d3, tryCatchEmpty (liftFs (Fs.writeFileSync p d Fs.WX)) (setFs d2 a)
                     = Ok tt (setFs d3 a)
                     /\ d3 !! storagePath a = Some Fs.Dir
                     /\ d3 !! pluginDir a = Some Fs.Dir
                     /\ d3 !! deviceDir a = Some Fs.Dir
                     /\ d3 !! p = match fs a !! p with
                                  | Some n => Some n
                                  | None => Some (Fs.File d)
                                  end
                     /\ (is_Some (fs a !! p) -> d3 = d2))
    as (d3 & E3 & Hsp3 & Hplug3 & Hdev3 & Hp3 & Hsame3).
  { destruct (writeDefault_defaulted p d (setFs d2 a)) as [n Hn | Hn Hpar | Hn Hpar];
      cbn [fs setFs] in *.
    - exists d2. rewrite <- Hp2, Hn. done.
    - exists (<[p := Fs.File d]> d2). split; [done|].
      rewrite lookup_insert_eq. rewrite <- Hp2, Hn.
      rewrite !lookup_insert_ne by done.
      repeat split; try done; by intros [? ?].
    - exfalso. apply Hpar. unfold p. by rewrite parent_snoc. }
  exists d3. split.
  - unfold getPath, bind, get. cbv beta iota. rewrite E1. cbv beta iota.
    change (deviceDir (setFs d1 a)) with (deviceDir a).
    rewrite E2. cbv beta iota. fold p. by rewrite E3.
  - split; [|repeat split; try done].
    + unfold dirsReady. cbn [fs setFs storagePath].
      change (pluginDir (setFs d3 a)) with (pluginDir a).
      change (deviceDir (setFs d3 a)) with (deviceDir a).
      rewrite Hsp3, Hplug3, Hdev3. auto.
    + intros I1 I2 I3. rewrite (Hsame3 I3), (Hsame2 I2). by apply Hsame1.
Qed.

(** C8: on a disk where the directories are ready and no directory sits in
    the place of the credentials file, [saveCredentials(c)] returns, and
    [getCredentials()] then returns [c.trim()] and leaves the disk alone. *)
Theorem C8_credentials_round_trip (c : string) (a : t) :
  storageReady a ->
  exists a1 a2,
    saveCredentials c a = Ok tt a1
    /\ getCredentials a1 = Ok (JS.trim c) a2
    /\ fs a1 !! credentialsPath a = Some (Fs.File c)
    /\ fs a2 = fs a1.
Proof.
  intros [Hdirs Hfile].
  destruct (getPath_ready "credentials.txt" "" a Hdirs)
    as (d1 & E1 & Hready1 & Hplug1 & Hdev1 & Hp1 & _).
  fold (credentialsPath a) in E1, Hp1.
  set (d2 := <[credentialsPath a := Fs.File c]> d1).
  assert (Hsave : saveCredentials c a = Ok tt (setFs d2 a)).
  { unfold saveCredentials, bind. rewrite E1.
    unfold liftFs, Fs.writeFileSync, Fs.isDir. simpl.
    unfold credentialsPath at 2. rewrite parent_snoc, Hdev1.
    rewrite Hp1. destruct (fs a !! credentialsPath a) as [[|c0]|]; done. }
  assert (Hne1 : credentialsPath a <> storagePath a).
  { unfold credentialsPath, deviceDir, pluginDir. intros Heq.
    apply (f_equal length) in Heq. rewrite !length_app in Heq. simpl in Heq. lia. }
  assert (Hne2 : credentialsPath a <> pluginDir a) by apply snoc2_neq.
  assert (Hne3 : credentialsPath a <> deviceDir a) by apply snoc_neq.
  assert (Hready2 : dirsReady (setFs d2 a)).
  { destruct Hready1 as (Hs & Hpl & Hdv). simpl in *.
    unfold dirsReady, d2. simpl. by rewrite !lookup_insert_ne. }
  destruct (getPath_ready "credentials.txt" "" (setFs d2 a) Hready2)
    as (d3 & E3 & _ & _ & _ & Hp3 & Hsame).
  cbn [fs setFs] in E3, Hp3, Hsame.
  change (deviceDir (setFs d2 a)) with (deviceDir a) in E3, Hp3, Hsame.
  change (pluginDir (setFs d2 a)) with (pluginDir a) in Hsame.
  fold (credentialsPath a) in E3, Hp3, Hsame.
  assert (Hd2 : d2 !! credentialsPath a = Some (Fs.File c))
    by (unfold d2; apply lookup_insert_eq).
  rewrite Hd2 in Hp3.
  assert (Hd3 : d3 = d2).
  { apply Hsame; [| | by rewrite Hd2].
    - unfold d2. rewrite lookup_insert_ne by done. by rewrite Hplug1.
    - unfold d2. rewrite lookup_insert_ne by done. by rewrite Hdev1. }
  exists (setFs d2 a), (addLog (Debug ("Loaded credentials: " +:+ JS.trim c)) (setFs d3 a)).
  split; [exact Hsave|]. split; [|split].
  - unfold getCredentials, bind. rewrite E3. rewrite liftFs_read. simpl.
    rewrite Hp3. reflexivity.
  - exact Hd2.
  - simpl. exact Hd3.
Qed.

End Files.

Lemma C8_credentials_round_trip_witness :
  exists a1 a2,
    saveCredentials "  c0ffee:beef " (Sample.accessory Hap.INACTIVE Sample.freshDisk)
    = Ok tt a1
    /\ getCredentials a1 = Ok "c0ffee:beef" a2
    /\ fs a1 !! (Sample.deviceDir ++ ["credentials.txt"]) = Some (Fs.File "  c0ffee:beef ")
    /\ fs a2 = fs a1.
Proof.
  apply (C8_credentials_round_trip "  c0ffee:beef "
           (Sample.accessory Hap.INACTIVE Sample.freshDisk)).
  repeat split; try (by left); vm_compute; discriminate.
Defined.

End StorageProps.

(** ** The pairing loop *)
Module PairingProps.
Import Pairing.
Local Open Scope list_scope.

Lemma substring_app (pre rest : string) (n : nat) :
  JS.substring (String.length pre + n) (pre +:+ rest) = JS.substring n rest.
Proof. induction pre as [|c pre IH]; simpl; [reflexivity | exact IH]. Qed.

(** C3 (as amended): a line with the PIN prompt is logged and nothing else
    happens, whatever else the line contains: [goOn], [success],
    [backOffSeconds] and the credentials stay as they were. *)
Theorem C3_pin_prompt_sets_nothing (data : string) (s : t) :
  JS.includes PIN_MARKER data = true ->
  onStdout data s = emit (Log ("stdout: " +:+ data)) s
  /\ goOn (onStdout data s) = goOn s
  /\ success (onStdout data s) = success s
  /\ backOffSeconds (onStdout data s) = backOffSeconds s
  /\ credentials (onStdout data s) = credentials s.
Proof.
  intros Hpin. unfold onStdout. rewrite Hpin. by repeat split.
Qed.

Lemma C3_pin_prompt_sets_nothing_witness :
  onStdout "Enter PIN on screen: BackOff=12s" init
  = emit (Log "stdout: Enter PIN on screen: BackOff=12s") init
  /\ goOn (onStdout "Enter PIN on screen: BackOff=12s" init) = goOn init
  /\ success (onStdout "Enter PIN on screen: BackOff=12s" init) = success init
  /\ backOffSeconds (onStdout "Enter PIN on screen: BackOff=12s" init) = backOffSeconds init
  /\ credentials (onStdout "Enter PIN on screen: BackOff=12s" init) = credentials init.
Proof. apply C3_pin_prompt_sets_nothing. reflexivity. Defined.

(** C3, the claim as stated fails: after the PIN prompt [goOn] is still
    [false]. *)
Lemma C3_pin_prompt_counterexample :
  JS.includes PIN_MARKER "Enter PIN on screen:" = true
  /\ goOn (onStdout "Enter PIN on screen:" init) = false.
Proof. split; reflexivity. Qed.

(** The other three classes of lines do set [goOn]. *)
Lemma onStdout_backOff (data : string) (s : t) :
  JS.includes PIN_MARKER data = false ->
  JS.includes BACKOFF_MARKER data = true ->
  onStdout data s
  = setGoOn true (setBackOffSeconds (parseBackOff data) (emit (Log ("stdout: " +:+ data)) s)).
Proof. intros Hpin Hback. unfold onStdout. by rewrite Hpin, Hback. Qed.

Lemma onStdout_error (data : string) (s : t) :
  JS.includes PIN_MARKER data = false ->
  JS.includes BACKOFF_MARKER data = false ->
  JS.includes "ERROR" (JS.toUpperCase data) = true ->
  onStdout data s = setGoOn true (emit (Log ("stdout: " +:+ data)) s).
Proof. intros Hpin Hback Herr. unfold onStdout. by rewrite Hpin, Hback, Herr. Qed.

Lemma onStdout_success_flags (data : string) (s : t) :
  JS.includes PIN_MARKER data = false ->
  JS.includes BACKOFF_MARKER data = false ->
  JS.includes "ERROR" (JS.toUpperCase data) = false ->
  JS.includes SUCCESS_MARKER data = true ->
  goOn (onStdout data s) = true /\ success (onStdout data s) = true.
Proof.
  intros Hpin Hback Herr Hok. unfold onStdout. by rewrite Hpin, Hback, Herr, Hok.
Qed.

(** The seconds parsed from a line whose first [BackOff=] is followed by
    [12s]. *)
Lemma parseBackOff_12 (pre post : string) :
  JS.search BACKOFF_MARKER (pre +:+ "BackOff=12s" +:+ post) = Some (String.length pre) ->
  parseBackOff (pre +:+ "BackOff=12s" +:+ post) = JS.Num 17.
Proof.
  intros Hsearch. unfold parseBackOff, afterBackOff. rewrite Hsearch.
  rewrite substring_app. reflexivity.
Qed.

(** The countdown takes one second per unit and ends at zero. *)
Lemma countDown_waits (fuel : nat) : forall (b : Z) (s : t),
  0 <= b -> fuel = Z.to_nat b ->
  exists ticks,
    trace (countDown fuel b s) = trace s ++ ticks
    /\ waited ticks = 1000 * b
    /\ secondTicks ticks = fuel
    /\ backOffSeconds (countDown fuel b s) = JS.Num 0
    /\ goOn (countDown fuel b s) = goOn s
    /\ success (countDown fuel b s) = success s.
Proof.
  induction fuel as [|fuel IH]; intros b s Hb Hfuel.
  - assert (b = 0) as -> by lia. exists []. simpl. by rewrite app_nil_r.
  - simpl. destruct (Z.gtb_spec b 0) as [Hpos|Hle]; [|lia].
    destruct (IH (b - 1)
                (emit (Delay 1000) (emit (Log (JS.showZ b +:+ " seconds remaining.")) s)))
      as (ticks & Htr & Hw & Hn & Hz & Hg & Hs); [lia | lia |].
    exists (Log (JS.showZ b +:+ " seconds remaining.") :: Delay 1000 :: ticks).
    rewrite Htr, Hz, Hg, Hs. simpl. rewrite <- !app_assoc. simpl.
    rewrite Hw, Hn. repeat split. lia.
Qed.

Lemma backOffWait_waits (name : string) (b : Z) (s : t) :
  0 < b -> backOffSeconds s = JS.Num b ->
  exists warning ticks,
    trace (backOffWait name s) = trace s ++ Log warning :: ticks
    /\ waited ticks = 1000 * b
    /\ secondTicks ticks = Z.to_nat b
    /\ backOffSeconds (backOffWait name s) = JS.Num 0.
Proof.
  intros Hb Hs. unfold backOffWait. rewrite Hs.
  destruct b as [|b|b]; try lia.
  edestruct (countDown_waits (Z.to_nat (Z.pos b)) (Z.pos b)) as (ticks & Htr & Hw & Hn & Hz & _);
    [lia | reflexivity |].
  eexists _, ticks. rewrite Htr, Hz. simpl. rewrite <- app_assoc. simpl.
  repeat split; done.
Qed.

(** C4: a line whose first [BackOff=] is followed by [12s] (and that has no
    PIN prompt) sets [backOffSeconds] to 17; when the process then closes,
    the turn of the loop ends with the listener closed and 17 one-second
    delays, 17000 ms in all, before the next turn can start. *)
Theorem C4_backoff_12s_waits_17s (name htmlInput htmlAfterPost pre post : string) (s : t) :
  let data := pre +:+ "BackOff=12s" +:+ post in
  JS.includes PIN_MARKER data = false ->
  JS.search BACKOFF_MARKER data = Some (String.length pre) ->
  backOffSeconds (onStdout data s) = JS.Num 17
  /\ goOn (onStdout data s) = true
  /\ exists s' before ticks,
       iteration name htmlInput htmlAfterPost [Stdout data; Close] s = Some s'
       /\ trace s' = trace s ++ before ++ ServerClose :: ticks
       /\ secondTicks ticks = 17%nat
       /\ waited ticks = 17000
       /\ backOffSeconds s' = JS.Num 0.
Proof.
  intros data Hpin Hsearch.
  assert (Hback : JS.includes BACKOFF_MARKER data = true).
  { unfold JS.includes. unfold JS.search in Hsearch. by rewrite Hsearch. }
  assert (Hon : forall s0, onStdout data s0
                = setGoOn true (setBackOffSeconds (JS.Num 17)
                                  (emit (Log ("stdout: " +:+ data)) s0))).
  { intros s0. rewrite onStdout_backOff by done. unfold data.
    by rewrite parseBackOff_12. }
  rewrite Hon. split; [reflexivity|]. split; [reflexivity|].
  unfold iteration. simpl waitForProcess. rewrite orb_true_r. rewrite Hon.
  cbn [goOn processClosed setGoOn setBackOffSeconds emit handle onClose setProcessClosed
       negb orb].
  match goal with
  | |- context [backOffWait ?n ?x] =>
      destruct (backOffWait_waits n 17 x) as (warning & ticks & Htr & Hw & Hn & Hz);
        [lia | reflexivity |]
  end.
  eexists.
  exists [Spawn; ServerListen; Delay 100; Log ("stdout: " +:+ data); Delay 100].
  exists (Log warning :: ticks).
  split; [reflexivity|]. rewrite Htr, Hz.
  cbn [trace emit setGoOn setBackOffSeconds setProcessClosed onClose].
  split; [by rewrite <- !app_assoc|].
  split; [exact Hn|]. split; [exact Hw | reflexivity].
Qed.

Lemma C4_backoff_12s_waits_17s_witness :
  backOffSeconds (onStdout "BackOff=12s" init) = JS.Num 17
  /\ goOn (onStdout "BackOff=12s" init) = true
  /\ exists s' before ticks,
       iteration "TV" "" "" [Stdout "BackOff=12s"; Close] init = Some s'
       /\ trace s' = trace init ++ before ++ ServerClose :: ticks
       /\ secondTicks ticks = 17%nat
       /\ waited ticks = 17000
       /\ backOffSeconds s' = JS.Num 0.
Proof.
  apply (C4_backoff_12s_waits_17s "TV" "" "" "" "" init); reflexivity.
Defined.

(** C9: for the body [a=1&b=2&c=3&d=4], in whatever chunks it arrives, the
    PIN is [1234], the characters at index 2 of the four fields, and the
    listener logs it, writes it and a newline to the standard input of the
    pairing process, and answers with the confirmation page. *)
Theorem C9_pin_from_post_body (name htmlInput htmlAfterPost : string)
    (chunks : list string) (s : t) :
  fold_left String.append chunks EmptyString = "a=1&b=2&c=3&d=4" ->
  reconstructPin "a=1&b=2&c=3&d=4"
  = JS.charAt 2 "a=1" +:+ JS.charAt 2 "b=2" +:+ JS.charAt 2 "c=3" +:+ JS.charAt 2 "d=4"
  /\ reconstructPin "a=1&b=2&c=3&d=4" = "1234"
  /\ requestListener name htmlInput htmlAfterPost POST chunks s
     = emit (HttpEnd htmlAfterPost)
         (emit (StdinWrite ("1234" +:+ String "010" EmptyString))
            (emit (Log ("Got PIN 1234 for Apple TV " +:+ name +:+ ".")) s)).
Proof.
  intros Hbody. split; [reflexivity|]. split; [reflexivity|].
  unfold requestListener. rewrite Hbody. reflexivity.
Qed.

Lemma C9_pin_from_post_body_witness :
  reconstructPin "a=1&b=2&c=3&d=4"
  = JS.charAt 2 "a=1" +:+ JS.charAt 2 "b=2" +:+ JS.charAt 2 "c=3" +:+ JS.charAt 2 "d=4"
  /\ reconstructPin "a=1&b=2&c=3&d=4" = "1234"
  /\ requestListener "TV" "<form>" "<p>" POST ["a=1&b="; "2&c=3"; "&d=4"] init
     = emit (HttpEnd "<p>")
         (emit (StdinWrite ("1234" +:+ String "010" EmptyString))
            (emit (Log ("Got PIN 1234 for Apple TV " +:+ "TV" +:+ ".")) init)).
Proof.
  apply (C9_pin_from_post_body "TV" "<form>" "<p>" ["a=1&b="; "2&c=3"; "&d=4"] init).
  reflexivity.
Defined.

(** *** The PIN of any four-field body *)

Lemma append_empty_r (s : string) : s +:+ EmptyString = s.
Proof.
  induction s as [|c s IH]; [reflexivity|].
  change (String c (s +:+ EmptyString) = String c s). by rewrite IH.
Qed.

Lemma append_assoc (a b c : string) : (a +:+ b) +:+ c = a +:+ (b +:+ c).
Proof.
  induction a as [|x a IH]; [reflexivity|].
  change (String x ((a +:+ b) +:+ c) = String x (a +:+ (b +:+ c))). by rewrite IH.
Qed.

Lemma rev_onto_app (acc s : string) : JS.rev_onto acc s = JS.rev_onto EmptyString s +:+ acc.
Proof.
  revert acc. induction s as [|c s IH]; intros acc; simpl; [reflexivity|].
  rewrite (IH (String c acc)), (IH (String c EmptyString)). by rewrite append_assoc.
Qed.

Lemma includes_cons_false (p : string) (c : ascii) (s : string) :
  JS.includes p (String c s) = false ->
  JS.startsWith p (String c s) = false /\ JS.includes p s = false.
Proof.
  unfold JS.includes.
  change (JS.indexOf p (String c s))
    with (if JS.startsWith p (String c s) then Some O else S <$> JS.indexOf p s).
  destruct (JS.startsWith p (String c s)); [discriminate|].
  destruct (JS.indexOf p s); [discriminate | done].
Qed.

Lemma startsWith_amp_false (c : ascii) (f : string) :
  JS.startsWith "&" (String c f) = false -> Ascii.eqb "&" c = false.
Proof. cbn [JS.startsWith]. by destruct (Ascii.eqb "&" c). Qed.

(** Up to the first separator, [split] yields the field before it. *)
Lemma split_go_field (f rest acc : string) :
  JS.includes "&" f = false ->
  JS.split_go "&" O acc (f +:+ String "&" rest)
  = (JS.rev_onto EmptyString acc +:+ f) :: JS.split_go "&" O EmptyString rest.
Proof.
  revert acc. induction f as [|c f IH]; intros acc Hno.
  - simpl. by rewrite append_empty_r.
  - apply includes_cons_false in Hno as [Hstart Hno].
    apply startsWith_amp_false in Hstart.
    change (String c f +:+ String "&" rest) with (String c (f +:+ String "&" rest)).
    cbn [JS.split_go JS.startsWith]. rewrite Hstart, IH by done.
    cbn [JS.rev_onto]. rewrite (rev_onto_app (String c EmptyString) acc).
    by rewrite append_assoc.
Qed.

Lemma split_go_last (f acc : string) :
  JS.includes "&" f = false ->
  JS.split_go "&" O acc f = [JS.rev_onto EmptyString acc +:+ f].
Proof.
  revert acc. induction f as [|c f IH]; intros acc Hno.
  - simpl. by rewrite append_empty_r.
  - apply includes_cons_false in Hno as [Hstart Hno].
    apply startsWith_amp_false in Hstart.
    cbn [JS.split_go JS.startsWith]. rewrite Hstart, IH by done.
    cbn [JS.rev_onto]. rewrite (rev_onto_app (String c EmptyString) acc).
    by rewrite append_assoc.
Qed.

(** The PIN of a body of four fields is made of the characters at index 2
    of the fields. *)
Lemma reconstructPin_four_fields (f1 f2 f3 f4 : string) :
  JS.includes "&" f1 = false -> JS.includes "&" f2 = false ->
  JS.includes "&" f3 = false -> JS.includes "&" f4 = false ->
  reconstructPin (f1 +:+ "&" +:+ f2 +:+ "&" +:+ f3 +:+ "&" +:+ f4)
  = JS.charAt 2 f1 +:+ JS.charAt 2 f2 +:+ JS.charAt 2 f3 +:+ JS.charAt 2 f4.
Proof.
  intros H1 H2 H3 H4. unfold reconstructPin, JS.split.
  repeat match goal with
         | |- context ["&" +:+ ?x] => change ("&" +:+ x) with (String "&" x)
         end.
  rewrite !split_go_field, split_go_last by done. reflexivity.
Qed.

(** A body with fewer fields leaves [undefined] in the PIN. *)
Example reconstructPin_short : reconstructPin "a=1&b=2" = "12undefinedundefined".
Proof. reflexivity. Qed.

(** The seconds are read after the first [BackOff=] of the line. *)
Example parseBackOff_first : parseBackOff "BackOff=3s, then BackOff=12s" = JS.Num 8.
Proof. reflexivity. Qed.

(** Without digits after the marker the seconds are [NaN]: the warning is
    logged and the countdown does not run. *)
Example backOff_nan :
  backOffSeconds (onStdout "BackOff=soon" init) = JS.NaN
  /\ waited (trace (backOffWait "TV" (onStdout "BackOff=soon" init))) = 0.
Proof. split; reflexivity. Qed.

End PairingProps.

(** ** The control channel *)
Module RocketRemoteProps.
Import RocketRemote.
Local Open Scope list_scope.

Lemma run_cons (o : Op) (ops : list Op) (s : t) : run (o :: ops) s = run ops (step s o).
Proof. reflexivity. Qed.

Lemma run_app (ops1 ops2 : list Op) (s : t) : run (ops1 ++ ops2) s = run ops2 (run ops1 s).
Proof. apply fold_left_app. Qed.

Lemma open_create : open [] create.
Proof. by split. Qed.

Lemma filter_isInvoke_snoc (l : list Effect) (e : Effect) :
  isInvoke e = false -> List.filter isInvoke (l ++ [e]) = List.filter isInvoke l.
Proof.
  intros He. rewrite List.filter_app. simpl. rewrite He. apply app_nil_r.
Qed.

Lemma open_step (registered : list Op) (s : t) (o : Op) :
  open registered s -> isExit o = false ->
  open (registered ++ List.filter isOnClose [o]) (step s o).
Proof.
  intros [Hp Hh Hc Hl Hf Hq] Hne. destruct o as [f | cmd | |]; try discriminate; simpl.
  - unfold onClose. simpl. rewrite Hp. split; simpl; try done.
    + rewrite length_app. simpl. lia.
    + by rewrite last_snoc.
  - rewrite app_nil_r. unfold sendCommand, stdinWrite. simpl. rewrite Hp.
    split; simpl; try done. by rewrite !filter_isInvoke_snoc.
  - rewrite app_nil_r, Hh. unfold heartbeat, stdinWrite. simpl. rewrite Hp.
    split; simpl; try done. by rewrite !filter_isInvoke_snoc.
Qed.

Lemma open_run (ops : list Op) : forall (registered : list Op) (s : t),
  open registered s -> forallb (fun o => negb (isExit o)) ops = true ->
  open (registered ++ List.filter isOnClose ops) (run ops s).
Proof.
  induction ops as [|o ops IH]; intros registered s Hopen Hall.
  - simpl. by rewrite app_nil_r.
  - simpl in Hall. apply andb_prop in Hall as [Ho Hops].
    apply negb_true_iff in Ho.
    rewrite run_cons.
    replace (registered ++ List.filter isOnClose (o :: ops))
      with ((registered ++ List.filter isOnClose [o]) ++ List.filter isOnClose ops).
    + apply IH; [by apply open_step | done].
    + rewrite <- app_assoc. f_equal. simpl. by destruct (isOnClose o).
Qed.

Lemma shut_step (s : t) (o : Op) :
  shut s ->
  shut (step s o)
  /\ List.filter isInvoke (trace (step s o)) = List.filter isInvoke (trace s)
  /\ exists added, trace (step s o) = trace s ++ added
       /\ List.filter isStdinWrite added = commandWrites [o]
       /\ LogDebug "heartbeat" ∉ added.
Proof.
  intros [Hh Hc Hp]. destruct o as [f | cmd | |]; simpl.
  - unfold onClose. simpl. rewrite Hp. repeat split; try done.
    exists []. rewrite app_nil_r. repeat split. apply not_elem_of_nil.
  - unfold sendCommand, stdinWrite. simpl. rewrite Hp. repeat split; try done.
    + simpl. by rewrite !filter_isInvoke_snoc.
    + exists [LogInfo cmd; StdinWrite (cmd +:+ newline)]. simpl.
      rewrite <- app_assoc. repeat split.
      intros Hin. apply elem_of_cons in Hin as [Hin|Hin]; [discriminate|].
      apply elem_of_cons in Hin as [Hin|Hin]; [discriminate|].
      by apply not_elem_of_nil in Hin.
  - rewrite Hh. repeat split; try done.
    exists []. rewrite app_nil_r. repeat split. apply not_elem_of_nil.
  - rewrite Hc. repeat split; try done.
    exists []. rewrite app_nil_r. repeat split. apply not_elem_of_nil.
Qed.

Lemma commandWrites_cons (o : Op) (ops : list Op) :
  commandWrites (o :: ops) = commandWrites [o] ++ commandWrites ops.
Proof. by destruct o. Qed.

Lemma shut_run (ops : list Op) : forall (s : t),
  shut s ->
  shut (run ops s)
  /\ List.filter isInvoke (trace (run ops s)) = List.filter isInvoke (trace s)
  /\ exists added, trace (run ops s) = trace s ++ added
       /\ List.filter isStdinWrite added = commandWrites ops
       /\ LogDebug "heartbeat" ∉ added.
Proof.
  induction ops as [|o ops IH]; intros s Hshut.
  - simpl. split; [done|]. split; [done|].
    exists []. rewrite app_nil_r. repeat split. apply not_elem_of_nil.
  - rewrite run_cons.
    destruct (shut_step s o Hshut) as (Hshut1 & Hinv1 & added1 & Htr1 & Hw1 & Hhb1).
    destruct (IH _ Hshut1) as (Hshut2 & Hinv2 & added2 & Htr2 & Hw2 & Hhb2).
    split; [done|]. split; [congruence|].
    exists (added1 ++ added2). split; [by rewrite Htr2, Htr1, <- List.app_assoc|].
    split.
    + rewrite List.filter_app, Hw1, Hw2. symmetry. apply commandWrites_cons.
    + intros Hin. apply elem_of_app in Hin as [Hin|Hin]; tauto.
Qed.

(** The close itself, with one listener registered. *)
Lemma exit_once (f : Callback) (s : t) :
  open [OnClose f] s ->
  shut (step s Exit)
  /\ List.filter isInvoke (trace (step s Exit)) = [Invoke f]
  /\ ClearInterval ∈ trace (step s Exit).
Proof.
  intros [Hp Hh Hc Hl Hf Hq]. destruct s as [p c h n cl tr].
  simpl in Hp, Hh, Hc, Hl, Hf, Hq. subst p c h n cl.
  cbn. split; [by split|]. split.
  - rewrite !List.filter_app, Hq. reflexivity.
  - rewrite !elem_of_app, !list_elem_of_singleton. tauto.
Qed.

(** C6: when [onClose(f)] was called once before the process closes, the
    close invokes [f], and that is the only invocation of a callback in
    the whole life of the channel; the close clears the heartbeat timer,
    which stays cleared; and after the close nothing is written to the
    standard input of the process but the commands that [sendCommand] is
    asked to send: no heartbeat is logged or written. *)
Theorem C6_close_callback_once_no_heartbeat_after (before later : list Op) (f : Callback) :
  forallb (fun o => negb (isExit o)) before = true ->
  List.filter isOnClose before = [OnClose f] ->
  let atExit := step (run before create) Exit in
  let final := run later atExit in
  List.filter isInvoke (trace final) = [Invoke f]
  /\ ClearInterval ∈ trace atExit
  /\ heartbeatInterval atExit = false
  /\ heartbeatInterval final = false
  /\ exists afterExit,
       trace final = trace atExit ++ afterExit
       /\ List.filter isStdinWrite afterExit = commandWrites later
       /\ LogDebug "heartbeat" ∉ afterExit.
Proof.
  intros Hnoexit Hone atExit final.
  pose proof (open_run before [] create open_create Hnoexit) as Hopen.
  simpl in Hopen. rewrite Hone in Hopen.
  destruct (exit_once f _ Hopen) as (Hshut & Hinv & Hclear).
  destruct (shut_run later _ Hshut) as (Hshut' & Hinv' & added & Htr & Hw & Hhb).
  fold atExit in Hshut, Hinv, Hclear, Hshut', Hinv', Htr. fold final in Hshut', Hinv', Htr.
  split; [congruence|]. split; [exact Hclear|].
  split; [apply Hshut|]. split; [apply Hshut'|].
  by exists added.
Qed.

Lemma C6_close_callback_once_no_heartbeat_after_witness :
  let before := [Tick; SendCommand "up"; OnClose 7%nat; Tick] in
  let later := [Tick; SendCommand "menu"; Exit; OnClose 8%nat; Tick] in
  let atExit := step (run before create) Exit in
  let final := run later atExit in
  List.filter isInvoke (trace final) = [Invoke 7%nat]
  /\ ClearInterval ∈ trace atExit
  /\ heartbeatInterval atExit = false
  /\ heartbeatInterval final = false
  /\ exists afterExit,
       trace final = trace atExit ++ afterExit
       /\ List.filter isStdinWrite afterExit = commandWrites later
       /\ LogDebug "heartbeat" ∉ afterExit.
Proof.
  apply (C6_close_callback_once_no_heartbeat_after
           [Tick; SendCommand "up"; OnClose 7%nat; Tick]
           [Tick; SendCommand "menu"; Exit; OnClose 8%nat; Tick] 7%nat); reflexivity.
Defined.

(** Registered twice, the callback stored last is invoked twice. *)
Example two_registrations_fire_twice :
  List.filter isInvoke (trace (run [OnClose 1%nat; OnClose 2%nat; Exit] create))
  = [Invoke 2%nat; Invoke 2%nat].
Proof. reflexivity. Qed.

(** With no callback registered nothing clears the timer: the heartbeat is
    still written after the close. *)
Example no_registration_heartbeat_goes_on :
  List.filter isStdinWrite (trace (run [Exit; Tick] create))
  = [StdinWrite ("app_list" +:+ newline)].
Proof. reflexivity. Qed.

End RocketRemoteProps.

(** ** The environment check *)
Module PythonCheckerProps.
Import PythonChecker.
Local Open Scope list_scope.

Section Idempotence.
Context `{Host}.

Lemma run_query (c : t) (exe : string) (args : list string) :
  (runCommand exe args (w c)).2 = w c ->
  run exe args c = Returns (out c exe args) (addTrace [Run exe args] c).
Proof.
  unfold run, out. destruct (runCommand exe args (w c)) as [o w'] eqn:E.
  simpl. intros ->. by destruct c.
Qed.

Lemma allPinned_spec (freeze requirements : gmap string (option string)) :
  allPinned freeze requirements = true
  <-> forall pkg v, requirements !! pkg = Some v -> prop freeze pkg = v.
Proof.
  unfold allPinned. rewrite forallb_forall. split.
  - intros Hall pkg v Hpkg.
    assert (Hin : In (pkg, v) (map_to_list requirements)).
    { apply list_elem_of_In. by apply elem_of_map_to_list. }
    specialize (Hall _ Hin). simpl in Hall. by apply bool_decide_eq_true in Hall.
  - intros Hall [pkg v] Hin. apply bool_decide_eq_true. simpl. apply Hall.
    apply elem_of_map_to_list. by apply list_elem_of_In.
Qed.

Lemma length_append (a b : string) :
  String.length (a +:+ b) = (String.length a + String.length b)%nat.
Proof. induction a as [|x a IH]; simpl; [reflexivity | by rewrite IH]. Qed.

Lemma join_not_install (a : string) : join a "determinePythonHome.py" <> "install".
Proof.
  intros Heq. apply (f_equal String.length) in Heq. unfold join in Heq.
  rewrite !length_append in Heq. simpl in Heq. lia.
Qed.

(** A command is not among the mutating ones when its first argument is not
    [install] and it does not have the four arguments of the venv creation. *)
Lemma query_not_mutating (c : t) (exe : string) (args : list string) :
  length args <> 4%nat -> args !! 0%nat <> Some "install" ->
  mutating c (Run exe args) = false.
Proof.
  intros Hlen Hfirst. unfold mutating, isMutatingCommand. apply orb_false_iff. split.
  - apply bool_decide_eq_false. intros [_ ->]. by apply Hlen.
  - apply andb_false_iff. right. by apply bool_decide_eq_false.
Qed.

Lemma alike_refl (c : t) : alike c c.
Proof. by split. Qed.

Lemma alike_addTrace (c c' : t) (l : list Action) : alike c c' -> alike c (addTrace l c').
Proof. by intros []. Qed.

Lemma alike_settle (c c0 c' : t) : alike c c' -> alike c (settle c0 c').
Proof. intros []. unfold settle. by destruct (compatible c0). Qed.

Lemma out_alike (c c' : t) (exe : string) (args : list string) :
  alike c c' -> out c' exe args = out c exe args.
Proof. intros Ha. unfold out. by rewrite (same_w _ _ Ha). Qed.

Lemma addTrace_addTrace (l1 l2 : list Action) (c : t) :
  addTrace l2 (addTrace l1 c) = addTrace (l1 ++ l2) c.
Proof. unfold addTrace. simpl. by rewrite <- app_assoc. Qed.

Lemma addTrace_settle (l : list Action) (c0 c : t) :
  settle c0 (addTrace l c) = addTrace l (settle c0 c).
Proof. unfold settle. by destruct (compatible c0). Qed.

Section Steps.
Variable c : t.
Hypothesis Hsat : satisfied c.
Variable c' : t.
Hypothesis Halike : alike c c'.

(** A query asked at [c'] gets the answer it gets at [c] and only adds to
    the trace. *)
Lemma query_step (exe : string) (args : list string) :
  length args <> 4%nat -> args !! 0%nat <> Some "install" ->
  run exe args c' = Returns (out c exe args) (addTrace [Run exe args] c').
Proof.
  intros Hlen Hfirst. rewrite run_query.
  - by rewrite (out_alike c c').
  - rewrite (same_w _ _ Halike).
    apply (sat_queries _ Hsat). by apply query_not_mutating.
Qed.

Lemma query_step_at (d : t) (exe : string) (args : list string) :
  alike c d ->
  length args <> 4%nat -> args !! 0%nat <> Some "install" ->
  run exe args d = Returns (out c exe args) (addTrace [Run exe args] d).
Proof.
  intros Hd Hlen Hfirst. rewrite run_query.
  - by rewrite (out_alike c d).
  - rewrite (same_w _ _ Hd).
    apply (sat_queries _ Hsat). by apply query_not_mutating.
Qed.

Lemma ensurePluginDir_step : ensurePluginDir c' = Returns tt c'.
Proof.
  unfold ensurePluginDir, exists_, cbind, ask, cret. cbv beta iota.
  rewrite (same_w _ _ Halike), (same_pluginDirPath _ _ Halike).
  by rewrite (sat_pluginDir _ Hsat).
Qed.

Lemma openSSL_step :
  openSSL c' = Returns tt (settle c (addTrace [Run "openssl" ["version"]] c')).
Proof.
  unfold openSSL, cbind. rewrite query_step by (simpl; congruence).
  unfold settle, compatible.
  destruct (matchVersion (out c "openssl" ["version"])) as [r0|]; [|reflexivity].
  by destruct (negb (compareVersions MIN_OPENSSL_VERSION r0 =? 1)).
Qed.

Lemma ensurePythonVersion_step :
  supportedPythonVersions c' = supportedPythonVersions (settle c c) ->
  ensurePythonVersion c'
  = Returns tt (addTrace [Run (pythonExecutable c) ["--version"]] c').
Proof.
  intros Hsup. unfold ensurePythonVersion, getSystemPythonVersion, cbind, ask, cret.
  cbv beta iota. rewrite query_step by (simpl; congruence). cbv beta iota.
  rewrite (same_pythonExecutable _ _ Halike).
  change (supportedPythonVersions (addTrace _ c')) with (supportedPythonVersions c').
  rewrite Hsup. fold (systemPythonVersion c). by rewrite (sat_python _ Hsat).
Qed.

Lemma isVenvCreated_step : isVenvCreated c' = Returns true c'.
Proof.
  pose proof (sat_venv _ Hsat) as Hv. unfold venvFiles in Hv.
  apply andb_prop in Hv as [Hv Hpy]. apply andb_prop in Hv as [Hpip Hcfg].
  rewrite <- (same_w _ _ Halike) in Hpip, Hcfg, Hpy.
  rewrite <- (same_venvPipExecutable _ _ Halike) in Hpip.
  rewrite <- (same_venvConfigPath _ _ Halike) in Hcfg.
  rewrite <- (same_venvPythonExecutable _ _ Halike) in Hpy.
  unfold isVenvCreated, exists_, cbind, ask, cret. cbv beta iota.
  rewrite Hpip. cbv beta iota. rewrite Hcfg. cbv beta iota. by rewrite Hpy.
Qed.

Lemma ensureVenvCreated_step : ensureVenvCreated false c' = Returns tt c'.
Proof. unfold ensureVenvCreated, cbind. by rewrite isVenvCreated_step. Qed.

Lemma ensureVenvUsesCorrectPythonHome_step :
  ensureVenvUsesCorrectPythonHome c'
  = Returns tt
      (addTrace [Run (venvPythonExecutable c) [join (dirname c) "determinePythonHome.py"];
                 Run (pythonExecutable c) [join (dirname c) "determinePythonHome.py"]] c').
Proof.
  assert (Hq : [join (dirname c) "determinePythonHome.py"] !! 0%nat <> Some "install").
  { intros [= Heq]. by apply join_not_install in Heq. }
  unfold ensureVenvUsesCorrectPythonHome, getPythonHome, cbind, ask, cret.
  cbv beta iota.
  rewrite (same_venvPythonExecutable _ _ Halike), (same_pythonExecutable _ _ Halike),
    (same_dirname _ _ Halike).
  rewrite query_step by (simpl; auto). cbv beta iota.
  change (dirname (addTrace _ c')) with (dirname c').
  rewrite (same_dirname _ _ Halike).
  rewrite (query_step_at (addTrace _ c')) by (simpl; auto using alike_addTrace).
  cbv beta iota.
  fold (pythonHome c (venvPythonExecutable c)). fold (pythonHome c (pythonExecutable c)).
  rewrite (sat_home _ Hsat), String.eqb_refl. by rewrite addTrace_addTrace.
Qed.

Lemma ensureVenvPipUpToDate_step :
  ensureVenvPipUpToDate c'
  = Returns tt (addTrace [Run (venvPipExecutable c) ["--version"]; HttpGet PYPI_URL] c').
Proof.
  unfold ensureVenvPipUpToDate, getVenvPipVersion, getMostRecentPipVersion, cbind, ask, cret.
  cbv beta iota. rewrite (same_venvPipExecutable _ _ Halike).
  rewrite query_step by (simpl; congruence). cbv beta iota.
  change (w (addTrace _ c')) with (w c'). rewrite (same_w _ _ Halike).
  rewrite (sat_pip _ Hsat). simpl default. fold (venvPipVersion c).
  rewrite String.eqb_refl. unfold act, addTrace. simpl. by rewrite <- app_assoc.
Qed.

Lemma ensureVenvRequirementsSatisfied_step :
  requirementsPath c' = requirementsPath (settle c c) ->
  ensureVenvRequirementsSatisfied c'
  = Returns tt (addTrace [Run (venvPipExecutable c) ["freeze"]] c').
Proof.
  intros Hreq.
  unfold ensureVenvRequirementsSatisfied, areRequirementsSatisfied, cbind, ask, cret.
  cbv beta iota. rewrite (same_venvPipExecutable _ _ Halike).
  rewrite query_step by (simpl; congruence). cbv beta iota.
  change (w (addTrace _ c')) with (w c').
  change (requirementsPath (addTrace _ c')) with (requirementsPath c').
  rewrite (same_w _ _ Halike), Hreq.
  fold (installed c). fold (pinned c).
  replace (allPinned (installed c) (pinned c)) with true; [reflexivity|].
  symmetry. apply allPinned_spec, (sat_pinned _ Hsat).
Qed.

End Steps.

(** One run in a satisfied environment: it returns, having asked its
    queries and made the switch of [openSSL()], and nothing else. *)
Lemma single_run (c : t) :
  satisfied c ->
  allInOne false c = Returns tt (addTrace (queries c) (settle c c)).
Proof.
  intros Hsat. unfold allInOne.
  unfold cbind at 1. rewrite (ensurePluginDir_step c Hsat c (alike_refl c)).
  unfold cbind at 1. rewrite (openSSL_step c Hsat c (alike_refl c)).
  rewrite addTrace_settle.
  assert (Hbase : alike c (settle c c)) by apply alike_settle, alike_refl.
  unfold cbind at 1.
  rewrite (ensurePythonVersion_step c Hsat) by (auto using alike_addTrace).
  rewrite addTrace_addTrace.
  unfold cbind at 1.
  rewrite (ensureVenvCreated_step c Hsat) by (auto using alike_addTrace).
  unfold cbind at 1.
  rewrite (ensureVenvUsesCorrectPythonHome_step c Hsat) by (auto using alike_addTrace).
  rewrite addTrace_addTrace.
  unfold cbind at 1.
  rewrite (ensureVenvPipUpToDate_step c Hsat) by (auto using alike_addTrace).
  rewrite addTrace_addTrace.
  rewrite (ensureVenvRequirementsSatisfied_step c Hsat) by (auto using alike_addTrace).
  by rewrite addTrace_addTrace.
Qed.

Lemma queries_not_mutating (c : t) : List.filter (mutating c) (queries c) = [].
Proof.
  assert (Hq : [join (dirname c) "determinePythonHome.py"] !! 0%nat <> Some "install").
  { intros [= Heq]. by apply join_not_install in Heq. }
  unfold queries. cbn [List.filter].
  rewrite !query_not_mutating by (first [exact Hq | simpl; congruence]). reflexivity.
Qed.

Lemma filter_not_312_twice (l : list string) :
  filter (fun e => e ≠ "3.12") (filter (fun e => e ≠ "3.12") l)
  = filter (fun e => e ≠ "3.12") l.
Proof.
  induction l as [|x l IH]; [reflexivity|].
  rewrite (filter_cons _ x l). case_decide as Hx; [|exact IH].
  rewrite filter_cons. rewrite decide_True by done. by rewrite IH.
Qed.

(** The state a run ends in is satisfied again: a second run sees the same
    world, and the switch of [openSSL()], made twice, is the switch made
    once. *)
Lemma satisfied_next (c : t) (l : list Action) :
  satisfied c -> satisfied (addTrace l (settle c c)).
Proof.
  intros [Hq Hpd Hv Hpy Hh Hpip Hpin].
  destruct c as [dir plug py req cfg venv pip vpy sup w0 tr].
  unfold settle, compatible, out in *. cbn [w] in *.
  destruct (match matchVersion (runCommand "openssl" ["version"] w0).1 with
            | Some r0 => negb (compareVersions MIN_OPENSSL_VERSION r0 =? 1)
            | None => false
            end) eqn:Hc.
  - split; try assumption.
    + unfold settle, compatible, out. cbn. by rewrite Hc.
    + unfold pinned, settle, compatible, out in *. cbn in *. rewrite Hc in *. exact Hpin.
  - split; try assumption.
    + unfold settle, compatible, out. cbn. rewrite Hc. cbn.
      rewrite filter_not_312_twice. exact Hpy.
    + unfold pinned, settle, compatible, out in *. cbn in *. rewrite Hc in *. exact Hpin.
Qed.

(** C7: in a satisfied environment, [allInOne()] returns after its queries
    alone, none of which creates the venv or installs anything; the world
    is unchanged, and a second run right after does the same. *)
Theorem C7_satisfied_environment_idempotent (c : t) :
  satisfied c ->
  exists c1 c2,
    allInOne false c = Returns tt c1
    /\ allInOne false c1 = Returns tt c2
    /\ w c1 = w c /\ w c2 = w c
    /\ trace c1 = trace c ++ queries c
    /\ trace c2 = trace c1 ++ queries c
    /\ List.filter (mutating c) (queries c) = [].
Proof.
  intros Hsat.
  pose proof (satisfied_next c (queries c) Hsat) as Hsat1.
  assert (Hw : forall x l, w (addTrace l (settle x x)) = w x).
  { intros x l. unfold settle. by destruct (compatible x). }
  assert (Htr : forall x l, trace (addTrace l (settle x x)) = trace x ++ l).
  { intros x l. unfold settle. by destruct (compatible x). }
  assert (Hq1 : queries (addTrace (queries c) (settle c c)) = queries c).
  { unfold settle. by destruct (compatible c). }
  exists (addTrace (queries c) (settle c c)).
  eexists. split; [by apply single_run|]. split; [by apply single_run|].
  split; [apply Hw|]. split; [by rewrite !Hw|].
  split; [apply Htr|]. split; [|apply queries_not_mutating].
  by rewrite Htr, Hq1.
Qed.

End Idempotence.

Lemma C7_satisfied_environment_idempotent_witness :
  exists c1 c2,
    allInOne false Sample.sampleChecker = Returns tt c1
    /\ allInOne false c1 = Returns tt c2
    /\ w c1 = w Sample.sampleChecker /\ w c2 = w Sample.sampleChecker
    /\ trace c1 = trace Sample.sampleChecker ++ queries Sample.sampleChecker
    /\ trace c2 = trace c1 ++ queries Sample.sampleChecker
    /\ List.filter (mutating Sample.sampleChecker) (queries Sample.sampleChecker) = [].
Proof.
  apply (C7_satisfied_environment_idempotent Sample.sampleChecker).
  split.
  - intros exe args Hquery.
    change (isMutatingCommand "python3" Sample.venvDir Sample.pip3 exe args = false)
      in Hquery.
    change ((if isMutatingCommand "python3" Sample.venvDir Sample.pip3 exe args
             then ("",
                   if bool_decide (args !! 0%nat = Some "-m")
                   then Sample.mkMachine true "20.0" ""
                   else if bool_decide (args !! 1%nat = Some "--upgrade")
                        then Sample.mkMachine (Sample.hasVenv (w Sample.sampleChecker))
                               "23.3.1" (Sample.frozen (w Sample.sampleChecker))
                        else Sample.mkMachine (Sample.hasVenv (w Sample.sampleChecker))
                               (Sample.pipVersion (w Sample.sampleChecker))
                               Sample.requirementsText)
             else (Sample.answer exe args (w Sample.sampleChecker),
                   w Sample.sampleChecker)).2 = w Sample.sampleChecker).
    rewrite Hquery. reflexivity.
  - vm_compute. reflexivity.
  - vm_compute. reflexivity.
  - vm_compute. reflexivity.
  - vm_compute. reflexivity.
  - vm_compute. reflexivity.
  - apply allPinned_spec. vm_compute. reflexivity.
Defined.

End PythonCheckerProps.

(** ** The power-on command *)
Module PowerOnProps.
Import Accessory PowerOn.
Local Open Scope list_scope.

Section Wait.
Context `{Json}.
Variable getState : nat -> option string * option string.

(** The loop while the device has nothing to report. *)
Lemma waitForStates_round (fuel k : nat) (i : Z) (a : t) :
  i <= WAIT_MAX_FOR_STATES * 1000 ->
  reported (getState k) = false ->
  waitForStates getState (S fuel) k i a
  = waitForStates getState fuel (S k) (i + STEPS)
      (addLog (Debug ("Waiting until mediaType and deviceState is reported: "
                        +:+ JS.showZ i +:+ "ms"))
         (addEffect (Delay STEPS) (addEffect DeviceGetState a))).
Proof.
  intros Hi Hnull. cbn [waitForStates].
  replace (i <=? WAIT_MAX_FOR_STATES * 1000) with true by (symmetry; by apply Z.leb_le).
  unfold bind at 1. unfold effect at 1. unfold modify at 1.
  destruct (getState k) as [[mt|] [ds|]]; try discriminate; reflexivity.
Qed.

(** The loop when the device reports. *)
Lemma waitForStates_report (fuel k : nat) (i : Z) (a : t) (mt ds : string) :
  i <= WAIT_MAX_FOR_STATES * 1000 ->
  getState k = (Some mt, Some ds) ->
  exists a',
    waitForStates getState (S fuel) k i a = Ok tt a'
    /\ effects a' = effects a ++ [DeviceGetState]
    /\ mediaTypeServices a' = setMotion mt true (mediaTypeServices a)
    /\ deviceStateServices a' = setMotion ds true (deviceStateServices a)
    /\ service a' = service a
    /\ turningOn a' = turningOn a
    /\ lastOnEvent a' = lastOnEvent a
    /\ offline a' = offline a
    /\ fs a' = fs a.
Proof.
  intros Hi Hrep. cbn [waitForStates].
  replace (i <=? WAIT_MAX_FOR_STATES * 1000) with true by (symmetry; by apply Z.leb_le).
  rewrite Hrep. destruct a as [sp id sv dss mts ac cc sc mc bo off ton last disk lg eff].
  unfold bind, effect, modify, get, logInfo, ret, setMotion. cbn.
  destruct (mts !! mt) eqn:Hm, (dss !! ds) eqn:Hd; cbn; rewrite ?Hm, ?Hd; cbn;
    rewrite ?Hd; eexists; (split; [reflexivity|]); by repeat split.
Qed.

Lemma effects_round (i : Z) (a : t) :
  effects (addLog (Debug ("Waiting until mediaType and deviceState is reported: "
                            +:+ JS.showZ i +:+ "ms"))
             (addEffect (Delay STEPS) (addEffect DeviceGetState a)))
  = effects a ++ [DeviceGetState; Delay STEPS].
Proof. cbn. by rewrite <- app_assoc. Qed.

Lemma waitForStates_found (mt ds : string) (n : nat) : forall (fuel k : nat) (i : Z) (a : t),
  (n < fuel)%nat ->
  i + STEPS * Z.of_nat n <= WAIT_MAX_FOR_STATES * 1000 ->
  0 <= i ->
  (forall j, (j < n)%nat -> reported (getState (k + j)) = false) ->
  getState (k + n) = (Some mt, Some ds) ->
  exists a',
    waitForStates getState fuel k i a = Ok tt a'
    /\ effects a' = effects a ++ rounds n ++ [DeviceGetState]
    /\ mediaTypeServices a' = setMotion mt true (mediaTypeServices a)
    /\ deviceStateServices a' = setMotion ds true (deviceStateServices a)
    /\ service a' = service a
    /\ turningOn a' = turningOn a
    /\ lastOnEvent a' = lastOnEvent a
    /\ offline a' = offline a
    /\ fs a' = fs a.
Proof.
  unfold STEPS, WAIT_MAX_FOR_STATES.
  induction n as [|n IH]; intros fuel k i a Hfuel Hi Hpos Hnull Hrep.
  - destruct fuel as [|fuel]; [lia|]. rewrite Nat.add_0_r in Hrep.
    apply waitForStates_report; [unfold WAIT_MAX_FOR_STATES; lia | exact Hrep].
  - destruct fuel as [|fuel]; [lia|].
    rewrite waitForStates_round.
    + edestruct (IH fuel (S k) (i + 250)) as (a' & Hrun & Heff & Hrest).
      * lia.
      * lia.
      * lia.
      * intros j Hj. rewrite Nat.add_succ_comm. apply Hnull. lia.
      * rewrite Nat.add_succ_comm. exact Hrep.
      * exists a'. split; [exact Hrun|]. split; [|exact Hrest].
        rewrite Heff, effects_round. cbn [rounds]. by rewrite <- app_assoc.
    + unfold WAIT_MAX_FOR_STATES. lia.
    + specialize (Hnull O). rewrite Nat.add_0_r in Hnull. apply Hnull. lia.
Qed.


(** What [handleActiveSet] does around the wait. *)
Lemma handleActiveSet_on (now : Z) (a : t) :
  turningOn a = false ->
  handleActiveSet now getState Hap.ACTIVE a
  = bind (waitForStates getState maxPolls O STEPS) (fun _ => modify (setTurningOn false))
      (addEffect DeviceTurnOn (addLog (Info "Turning on")
         (setLastOnEvent now (setTurningOn true a)))).
Proof.
  intros Hoff. unfold handleActiveSet, bind at 1 2, get. rewrite Hoff. reflexivity.
Qed.

(** X1: a power-on command, given when none is in progress, records the
    time, calls [turnOn()], and polls the device every 250 ms until it
    reports both its media type and its device state; if that happens at
    poll [n] (fewer than 120 polls before it), the two sensors of the
    reported values are lit if they exist, and the command ends with
    [turningOn] cleared, without writing the Television service. *)
Theorem X1_power_on_until_reported (now : Z) (n : nat) (mt ds : string) (a : t) :
  turningOn a = false ->
  (n < maxPolls)%nat ->
  (forall j, (j < n)%nat -> reported (getState j) = false) ->
  getState n = (Some mt, Some ds) ->
  exists a',
    handleActiveSet now getState Hap.ACTIVE a = Ok tt a'
    /\ newEffects a (Ok tt a') = DeviceTurnOn :: rounds n ++ [DeviceGetState]
    /\ turningOn a' = false
    /\ lastOnEvent a' = now
    /\ mediaTypeServices a' = setMotion mt true (mediaTypeServices a)
    /\ deviceStateServices a' = setMotion ds true (deviceStateServices a)
    /\ service a' = service a.
Proof.
  intros Hoff Hn Hnull Hrep. rewrite handleActiveSet_on by done.
  edestruct (waitForStates_found mt ds n maxPolls O STEPS)
    as (a1 & Hrun & Heff & Hmts & Hdss & Hsv & _ & Hlast & _).
  - exact Hn.
  - unfold maxPolls, STEPS, WAIT_MAX_FOR_STATES in *.
    change (Z.to_nat (30 * 1000 / 250)) with 120%nat in Hn. lia.
  - unfold STEPS. lia.
  - exact Hnull.
  - exact Hrep.
  - unfold bind. rewrite Hrun. unfold modify.
    exists (setTurningOn false a1). split; [reflexivity|].
    cbn [turningOn lastOnEvent mediaTypeServices deviceStateServices service setTurningOn].
    rewrite Hmts, Hdss, Hsv, Hlast. repeat split.
    unfold newEffects. cbn [stateOf effects setTurningOn]. rewrite Heff. cbn.
    rewrite <- app_assoc. by rewrite drop_app_length.
Qed.


(** X3: a power-on command that arrives while another is in progress, and
    a value that is neither ACTIVE nor INACTIVE, change nothing: no second
    [turnOn()], no [turnOff()]. *)
Theorem X3_power_command_ignored (now : Z) (state : Z) (a : t) :
  (state = Hap.ACTIVE /\ turningOn a = true)
  \/ (state <> Hap.ACTIVE /\ state <> Hap.INACTIVE) ->
  handleActiveSet now getState state a = Ok tt a.
Proof.
  intros Hcase. unfold handleActiveSet, bind, get. cbv beta iota.
  destruct Hcase as [[-> Hon] | [Hna Hni]].
  - rewrite Hon. reflexivity.
  - apply Z.eqb_neq in Hna, Hni. by rewrite Hna, Hni.
Qed.

End Wait.

Lemma X1_power_on_until_reported_witness :
  let a := Sample.accessory Hap.INACTIVE Sample.pairedDisk in
  let answers k := match k with
                   | O => (None, Some "idle")
                   | 1%nat => (None, None)
                   | _ => (Some "video", Some "paused")
                   end in
  exists a',
    handleActiveSet 20000 answers Hap.ACTIVE a = Ok tt a'
    /\ newEffects a (Ok tt a') = DeviceTurnOn :: rounds 2 ++ [DeviceGetState]
    /\ turningOn a' = false
    /\ lastOnEvent a' = 20000
    /\ mediaTypeServices a' = setMotion "video" true (mediaTypeServices a)
    /\ deviceStateServices a' = setMotion "paused" true (deviceStateServices a)
    /\ service a' = service a.
Proof.
  intros a answers.
  apply (X1_power_on_until_reported answers 20000 2 "video" "paused" a).
  - reflexivity.
  - vm_compute. lia.
  - intros [|[|j]] Hj; [reflexivity | reflexivity | lia].
  - reflexivity.
Defined.


Lemma X3_power_command_ignored_witness :
  let a := Accessory.setTurningOn true (Sample.accessory Hap.INACTIVE Sample.pairedDisk) in
  handleActiveSet 20000 (fun _ => (Some "video", Some "paused")) Hap.ACTIVE a = Ok tt a.
Proof.
  intros a. apply X3_power_command_ignored. left. split; reflexivity.
Defined.

End PowerOnProps.

(** ** Events applied *)
Module EventProps.
Import Accessory Events.
Local Open Scope list_scope.

Section Applied.
Context `{Json}.

(** The [switch] of [handleDeviceStateUpdate], as a function of the value. *)
Lemma switch_mediaState (v : option string) :
  match v with
  | Some "playing" => modify (setCurrentMediaState Hap.PLAY)
  | Some "paused" => modify (setCurrentMediaState Hap.PAUSE)
  | Some "stopped" => modify (setCurrentMediaState Hap.STOP)
  | Some "loading" => modify (setCurrentMediaState Hap.LOADING)
  | None => modify (setCurrentMediaState Hap.INTERRUPTED)
  | Some _ => ret tt
  end
  = match mediaStateFor v with
    | Some c => modify (setCurrentMediaState c)
    | None => ret tt
    end.
Proof.
  destruct v as [s|]; [|reflexivity]. unfold mediaStateFor.
  repeat match goal with
         | |- context [match ?x with _ => _ end] =>
             is_var x; destruct x; try reflexivity
         end.
Qed.

(** A device-state event while the accessory is not inactive. *)
Lemma handleDeviceStateUpdate_active (event : Event) (a : t) :
  isInactive a = false ->
  handleDeviceStateUpdate event a
  = Ok tt
      (applyMediaState (value event)
         (setDeviceStateServices
            (lightNew (value event) (clearOld (oldValue event) (deviceStateServices a)))
            (addLog (Info ("New Device State: " +:+ showNull (value event))) a))).
Proof.
  intros Hact. unfold handleDeviceStateUpdate. rewrite switch_mediaState.
  unfold applyMediaState, bind, get, modify, ret, logInfo.
  destruct a as [sp id sv dss mts ac cc sc mc bo off ton last disk lg eff].
  unfold isInactive in *. cbn in Hact.
  generalize (mediaStateFor (value event)). intros ms.
  destruct (oldValue event) as [old|], (value event) as [v|]; cbn; rewrite Hact; cbn;
    destruct ms; reflexivity.
Qed.

Lemma handleMediaTypeUpdate_active (event : Event) (a : t) :
  isInactive a = false ->
  handleMediaTypeUpdate event a
  = Ok tt
      (setMediaTypeServices
         (lightNew (value event) (clearOld (oldValue event) (mediaTypeServices a)))
         (addLog (Info ("New Media Type State: " +:+ showNull (value event))) a)).
Proof.
  intros Hact. unfold handleMediaTypeUpdate, bind, get, modify, ret, logInfo.
  destruct a as [sp id sv dss mts ac cc sc mc bo off ton last disk lg eff].
  unfold isInactive in *. cbn in Hact.
  destruct (oldValue event) as [old|], (value event) as [v|]; cbn; rewrite Hact; reflexivity.
Qed.

(** How the light moves in a dictionary of sensors. *)
Lemma setMotion_same (k : string) (b : bool) (m : gmap string bool) :
  is_Some (m !! k) -> setMotion k b m !! k = Some b.
Proof. intros [x Hx]. unfold setMotion. rewrite Hx. apply lookup_insert_eq. Qed.

Lemma setMotion_lookup_ne (k k' : string) (b : bool) (m : gmap string bool) :
  k <> k' -> setMotion k b m !! k' = m !! k'.
Proof.
  intros Hne. unfold setMotion. destruct (m !! k); [by rewrite lookup_insert_ne | done].
Qed.

Lemma setMotion_is_Some (k k' : string) (b : bool) (m : gmap string bool) :
  is_Some (setMotion k b m !! k') <-> is_Some (m !! k').
Proof.
  unfold setMotion. destruct (m !! k) eqn:Hk; [|done].
  destruct (decide (k = k')) as [<-|Hne].
  - rewrite lookup_insert_eq, Hk. split; eauto.
  - by rewrite lookup_insert_ne.
Qed.

Lemma moved_light (old v : option string) (m : gmap string bool) :
  (forall k, v = Some k -> is_Some (m !! k) -> lightNew v (clearOld old m) !! k = Some true)
  /\ (forall k, old = Some k -> v <> Some k -> is_Some (m !! k) ->
        lightNew v (clearOld old m) !! k = Some false)
  /\ (forall k, old <> Some k -> v <> Some k -> lightNew v (clearOld old m) !! k = m !! k)
  /\ ((forall k, m !! k = Some true -> old = Some k) ->
      forall k, lightNew v (clearOld old m) !! k = Some true -> v = Some k)
  /\ (forall k, is_Some (lightNew v (clearOld old m) !! k) <-> is_Some (m !! k)).
Proof.
  assert (Hclear : forall k, is_Some (clearOld old m !! k) <-> is_Some (m !! k)).
  { intros k. destruct old; [apply setMotion_is_Some | done]. }
  repeat split.
  - intros k -> Hk. simpl. apply setMotion_same. by apply Hclear.
  - intros k -> Hv Hk.
    assert (Hc : clearOld (Some k) m !! k = Some false) by by apply setMotion_same.
    destruct v as [v|]; [|exact Hc]. simpl. rewrite setMotion_lookup_ne; [exact Hc|].
    congruence.
  - intros k Hold Hv.
    assert (Hc : clearOld old m !! k = m !! k).
    { destruct old as [o|]; [|done]. apply setMotion_lookup_ne. congruence. }
    destruct v as [v|]; [|exact Hc]. simpl. rewrite setMotion_lookup_ne; [exact Hc|].
    congruence.
  - intros Hexcl k Hlit.
    assert (Hdark : forall k', clearOld old m !! k' <> Some true).
    { intros k' Hk'. destruct old as [o|]; simpl in Hk'.
      - destruct (decide (o = k')) as [<-|Hne].
        + unfold setMotion in Hk'. destruct (m !! o) eqn:Ho; [|congruence].
          rewrite lookup_insert_eq in Hk'. discriminate.
        + rewrite setMotion_lookup_ne in Hk' by done.
          apply Hexcl in Hk'. congruence.
      - apply Hexcl in Hk'. discriminate. }
    destruct v as [v|]; simpl in Hlit; [|by apply Hdark in Hlit].
    destruct (decide (v = k)) as [->|Hne]; [reflexivity|].
    rewrite setMotion_lookup_ne in Hlit by done. by apply Hdark in Hlit.
  - intros Hk. apply Hclear. destruct v as [x|]; simpl in Hk; [|done].
    by apply setMotion_is_Some in Hk.
  - intros Hk. apply (proj2 (Hclear k)) in Hk. destruct v as [x|]; simpl; [|done].
    by apply setMotion_is_Some.
Qed.

Lemma deviceStateServices_applyMediaState (v : option string) (a : t) :
  deviceStateServices (applyMediaState v a) = deviceStateServices a.
Proof.
  unfold applyMediaState, setCurrentMediaState.
  destruct (mediaStateFor v); [|reflexivity]. by destruct (service a).
Qed.

(** X4: while the accessory is not inactive, a device-state or media-type
    event moves the light: the sensor of the new value, if there is one, is
    lit; that of the old value, if different, is put out; no other sensor
    changes and none is added.  If before the event no sensor but the old
    value's was lit, then after it none but the new value's is. *)
Theorem X4_active_event_moves_light (event : Event) (a : t) :
  isInactive a = false ->
  let d := deviceStateServices (stateOf (handleDeviceStateUpdate event a)) in
  let m := mediaTypeServices (stateOf (handleMediaTypeUpdate event a)) in
  let old := oldValue event in
  let v := value event in
  (forall k, v = Some k ->
     (is_Some (deviceStateServices a !! k) -> d !! k = Some true)
     /\ (is_Some (mediaTypeServices a !! k) -> m !! k = Some true))
  /\ (forall k, old = Some k -> v <> Some k ->
        (is_Some (deviceStateServices a !! k) -> d !! k = Some false)
        /\ (is_Some (mediaTypeServices a !! k) -> m !! k = Some false))
  /\ (forall k, old <> Some k -> v <> Some k ->
        d !! k = deviceStateServices a !! k /\ m !! k = mediaTypeServices a !! k)
  /\ ((forall k, deviceStateServices a !! k = Some true -> old = Some k) ->
      forall k, d !! k = Some true -> v = Some k)
  /\ ((forall k, mediaTypeServices a !! k = Some true -> old = Some k) ->
      forall k, m !! k = Some true -> v = Some k)
  /\ (forall k, (is_Some (d !! k) <-> is_Some (deviceStateServices a !! k))
                /\ (is_Some (m !! k) <-> is_Some (mediaTypeServices a !! k))).
Proof.
  intros Hact d m old v. subst d m old v.
  rewrite handleDeviceStateUpdate_active, handleMediaTypeUpdate_active by done.
  cbn [stateOf]. rewrite deviceStateServices_applyMediaState.
  cbn [deviceStateServices setDeviceStateServices mediaTypeServices setMediaTypeServices
       addLog].
  set (old := oldValue event). set (v := value event).
  destruct (moved_light old v (deviceStateServices a)) as (D1 & D2 & D3 & D4 & D5).
  destruct (moved_light old v (mediaTypeServices a)) as (M1 & M2 & M3 & M4 & M5).
  repeat split; eauto; try (by apply D5); by apply M5.
Qed.

(** X5: a device-state event that is not skipped writes CurrentMediaState
    for [playing], [paused], [stopped], [loading] and [null], and for no
    other value; it never writes the Active characteristic, and a
    media-type event does not write the Television service at all. *)
Theorem X5_event_media_state (event : Event) (a : t) (tv : Television) :
  isInactive a = false ->
  service a = Some tv ->
  service (stateOf (handleDeviceStateUpdate event a))
  = Some (mkTelevision (Active tv)
            (default (CurrentMediaState tv) (mediaStateFor (value event))))
  /\ service (stateOf (handleMediaTypeUpdate event a)) = Some tv.
Proof.
  intros Hact Hsv.
  rewrite handleDeviceStateUpdate_active, handleMediaTypeUpdate_active by done.
  split; [|exact Hsv].
  unfold applyMediaState, setCurrentMediaState. cbn.
  destruct (mediaStateFor (value event)); cbn; rewrite Hsv; by destruct tv.
Qed.


(** The handlers leave the [offline] flag alone. *)
Lemma handleActiveUpdate_offline (now : Z) (event : Event) (a : t) :
  offline (stateOf (handleActiveUpdate now event a)) = offline a.
Proof.
  unfold handleActiveUpdate, bind, get, logInfo, modify, throw, ret.
  destruct (value event) as [v|]; [|reflexivity].
  case_bool_decide; [reflexivity|]. cbv beta iota.
  destruct (_ && _); [reflexivity|]. unfold addLog. cbn [service].
  destruct (service a); reflexivity.
Qed.

Lemma handleDeviceStateUpdate_offline (event : Event) (a : t) :
  offline (stateOf (handleDeviceStateUpdate event a)) = offline a.
Proof.
  destruct (isInactive a) eqn:Hin.
  - by rewrite AccessoryProps.handleDeviceStateUpdate_inactive.
  - rewrite handleDeviceStateUpdate_active by done. cbn [stateOf].
    unfold applyMediaState, setCurrentMediaState.
    destruct (mediaStateFor (value event)); [|reflexivity].
    cbn [service setDeviceStateServices addLog]. destruct (service a); reflexivity.
Qed.

Lemma handleMediaTypeUpdate_offline (event : Event) (a : t) :
  offline (stateOf (handleMediaTypeUpdate event a)) = offline a.
Proof.
  destruct (isInactive a) eqn:Hin.
  - by rewrite AccessoryProps.handleMediaTypeUpdate_inactive.
  - by rewrite handleMediaTypeUpdate_active.
Qed.

Lemma filterErrorHandler_offline (event : Event) (listener : Event -> M t unit) (a : t) :
  (forall b, offline (stateOf (listener event b)) = offline b) ->
  offline (stateOf (filterErrorHandler (IsEvent event) listener a))
  = offline a && isNull (value event).
Proof.
  intros Hkeep.
  unfold filterErrorHandler, bind, get, logInfo, logDebug, modify, ret. cbv beta iota.
  destruct (offline a) eqn:Hoff, (value event) as [v|]; cbv beta iota;
    rewrite Hkeep; cbn; by rewrite ?Hoff.
Qed.

(** X7: the [offline] flag follows the connection. The listener of the
    error channel sets it; an event with a value that is not [null],
    arriving on any of the three update channels, clears it; an event with
    a [null] value leaves it; and an [Error] arriving on an update channel
    is dropped, with no change at all. *)
Theorem X7_offline_follows_connection (now : Z) (event : Event) (message : string) (a : t) :
  offline (stateOf (onError message a)) = true
  /\ offline (stateOf (onPowerState now (IsEvent event) a)) = offline a && isNull (value event)
  /\ offline (stateOf (onDeviceState (IsEvent event) a)) = offline a && isNull (value event)
  /\ offline (stateOf (onMediaType (IsEvent event) a)) = offline a && isNull (value event)
  /\ onPowerState now (IsError message) a = Ok tt a
  /\ onDeviceState (IsError message) a = Ok tt a
  /\ onMediaType (IsError message) a = Ok tt a.
Proof.
  split; [reflexivity|].
  split; [apply filterErrorHandler_offline; intros; apply handleActiveUpdate_offline|].
  split; [apply filterErrorHandler_offline; intros; apply handleDeviceStateUpdate_offline|].
  split; [apply filterErrorHandler_offline; intros; apply handleMediaTypeUpdate_offline|].
  by repeat split.
Qed.

End Applied.

Lemma X4_active_event_moves_light_witness :
  let a := Sample.accessory Hap.ACTIVE Sample.pairedDisk in
  let event := mkEvent "deviceState" (Some "paused") (Some "playing") in
  deviceStateServices (stateOf (handleDeviceStateUpdate event a)) !! "paused" = Some true
  /\ deviceStateServices (stateOf (handleDeviceStateUpdate event a)) !! "playing" = Some false.
Proof.
  intros a event.
  destruct (X4_active_event_moves_light event a eq_refl) as (Hnew & Hold & _).
  split.
  - apply (Hnew "paused"); [reflexivity | vm_compute; eauto].
  - apply (Hold "playing"); [reflexivity | discriminate | vm_compute; eauto].
Defined.

Lemma X5_event_media_state_witness :
  let a := Sample.accessory Hap.ACTIVE Sample.pairedDisk in
  let event := mkEvent "deviceState" (Some "seeking") (Some "playing") in
  service (stateOf (handleDeviceStateUpdate event a))
  = Some (mkTelevision Hap.ACTIVE Hap.PLAY)
  /\ service (stateOf (handleMediaTypeUpdate event a))
     = Some (mkTelevision Hap.ACTIVE Hap.PLAY).
Proof.
  intros a event.
  apply (X5_event_media_state event a (mkTelevision Hap.ACTIVE Hap.PLAY)); reflexivity.
Defined.


End EventProps.

(** ** Per-device files, continued *)
Module StorageMoreProps.
Import Accessory Storage.
Local Open Scope list_scope.

Section Files.
Context `{Json}.

(** X8: with the directories ready, [getPath] returns the path of the file
    inside the device directory, after which the file exists; a second
    call, whatever default content it is given, returns the same path and
    changes nothing. *)
Theorem X8_getPath_settles (file d d' : string) (a : t) :
  dirsReady a ->
  exists a1,
    getPath file d a = Ok (deviceDir a ++ [file]) a1
    /\ is_Some (fs a1 !! (deviceDir a ++ [file]))
    /\ fs a ⊆ fs a1
    /\ getPath file d' a1 = Ok (deviceDir a ++ [file]) a1.
Proof.
  intros Hready.
  destruct (StorageProps.getPath_ready file d a Hready)
    as (disk & Hrun & Hready1 & Hplug & Hdev & Hfile & _).
  exists (setFs disk a). split; [exact Hrun|].
  assert (Hsome : is_Some (disk !! (deviceDir a ++ [file]))).
  { rewrite Hfile. destruct (fs a !! (deviceDir a ++ [file])); eauto. }
  split; [exact Hsome|]. split.
  - pose proof (StorageProps.getPath_grown file d a) as Hg. cbv zeta in Hg.
    rewrite Hrun in Hg. destruct Hg as (_ & disk' & Heq & Hsub & _).
    apply (f_equal fs) in Heq. cbn in Heq. by rewrite Heq.
  - destruct (StorageProps.getPath_ready file d' (setFs disk a) Hready1)
      as (disk2 & Hrun2 & _ & _ & _ & _ & Hsame).
    cbn [fs setFs] in Hsame.
    change (deviceDir (setFs disk a)) with (deviceDir a) in Hrun2, Hsame.
    change (pluginDir (setFs disk a)) with (pluginDir a) in Hsame.
    rewrite Hrun2. rewrite Hsame; [reflexivity | by rewrite Hplug | by rewrite Hdev | exact Hsome].
Qed.

(** X9: with the directories ready, [getCredentials] returns the trimmed
    text of the credentials file and leaves the text as it is; when the
    file is not there it makes it empty and returns [''], the value on
    which the constructor starts the pairing. *)
Theorem X9_getCredentials_reads_or_creates (a : t) :
  dirsReady a ->
  fs a !! credentialsPath a <> Some Fs.Dir ->
  exists a1,
    getCredentials a = Ok (JS.trim (storedCredentials a)) a1
    /\ fs a1 !! credentialsPath a = Some (Fs.File (storedCredentials a)).
Proof.
  intros Hready Hfile.
  destruct (StorageProps.getPath_ready "credentials.txt" "" a Hready)
    as (disk & Hrun & _ & _ & _ & Hp & _).
  fold (credentialsPath a) in Hrun, Hp.
  assert (Hstored : disk !! credentialsPath a = Some (Fs.File (storedCredentials a))).
  { rewrite Hp. unfold storedCredentials.
    destruct (fs a !! credentialsPath a) as [[|c]|]; done. }
  eexists. unfold getCredentials, bind. rewrite Hrun.
  rewrite StorageProps.liftFs_read. cbn [fs setFs]. rewrite Hstored.
  split; [reflexivity|]. exact Hstored.
Qed.

(** A getter that has returned keeps its document. *)
Lemma loadConfig_cached (file : string) cached store (a a1 : t) (j : json) :
  (forall o b, cached (store o b) = o) ->
  (forall d b, cached (setFs d b) = cached b) ->
  loadConfig file cached store a = Ok j a1 ->
  cached a1 = Some j.
Proof.
  intros Hstore Hfs. unfold loadConfig, bind, get. cbv beta iota.
  destruct (cached a) as [j0|] eqn:Hc.
  - intros [= <- <-]. exact Hc.
  - destruct (getPath file "{}" a) as [p a' | e a']; [|discriminate].
    rewrite StorageProps.liftFs_read.
    destruct (fs a' !! p) as [[|c]|]; try discriminate.
    destruct (JSON_parse c) as [j1|]; [|discriminate].
    intros [= <- <-]. apply Hstore.
Qed.

Lemma loadConfig_from_cache (file : string) cached store (a : t) (j : json) :
  cached a = Some j -> loadConfig file cached store a = Ok j a.
Proof. intros Hc. unfold loadConfig, bind, get. cbv beta iota. by rewrite Hc. Qed.

(** X10: once a configuration getter has returned a document, it returns
    that document again without touching anything, whatever has happened to
    the files in the meantime. *)
Theorem X10_config_read_once (getter : M t json) (a a1 : t) (j : json) (disk : Fs.t) :
  In getter configGetters ->
  getter a = Ok j a1 ->
  getter (setFs disk a1) = Ok j (setFs disk a1).
Proof.
  intros Hin Hrun.
  destruct Hin as [<- | [<- | [<- | [<- | []]]]].
  - apply loadConfig_from_cache.
    change (appConfigs (setFs disk a1)) with (appConfigs a1).
    by apply (loadConfig_cached "apps.json" appConfigs setAppConfigsField a).
  - apply loadConfig_from_cache.
    change (commonConfig (setFs disk a1)) with (commonConfig a1).
    by apply (loadConfig_cached "common.json" commonConfig setCommonConfigField a).
  - apply loadConfig_from_cache.
    change (mediaConfigs (setFs disk a1)) with (mediaConfigs a1).
    by apply (loadConfig_cached "mediaTypes.json" mediaConfigs setMediaConfigsField a).
  - apply loadConfig_from_cache.
    change (stateConfigs (setFs disk a1)) with (stateConfigs a1).
    by apply (loadConfig_cached "deviceStates.json" stateConfigs setStateConfigsField a).
Qed.

End Files.

Lemma X8_getPath_settles_witness :
  let a := Sample.accessory Hap.INACTIVE Sample.freshDisk in
  exists a1,
    getPath "apps.json" "{}" a = Ok (Sample.deviceDir ++ ["apps.json"]) a1
    /\ is_Some (fs a1 !! (Sample.deviceDir ++ ["apps.json"]))
    /\ fs a ⊆ fs a1
    /\ getPath "apps.json" "" a1 = Ok (Sample.deviceDir ++ ["apps.json"]) a1.
Proof.
  intros a. apply (X8_getPath_settles "apps.json" "{}" "" a).
  repeat split; try (by left); vm_compute; reflexivity.
Defined.

Lemma X9_getCredentials_reads_or_creates_witness :
  let a := Sample.accessory Hap.INACTIVE Sample.freshDisk in
  exists a1,
    getCredentials a = Ok "" a1
    /\ fs a1 !! (Sample.deviceDir ++ ["credentials.txt"]) = Some (Fs.File "").
Proof.
  intros a. apply (X9_getCredentials_reads_or_creates a).
  - repeat split; try (by left); vm_compute; reflexivity.
  - vm_compute. discriminate.
Defined.

Lemma X10_config_read_once_witness :
  let a := Sample.accessory Hap.INACTIVE Sample.pairedDisk in
  let a1 := stateOf (@getAppConfigs Sample.rawJson a) in
  @getAppConfigs Sample.rawJson (setFs ∅ a1) = Ok "{}" (setFs ∅ a1).
Proof.
  intros a a1.
  apply (X10_config_read_once (@getAppConfigs Sample.rawJson) a a1 "{}" ∅).
  - left. reflexivity.
  - vm_compute. reflexivity.
Defined.

End StorageMoreProps.

(** ** The pairing loop, continued *)
Module PairingMoreProps.
Import Pairing PairingSpec.
Local Open Scope list_scope.

Section Loop.
Variables name htmlInput htmlAfterPost : string.

(** No callback clears [goOn], and only the close sets [processClosed]. *)
Lemma handle_goOn (e : Event) (s : t) : goOn s = true -> goOn (handle name htmlInput htmlAfterPost e s) = true.
Proof.
  intros Hgo. destruct e as [d | d | | | m cs]; simpl; try done.
  - unfold onStdout.
    repeat match goal with |- context [if ?b then _ else _] => destruct b end; done.
  - unfold onWatchdog. by destruct (processClosed s).
  - by destruct m.
Qed.

Lemma handle_processClosed (e : Event) (s : t) :
  isClose e = false -> processClosed (handle name htmlInput htmlAfterPost e s) = processClosed s.
Proof.
  intros Hne. destruct e as [d | d | | | m cs]; simpl; try done.
  - unfold onStdout.
    repeat match goal with |- context [if ?b then _ else _] => destruct b end; done.
  - unfold onWatchdog. destruct (processClosed s) eqn:E; [exact E | exact E].
  - by destruct m.
Qed.

Lemma waitForProcess_until_close (events rest : list Event) : forall s,
  goOn s = true -> processClosed s = false ->
  forallb (fun e => negb (isClose e)) events = true ->
  exists s', waitForProcess name htmlInput htmlAfterPost (events ++ Close :: rest) s = Some s'
             /\ goOn s' = true /\ processClosed s' = true.
Proof.
  induction events as [|e events IH]; intros s Hgo Hopen Hnone.
  - cbn [app waitForProcess]. rewrite Hgo, Hopen. cbn [negb orb].
    destruct rest; cbn [waitForProcess handle onClose emit setProcessClosed goOn
                        processClosed]; rewrite Hgo; cbn [negb orb];
      eexists; by repeat split.
  - cbn in Hnone. apply andb_prop in Hnone as [He Hnone]. apply negb_true_iff in He.
    cbn [app waitForProcess]. rewrite Hgo, Hopen. cbn [negb orb].
    apply IH; [| |exact Hnone].
    + by apply handle_goOn.
    + by rewrite handle_processClosed.
Qed.

Lemma backOffWait_goOn (s : t) : goOn (backOffWait name s) = goOn s.
Proof.
  unfold backOffWait. destruct (backOffSeconds s) as [[|b|b]|]; try reflexivity.
  - destruct (PairingProps.countDown_waits (Z.to_nat (Z.pos b)) (Z.pos b)
                (emit (Log ("Apple TV " +:+ name +:+ ": Too many attempts. Waiting for "
                              +:+ JS.showZ (Z.pos b) +:+ " seconds before retrying.")) s))
      as (ticks & _ & _ & _ & _ & Hgo & _); [lia | reflexivity |].
    exact Hgo.
Qed.

(** X11: [goOn] is never reset. Standard-error output sets it, and every
    callback keeps it; so once it is set, in this turn of the loop or in an
    earlier one, a turn ends when the process closes, whatever the process
    printed, and leaves [goOn] set for the next turn. In a first turn in
    which nothing set it, the close alone does not end the wait. *)
Theorem X11_goOn_sticks (events rest : list Event) (data : string) (s : t) :
  goOn s = true ->
  forallb (fun e => negb (isClose e)) events = true ->
  goOn (handle name htmlInput htmlAfterPost (Stderr data) init) = true
  /\ (forall e, goOn (handle name htmlInput htmlAfterPost e s) = true)
  /\ (exists s', iteration name htmlInput htmlAfterPost (events ++ Close :: rest) s = Some s' /\ goOn s' = true)
  /\ iteration name htmlInput htmlAfterPost [Close] init = None.
Proof.
  intros Hgo Hnone. split; [reflexivity|]. split; [intros e; by apply handle_goOn|].
  split; [|reflexivity].
  unfold iteration.
  edestruct (waitForProcess_until_close events rest) as (s' & Hrun & Hgo' & _);
    [| | exact Hnone | rewrite Hrun]; [exact Hgo | reflexivity |].
  eexists. split; [reflexivity|]. by rewrite backOffWait_goOn.
Qed.

(** Where [success] and the credentials come from. *)
Lemma onStdout_sound (data : string) (seen : list Event) (s : t) :
  sound seen s -> sound (Stdout data :: seen) (onStdout data s).
Proof.
  intros Hs. unfold onStdout, sound.
  destruct (JS.includes PIN_MARKER data) eqn:Hpin;
    [|destruct (JS.includes BACKOFF_MARKER data) eqn:Hback;
      [|destruct (JS.includes "ERROR" (JS.toUpperCase data)) eqn:Herr;
        [|destruct (JS.includes SUCCESS_MARKER data) eqn:Hok]]]; cbn.
  1-3, 5: intros Hsucc; destruct (Hs Hsucc) as (d & Hin & Hline & Hcred);
    exists d; (split; [by right|]); (split; [exact Hline | exact Hcred]).
  intros _. exists data. split; [by left|]. unfold successLine.
  rewrite Hpin, Hback, Herr, Hok. split; reflexivity.
Qed.

Lemma handle_sound (e : Event) (seen : list Event) (s : t) :
  sound seen s -> sound (e :: seen) (handle name htmlInput htmlAfterPost e s).
Proof.
  intros Hs. destruct e as [d | d | | | m cs]; cbn [handle].
  - by apply onStdout_sound.
  - intros Hsucc. destruct (Hs Hsucc) as (x & Hin & Hline & Hcred).
    exists x. repeat split; [by right | done | done].
  - intros Hsucc. destruct (Hs Hsucc) as (x & Hin & Hline & Hcred).
    exists x. repeat split; [by right | done | done].
  - unfold onWatchdog. destruct (processClosed s);
      intros Hsucc; destruct (Hs Hsucc) as (x & Hin & Hline & Hcred);
      exists x; (repeat split; [by right | done | done]).
  - destruct m; intros Hsucc; destruct (Hs Hsucc) as (x & Hin & Hline & Hcred);
      exists x; (repeat split; [by right | done | done]).
Qed.

Lemma sound_more (seen more : list Event) (s : t) :
  sound seen s -> (forall e, In e seen -> In e more) -> sound more s.
Proof.
  intros Hs Hsub Hsucc. destruct (Hs Hsucc) as (x & Hin & Hrest).
  exists x. split; [by apply Hsub | exact Hrest].
Qed.

Lemma sound_same (seen : list Event) (s s' : t) :
  success s' = success s -> credentials s' = credentials s -> sound seen s -> sound seen s'.
Proof. intros Hsu Hcr Hs. unfold sound. rewrite Hsu, Hcr. exact Hs. Qed.

Lemma waitForProcess_sound (events : list Event) : forall (seen : list Event) (s s' : t),
  sound seen s ->
  waitForProcess name htmlInput htmlAfterPost events s = Some s' ->
  sound (events ++ seen) s'.
Proof.
  induction events as [|e events IH]; intros seen s s' Hs Hrun.
  - cbn in Hrun. destruct (negb (goOn s) || negb (processClosed s)); [discriminate|].
    by injection Hrun as <-.
  - cbn [waitForProcess] in Hrun.
    destruct (negb (goOn s) || negb (processClosed s)).
    + apply (IH (e :: seen)) in Hrun.
      * eapply sound_more; [exact Hrun|]. intros x Hx.
        apply in_app_or in Hx as [Hx | [<- | Hx]]; apply in_or_app; cbn; auto.
      * apply handle_sound. by apply (sound_same seen s).
    + injection Hrun as <-. eapply sound_more; [exact Hs|].
      intros x Hx. apply in_or_app. by right.
Qed.

Lemma countDown_keeps (fuel : nat) : forall (b : Z) (s : t),
  success (countDown fuel b s) = success s
  /\ credentials (countDown fuel b s) = credentials s.
Proof.
  induction fuel as [|fuel IH]; intros b s; cbn [countDown]; [done|].
  destruct (b >? 0); [|done]. by destruct (IH (b - 1)
    (emit (Delay 1000) (emit (Log (JS.showZ b +:+ " seconds remaining.")) s))).
Qed.

Lemma backOffWait_keeps (s : t) :
  success (backOffWait name s) = success s
  /\ credentials (backOffWait name s) = credentials s.
Proof.
  unfold backOffWait. destruct (backOffSeconds s) as [[|b|b]|]; try done;
    match goal with
    | |- context [countDown ?f ?n ?x] =>
        destruct (countDown_keeps f n x) as [Hsu Hcr]; by rewrite Hsu, Hcr
    end.
Qed.

Lemma iteration_sound (events seen : list Event) (s s' : t) :
  sound seen s ->
  iteration name htmlInput htmlAfterPost events s = Some s' ->
  sound (events ++ seen) s'.
Proof.
  intros Hs. unfold iteration.
  destruct (waitForProcess _ _ _ events _) as [s1|] eqn:Hrun; [|discriminate].
  intros [= <-]. apply waitForProcess_sound with (seen := seen) in Hrun.
  - destruct (backOffWait_keeps (emit ServerClose s1)) as [Hsu Hcr].
    by apply (sound_same _ s1).
  - by apply (sound_same seen s).
Qed.

Lemma pairLoop_sound (runs : list (list Event)) : forall (seen : list Event) (s s' : t),
  sound seen s ->
  pairLoop name htmlInput htmlAfterPost runs s = Some s' ->
  success s' = true /\ sound (concat runs ++ seen) s'.
Proof.
  induction runs as [|events runs IH]; intros seen s s' Hs Hrun; cbn [pairLoop] in Hrun.
  - destruct (success s) eqn:Hsu; [|discriminate]. by injection Hrun as <-.
  - destruct (success s) eqn:Hsu.
    + injection Hrun as <-. split; [exact Hsu|].
      eapply sound_more; [exact Hs|]. intros x Hx. apply in_or_app. by right.
    + destruct (iteration name htmlInput htmlAfterPost events s) as [s1|] eqn:Hit;
        [|discriminate].
      apply (IH (events ++ seen)) in Hrun; [|by eapply iteration_sound].
      destruct Hrun as [Hok Hsound]. split; [exact Hok|].
      eapply sound_more; [exact Hsound|]. intros x Hx. cbn [concat].
      rewrite <- app_assoc. apply in_app_or in Hx as [Hx | Hx]; apply in_or_app.
      * right. apply in_or_app. by left.
      * apply in_app_or in Hx as [Hx | Hx]; [by left | right; apply in_or_app; by right].
Qed.

(** X12: when [pair] returns, the credentials it returns were taken from a
    line that the pairing process printed on its standard output: a line
    with the success marker and without the PIN prompt, [BackOff=] or
    [error], of which they are the trimmed text after the first [': ']. *)
Theorem X12_pair_returns_printed_credentials (runs : list (list Event))
    (c : string) (effects : list Effect) :
  pair name htmlInput htmlAfterPost runs = Some (c, effects) ->
  exists data,
    In (Stdout data) (concat runs)
    /\ successLine data = true
    /\ c = extracted data.
Proof.
  unfold pair.
  destruct (pairLoop _ _ _ runs _) as [s|] eqn:Hrun; [|discriminate].
  intros [= <- _].
  apply (pairLoop_sound runs []) in Hrun as [Hok Hsound].
  - rewrite app_nil_r in Hsound. exact (Hsound Hok).
  - intros Hsucc. discriminate.
Qed.

(** X14: after a turn, the loop waits as many seconds as the back-off that
    the turn captured, in ticks of one second: none for zero, for a
    negative number and for [NaN]. *)
Theorem X14_backOff_wait (s : t) :
  waited (added s (backOffWait name s)) = backOffMillis (backOffSeconds s)
  /\ secondTicks (added s (backOffWait name s))
     = Z.to_nat (backOffMillis (backOffSeconds s) / 1000).
Proof.
  unfold backOffWait, added, backOffMillis.
  destruct (backOffSeconds s) as [[|b|b]|] eqn:Hb.
  - rewrite drop_all. by split.
  - destruct (PairingProps.countDown_waits (Z.to_nat (Z.pos b)) (Z.pos b)
                (emit (Log ("Apple TV " +:+ name +:+ ": Too many attempts. Waiting for "
                              +:+ JS.showZ (Z.pos b) +:+ " seconds before retrying.")) s))
      as (ticks & Htr & Hw & Hn & _); [lia | reflexivity |].
    rewrite Htr. cbn [trace emit]. rewrite <- app_assoc, drop_app_length.
    cbn [app waited secondTicks]. rewrite Hw, Hn.
    replace (Z.max 0 (Z.pos b)) with (Z.pos b) by lia.
    split; [reflexivity|]. by rewrite Z.mul_comm, Z.div_mul.
  - change (Z.to_nat (Z.neg b)) with O.
    cbn [countDown trace emit setBackOffSeconds]. by rewrite drop_app_length.
  - cbn [trace emit]. by rewrite drop_app_length.
Qed.

(** A text without the separator is one piece. *)
Lemma split_go_none (sep f acc : string) :
  JS.includes sep f = false ->
  JS.split_go sep O acc f = [JS.rev_onto EmptyString acc +:+ f].
Proof.
  revert acc. induction f as [|c f IH]; intros acc Hno.
  - cbn. by rewrite PairingProps.append_empty_r.
  - apply PairingProps.includes_cons_false in Hno as [Hstart Hno].
    cbn [JS.split_go]. rewrite Hstart, IH by done.
    cbn [JS.rev_onto]. rewrite (PairingProps.rev_onto_app (String c EmptyString) acc).
    by rewrite PairingProps.append_assoc.
Qed.

(** X13: a line that is the success message followed by a text without
    [': '], and that holds neither the PIN prompt, nor [BackOff=], nor
    [error] in any case, gives that text, trimmed, as the credentials, and
    sets [goOn] and [success]; the back-off is left as it was. *)
Theorem X13_success_line_credentials (text : string) (s : t) :
  JS.includes ": " text = false ->
  successLine (SUCCESS_MARKER +:+ text) = true ->
  let s' := onStdout (SUCCESS_MARKER +:+ text) s in
  credentials s' = JS.trim text
  /\ extracted (SUCCESS_MARKER +:+ text) = JS.trim text
  /\ goOn s' = true
  /\ success s' = true
  /\ backOffSeconds s' = backOffSeconds s.
Proof.
  intros Hno Hline s'.
  assert (Hsplit : JS.split ": " (SUCCESS_MARKER +:+ text)
                   = ["You may now use these credentials"; text]).
  { change (JS.split ": " (SUCCESS_MARKER +:+ text))
      with ("You may now use these credentials" :: JS.split_go ": " O EmptyString text).
    by rewrite split_go_none. }
  assert (Hext : extracted (SUCCESS_MARKER +:+ text) = JS.trim text).
  { unfold extracted. by rewrite Hsplit. }
  unfold successLine in Hline.
  apply andb_prop in Hline as [Hline Hok]. apply andb_prop in Hline as [Hline Herr].
  apply andb_prop in Hline as [Hpin Hback].
  apply negb_true_iff in Hpin, Hback, Herr.
  subst s'. unfold onStdout. rewrite Hpin, Hback, Herr, Hok.
  fold (extracted (SUCCESS_MARKER +:+ text)). rewrite Hext. by repeat split.
Qed.

(** X15: for a body of four fields without [&], in whatever chunks it
    arrives, the listener writes to the pairing process the characters at
    index 2 of the four fields, followed by a newline, and answers with the
    confirmation page; a GET gets the entry page and writes nothing. *)
Theorem X15_pin_of_four_fields (f1 f2 f3 f4 : string) (chunks : list string) (s : t) :
  JS.includes "&" f1 = false -> JS.includes "&" f2 = false ->
  JS.includes "&" f3 = false -> JS.includes "&" f4 = false ->
  fold_left String.append chunks EmptyString
  = f1 +:+ "&" +:+ f2 +:+ "&" +:+ f3 +:+ "&" +:+ f4 ->
  let pin := JS.charAt 2 f1 +:+ JS.charAt 2 f2 +:+ JS.charAt 2 f3 +:+ JS.charAt 2 f4 in
  added s (requestListener name htmlInput htmlAfterPost POST chunks s)
  = [Log ("Got PIN " +:+ pin +:+ " for Apple TV " +:+ name +:+ ".");
     StdinWrite (pin +:+ String "010" EmptyString);
     HttpEnd htmlAfterPost]
  /\ added s (requestListener name htmlInput htmlAfterPost GET chunks s)
     = [HttpEnd htmlInput].
Proof.
  intros H1 H2 H3 H4 Hbody pin. unfold added, requestListener. rewrite Hbody.
  rewrite PairingProps.reconstructPin_four_fields by done. fold pin.
  cbn [trace emit]. rewrite <- !app_assoc. by rewrite !drop_app_length.
Qed.

End Loop.

Lemma X13_success_line_credentials_witness :
  let text := " 0123:abcd" +:+ String "010" EmptyString in
  let s' := onStdout (SUCCESS_MARKER +:+ text) init in
  credentials s' = JS.trim text
  /\ extracted (SUCCESS_MARKER +:+ text) = JS.trim text
  /\ goOn s' = true
  /\ success s' = true
  /\ backOffSeconds s' = backOffSeconds init.
Proof.
  intros text.
  exact (X13_success_line_credentials text init eq_refl eq_refl).
Defined.

Lemma X15_pin_of_four_fields_witness :
  added init (requestListener "TV" "<form>" "<p>" POST ["a=4&b"; "=7&c=1&d=9"] init)
  = [Log "Got PIN 4719 for Apple TV TV."; StdinWrite ("4719" +:+ String "010" EmptyString);
     HttpEnd "<p>"]
  /\ added init (requestListener "TV" "<form>" "<p>" GET ["a=4&b"; "=7&c=1&d=9"] init)
     = [HttpEnd "<form>"].
Proof.
  exact (X15_pin_of_four_fields "TV" "<form>" "<p>" "a=4" "b=7" "c=1" "d=9"
           ["a=4&b"; "=7&c=1&d=9"] init eq_refl eq_refl eq_refl eq_refl eq_refl).
Defined.

Lemma X12_pair_returns_printed_credentials_witness :
  let line := "You may now use these credentials: 0123:abcd" +:+ String "010" EmptyString in
  let runs := [[Stdout "Enter PIN on screen:"; Stdout line; Close]] in
  exists data,
    In (Stdout data) (concat runs)
    /\ successLine data = true
    /\ "0123:abcd" = extracted data.
Proof.
  intros line runs.
  apply (X12_pair_returns_printed_credentials "TV" "" "" runs "0123:abcd"
           (snd (default ("", []) (pair "TV" "" "" runs)))).
  vm_compute. reflexivity.
Defined.

Lemma X11_goOn_sticks_witness :
  goOn (handle "TV" "" "" (Stderr "warning") init) = true
  /\ (forall e, goOn (handle "TV" "" "" e (setGoOn true init)) = true)
  /\ (exists s', iteration "TV" "" "" ([Stdout "Enter PIN on screen:"] ++ Close :: [Watchdog])
                   (setGoOn true init) = Some s' /\ goOn s' = true)
  /\ iteration "TV" "" "" [Close] init = None.
Proof.
  apply (X11_goOn_sticks "TV" "" "" [Stdout "Enter PIN on screen:"] [Watchdog] "warning"
           (setGoOn true init)); reflexivity.
Defined.

End PairingMoreProps.

(** ** The control channel, continued *)
Module RocketRemoteMoreProps.
Import RocketRemote RocketRemoteSpec.
Local Open Scope list_scope.

Lemma closeListener_iter (f : Callback) (n : nat) : forall s,
  process s = true -> onCloseCallable s = Some f ->
  List.filter isInvoke (trace (Nat.iter n closeListener s))
  = List.filter isInvoke (trace s) ++ repeat (Invoke f) n
  /\ process (Nat.iter n closeListener s) = true
  /\ onCloseCallable (Nat.iter n closeListener s) = Some f
  /\ (n <> O -> heartbeatInterval (Nat.iter n closeListener s) = false)
  /\ closed (Nat.iter n closeListener s) = closed s.
Proof.
  induction n as [|n IH]; intros s Hp Hf.
  - cbn. rewrite app_nil_r. by repeat split.
  - destruct (IH s Hp Hf) as (Hinv & Hp' & Hf' & _ & Hc').
    rewrite Nat.iter_succ.
    destruct (Nat.iter n closeListener s) as [p c h l cl tr].
    cbn in Hp', Hf', Hc', Hinv. subst p c.
    cbn -[List.filter repeat]. rewrite !List.filter_app, Hinv. cbn -[repeat].
    rewrite !app_nil_r. split; [|by repeat split].
    rewrite <- app_assoc. f_equal. symmetry. apply (repeat_cons n (Invoke f)).
Qed.

(** X16: when the process closes, every listener that [onClose] registered
    runs, and each invokes the callback stored last: after [n] calls of
    [onClose] before the close, the callback of the last call is invoked
    [n] times and those of the earlier calls never. *)
Theorem X16_close_invokes_last_callback (before : list Op) (f : Callback) :
  forallb (fun o => negb (isExit o)) before = true ->
  lastCallback before = Some f ->
  List.filter isInvoke (trace (step (run before create) Exit))
  = repeat (Invoke f) (length (List.filter isOnClose before))
  /\ heartbeatInterval (step (run before create) Exit) = false.
Proof.
  intros Hnoexit Hlast.
  pose proof (RocketRemoteProps.open_run before [] create RocketRemoteProps.open_create
                Hnoexit) as [Hp Hh Hc Hl Hf Hq].
  cbn [app] in Hl, Hf. unfold lastCallback in Hlast.
  assert (Hcall : onCloseCallable (run before create) = Some f).
  { rewrite Hf. destruct (last (List.filter isOnClose before)) as [[g| | |]|]; try discriminate.
    exact Hlast. }
  assert (Hpos : length (List.filter isOnClose before) <> O).
  { destruct (List.filter isOnClose before); [discriminate | discriminate]. }
  unfold step. rewrite Hc, Hl.
  destruct (closeListener_iter f (length (List.filter isOnClose before))
              (setClosed true (run before create)) Hp Hcall)
    as (Hinv & _ & _ & Hhb & _).
  cbn [trace setCloseListeners heartbeatInterval setClosed] in *.
  rewrite Hinv, Hq. split; [reflexivity | by apply Hhb].
Qed.

Lemma filter_isInvoke_add (l : list Effect) (e : Effect) :
  isInvoke e = false -> List.filter isInvoke (l ++ [e]) = List.filter isInvoke l.
Proof. intros He. rewrite List.filter_app. cbn. rewrite He. apply app_nil_r. Qed.

Lemma alive_step (registered closed : bool) (s : t) (o : Op) (rest : list Op) :
  alive registered closed s ->
  undisturbed registered closed (o :: rest) = true ->
  exists registered' closed',
    alive registered' closed' (step s o)
    /\ undisturbed registered' closed' rest = true
    /\ List.filter isStdinWrite (trace (step s o))
       = List.filter isStdinWrite (trace s) ++ allWrites [o].
Proof.
  intros [Hp Hh Hc Hl Hq] Hund.
  destruct s as [p c h n cl tr]. cbn in Hp, Hh, Hc, Hl, Hq. subst p h cl.
  destruct o as [f | cmd | |]; cbn in Hund |- *.
  - exists true, closed. split; [|split; [exact Hund | by rewrite app_nil_r]].
    split; cbn; try done; intros _; split; discriminate.
  - exists registered, closed. split; [|split; [exact Hund|]].
    + split; cbn; try done. by rewrite !filter_isInvoke_add.
    + rewrite !List.filter_app. cbn. by rewrite app_nil_r.
  - exists registered, closed. split; [|split; [exact Hund|]].
    + split; cbn; try done. by rewrite !filter_isInvoke_add.
    + rewrite !List.filter_app. cbn. by rewrite app_nil_r.
  - destruct closed.
    + exists registered, true. split; [|split; [exact Hund | by rewrite app_nil_r]].
      by split.
    + destruct registered; [discriminate|].
      assert (n = O) as -> by (by apply Hl).
      exists false, true. split; [|split; [exact Hund | by rewrite app_nil_r]].
      by split.
Qed.

Lemma alive_run (ops : list Op) : forall (registered closed : bool) (s : t),
  alive registered closed s ->
  undisturbed registered closed ops = true ->
  heartbeatInterval (run ops s) = true
  /\ List.filter isInvoke (trace (run ops s)) = []
  /\ List.filter isStdinWrite (trace (run ops s))
     = List.filter isStdinWrite (trace s) ++ allWrites ops.
Proof.
  induction ops as [|o ops IH]; intros registered closed s Halive Hund.
  - cbn. rewrite app_nil_r. split; [apply Halive|]. split; [apply Halive | done].
  - destruct (alive_step _ _ s o ops Halive Hund) as (r' & c' & Halive' & Hund' & Hw).
    destruct (IH r' c' _ Halive' Hund') as (Hh & Hq & Hw').
    rewrite RocketRemoteProps.run_cons. split; [exact Hh|]. split; [exact Hq|].
    rewrite Hw', Hw, <- app_assoc. f_equal. by destruct o.
Qed.

(** X17: as long as no close of the process finds a listener registered
    with [onClose], nothing stops the heartbeat: every tick of the timer
    writes [app_list] and every [sendCommand] its command, in order, even
    after the process has closed, and no callback is invoked. *)
Theorem X17_heartbeat_without_listener (ops : list Op) :
  undisturbed false false ops = true ->
  List.filter isStdinWrite (trace (run ops create)) = allWrites ops
  /\ heartbeatInterval (run ops create) = true
  /\ List.filter isInvoke (trace (run ops create)) = [].
Proof.
  intros Hund.
  destruct (alive_run ops false false create) as (Hh & Hq & Hw); [|exact Hund|].
  - by split.
  - by rewrite Hw.
Qed.

Lemma X16_close_invokes_last_callback_witness :
  let before := [OnClose 1%nat; Tick; OnClose 2%nat; SendCommand "up"; OnClose 3%nat] in
  List.filter isInvoke (trace (step (run before create) Exit))
  = repeat (Invoke 3%nat) (length (List.filter isOnClose before))
  /\ heartbeatInterval (step (run before create) Exit) = false.
Proof.
  intros before.
  exact (X16_close_invokes_last_callback before 3%nat eq_refl eq_refl).
Defined.

Lemma X17_heartbeat_without_listener_witness :
  let ops := [Tick; Exit; OnClose 4%nat; Tick; SendCommand "home"; Exit; Tick] in
  List.filter isStdinWrite (trace (run ops create)) = allWrites ops
  /\ heartbeatInterval (run ops create) = true
  /\ List.filter isInvoke (trace (run ops create)) = [].
Proof.
  intros ops. exact (X17_heartbeat_without_listener ops eq_refl).
Defined.

End RocketRemoteMoreProps.

Module PythonCheckerMoreProps.
Import PythonChecker PythonCheckerSpec.
Local Open Scope list_scope.

Section Steps.
Context `{Host}.

Lemma isVenvCreated_venvFiles (c : t) : isVenvCreated c = Returns (venvFiles c) c.
Proof.
  unfold isVenvCreated, venvFiles, exists_, cbind, ask, cret. cbv beta iota.
  destruct (existsSync (w c) (venvPipExecutable c)); cbv beta iota; [|reflexivity].
  destruct (existsSync (w c) (venvConfigPath c)); cbv beta iota; reflexivity.
Qed.

Lemma createVenv_returns (c c' : t) :
  createVenv c = Returns tt c' ->
  venvFiles c' = true /\ trace c' = trace c ++ [creation c].
Proof.
  unfold createVenv, cbind, ask, run. cbv beta iota.
  destruct (runCommand (pythonExecutable c) ["-m"; "venv"; venvPath c; "--clear"] (w c))
    as [stdout w'] eqn:E. cbv beta iota.
  destruct (JS.includes "not created successfully" stdout); [discriminate|].
  rewrite isVenvCreated_venvFiles.
  destruct (venvFiles _) eqn:Hv; [|discriminate].
  intros [= <-]. split; [exact Hv | reflexivity].
Qed.

End Steps.

Section Front.
Context `{Host}.

Lemma ensurePluginDir_returns (c : t) :
  exists c1, ensurePluginDir c = Returns tt c1
    /\ trace c1 = trace c ++ pluginDirActions c
    /\ pythonExecutable c1 = pythonExecutable c
    /\ dirname c1 = dirname c
    /\ requirementsPath c1 = requirementsPath c
    /\ supportedPythonVersions c1 = supportedPythonVersions c.
Proof.
  unfold ensurePluginDir, pluginDirActions, exists_, cbind, ask, cret. cbv beta iota.
  destruct (existsSync (w c) (pluginDirPath c)).
  - exists c. by rewrite app_nil_r.
  - eexists. split; [reflexivity|]. by cbn.
Qed.

Lemma openSSL_returns (c : t) :
  exists c', openSSL c = Returns tt c'
    /\ trace c' = trace c ++ [Run "openssl" ["version"]]
    /\ pythonExecutable c' = pythonExecutable c
    /\ requirementsPath c'
       = (if compatible c then requirementsPath c
          else requirementsFile (dirname c) "openssl_legacy")
    /\ supportedPythonVersions c'
       = (if compatible c then supportedPythonVersions c
          else filter (fun e => e <> "3.12") (supportedPythonVersions c)).
Proof.
  unfold openSSL, compatible, out, cbind, run. cbv beta iota.
  destruct (runCommand "openssl" ["version"] (w c)) as [o w'] eqn:E. cbv beta iota.
  cbn [fst].
  destruct (match matchVersion o with
            | Some r0 => negb (compareVersions MIN_OPENSSL_VERSION r0 =? 1)
            | None => false
            end).
  - eexists. split; [reflexivity|]. by cbn.
  - eexists. split; [reflexivity|]. by cbn.
Qed.

Lemma ensurePythonVersion_unsupported (c : t) :
  supported c = false ->
  exists c', ensurePythonVersion c = Blocks c'
    /\ trace c' = trace c ++ [Run (pythonExecutable c) ["--version"]].
Proof.
  unfold supported, systemPythonVersion, out, ensurePythonVersion, getSystemPythonVersion,
    cbind, ask, cret, run, block.
  cbv beta iota.
  destruct (runCommand (pythonExecutable c) ["--version"] (w c)) as [o w'] eqn:E.
  cbv beta iota. cbn [fst supportedPythonVersions setWorld act].
  intros ->. eexists. split; [reflexivity|]. by cbn.
Qed.

End Front.

Section Tail.
Context `{Host}.

Lemma includes_replaceAll (s : string) :
  JS.includes "_" (JS.replaceAll "_" "-" s) = false.
Proof.
  unfold JS.includes.
  assert (Hnone : JS.indexOf "_" (JS.replaceAll "_" "-" s) = None); [|by rewrite Hnone].
  induction s as [|c s IH]; [reflexivity|].
  cbn [JS.replaceAll JS.indexOf JS.startsWith].
  destruct (Ascii.eqb c "_") eqn:Ec.
  - change (Ascii.eqb "_" "-") with false. cbv iota. by rewrite IH.
  - rewrite Ascii.eqb_sym, Ec. by rewrite IH.
Qed.

Lemma freeze_fold_keys (lines : list string) :
  forall (acc : gmap string (option string)),
    (forall k v, acc !! k = Some v -> JS.includes "_" k = false) ->
    forall k v,
      fold_left
        (fun (packages : gmap string (option string)) line =>
           let parts := JS.split "==" line in
           <[JS.replaceAll "_" "-" (JS.showUndef (parts !! 0%nat)) := parts !! 1%nat]> packages)
        lines acc !! k = Some v ->
      JS.includes "_" k = false.
Proof.
  induction lines as [|line lines IH]; intros acc Hacc k v; [apply Hacc|].
  cbn [fold_left]. apply IH. intros k' v' Hk'.
  destruct (decide (k' = JS.replaceAll "_" "-" (JS.showUndef (JS.split "==" line !! 0%nat))))
    as [->|Hne].
  - apply includes_replaceAll.
  - cbv zeta in Hk'. rewrite lookup_insert_ne in Hk' by done. by apply (Hacc k' v').
Qed.

End Tail.


(** X19: when the system Python is not among the supported versions,
    [allInOne] never returns, and all it has done is to create the plugin
    directory if it was missing and to ask OpenSSL and Python for their
    versions: no virtual environment is created and no pip is run. *)
Theorem X19_unsupported_python_blocks `{Host} (force : bool) (c : t) :
  supported (afterOpenSSL c) = false ->
  exists c', allInOne force c = Blocks c'
    /\ trace c' = trace c ++ pluginDirActions c
                  ++ [Run "openssl" ["version"]; Run (pythonExecutable c) ["--version"]].
Proof.
  unfold afterOpenSSL, allInOne.
  destruct (ensurePluginDir_returns c) as (c1 & E1 & T1 & P1 & _).
  destruct (openSSL_returns c1) as (c2 & E2 & T2 & P2 & _).
  unfold cbind at 1. rewrite E1, E2. cbn [state]. intros Hun.
  destruct (ensurePythonVersion_unsupported c2 Hun) as (c3 & E3 & T3).
  unfold cbind. rewrite E1, E2, E3. exists c3. split; [reflexivity|].
  rewrite T3, T2, T1, P2, P1, <- !app_assoc. reflexivity.
Qed.

(** X20: [openSSL()] always returns and runs nothing but [openssl version].
    With a compatible OpenSSL it keeps the requirements file and the
    supported Python versions; otherwise it switches to the legacy
    requirements file and the supported versions are the former ones
    without 3.12. *)
Theorem X20_openSSL_legacy_mode `{Host} (c : t) :
  exists c', openSSL c = Returns tt c'
    /\ trace c' = trace c ++ [Run "openssl" ["version"]]
    /\ (compatible c = true ->
        requirementsPath c' = requirementsPath c
        /\ supportedPythonVersions c' = supportedPythonVersions c)
    /\ (compatible c = false ->
        requirementsPath c' = requirementsFile (dirname c) "openssl_legacy"
        /\ forall v, In v (supportedPythonVersions c')
                     <-> In v (supportedPythonVersions c) /\ v <> "3.12").
Proof.
  destruct (openSSL_returns c) as (c' & E & T & _ & R & S).
  exists c'. split; [exact E|]. split; [exact T|]. split.
  - intros Hc. rewrite Hc in R, S. by split.
  - intros Hc. rewrite Hc in R, S. split; [exact R|]. intros v. rewrite S.
    rewrite <- !list_elem_of_In, list_elem_of_filter. tauto.
Qed.

(** X21: [ensureVenvRequirementsSatisfied()] always returns.  It asks
    [pip freeze] and stops there when every package that the requirements
    file pins is listed at the pinned version; when some pinned package is
    missing or listed at another version, it runs [pip install -r] on the
    requirements file once, and does not check again. *)
Theorem X21_requirements_installed_when_unmet `{Host} (c : t) :
  exists c', ensureVenvRequirementsSatisfied c = Returns tt c'
    /\ ((forall pkg v, requirements (afterFreeze c) !! pkg = Some v ->
                       prop (installed c) pkg = v) ->
        trace c' = trace c ++ [Run (venvPipExecutable c) ["freeze"]])
    /\ ((exists pkg v, requirements (afterFreeze c) !! pkg = Some v
                       /\ prop (installed c) pkg <> v) ->
        trace c' = trace c ++ [Run (venvPipExecutable c) ["freeze"];
                               Run (venvPipExecutable c)
                                 ["install"; "-r"; requirementsPath c]]).
Proof.
  unfold ensureVenvRequirementsSatisfied, areRequirementsSatisfied, installRequirements,
    requirements, afterFreeze, installed, out, cbind, ask, cret, run.
  cbv beta iota.
  destruct (runCommand (venvPipExecutable c) ["freeze"] (w c)) as [o w'] eqn:E.
  cbv beta iota. cbn [state fst w requirementsPath venvPipExecutable setWorld act].
  destruct (allPinned _ _) eqn:Hall.
  - eexists. split; [reflexivity|]. split; [reflexivity|].
    intros (pkg & v & Hpin & Hne). exfalso. apply Hne.
    by apply (proj1 (PythonCheckerProps.allPinned_spec _ _) Hall).
  - destruct (runCommand (venvPipExecutable c) ["install"; "-r"; requirementsPath c] w')
      as [o2 w2] eqn:E2.
    cbn [w requirementsPath venvPipExecutable setWorld act]. rewrite E2.
    eexists. split; [reflexivity|]. split.
    + intros Hyes. apply PythonCheckerProps.allPinned_spec in Hyes. congruence.
    + intros _. cbn. by rewrite <- app_assoc.
Qed.

(** X22: [freezeStringToObject] normalises package names: no key of the
    object it builds contains an underscore, so a package spelt with an
    underscore and with a hyphen is the same key. *)
Theorem X22_freeze_keys_have_no_underscore (value k : string) (v : option string) :
  freezeStringToObject value !! k = Some v -> JS.includes "_" k = false.
Proof.
  unfold freezeStringToObject. apply freeze_fold_keys. intros k' v' Hk'.
  by rewrite lookup_empty in Hk'.
Qed.

(** X23: when the request to pypi.org fails, the latest version is taken to
    be the word [error]; unless the pip of the environment reports that very
    word, [ensureVenvPipUpToDate()] then upgrades pip. *)
Theorem X23_pip_upgraded_when_pypi_fails `{Host} (c : t) :
  pypiPipVersion (w (afterPipVersion c)) = None ->
  venvPipVersion c <> "error" ->
  exists c', ensureVenvPipUpToDate c = Returns tt c'
    /\ trace c' = trace c ++ [Run (venvPipExecutable c) ["--version"];
                              HttpGet PYPI_URL;
                              Run (venvPipExecutable c) ["install"; "--upgrade"; "pip"]].
Proof.
  unfold ensureVenvPipUpToDate, getVenvPipVersion, getMostRecentPipVersion, updatePip,
    afterPipVersion, venvPipVersion, out, cbind, ask, cret, run.
  cbv beta iota.
  destruct (runCommand (venvPipExecutable c) ["--version"] (w c)) as [o w'] eqn:E.
  cbv beta iota. cbn [state fst w venvPipExecutable setWorld act].
  intros -> Hne. cbn [default].
  destruct (String.eqb _ "error") eqn:Heq.
  - apply String.eqb_eq in Heq. by destruct Hne.
  - destruct (runCommand (venvPipExecutable c) ["install"; "--upgrade"; "pip"] w')
      as [o2 w2] eqn:E2.
    cbn [w venvPipExecutable setWorld act]. rewrite E2.
    eexists. split; [reflexivity|]. cbn. by rewrite <- !app_assoc.
Qed.

(** X28: [ensureVenvUsesCorrectPythonHome()] asks the Python of the virtual
    environment and then the system Python for their homes.  When it
    returns, either the two homes were equal and nothing else was run, or
    the virtual environment was created anew and its three files exist. *)
Theorem X28_venv_recreated_on_other_home `{Host} (c c' : t) :
  ensureVenvUsesCorrectPythonHome c = Returns tt c' ->
  let venvHome := pythonHome c (venvPythonExecutable c) in
  let systemHome := pythonHome (afterVenvHome c) (pythonExecutable c) in
  (venvHome = systemHome -> trace c' = trace c ++ homeQueries c)
  /\ (venvHome <> systemHome ->
      trace c' = trace c ++ homeQueries c ++ [creation c] /\ venvFiles c' = true).
Proof.
  unfold ensureVenvUsesCorrectPythonHome, afterVenvHome, getPythonHome, pythonHome, out,
    homeQueries, cbind, ask, cret, run.
  cbv beta iota.
  destruct (runCommand (venvPythonExecutable c) [join (dirname c) "determinePythonHome.py"]
              (w c)) as [o1 w1] eqn:E1.
  cbv beta iota. cbn [state fst w dirname pythonExecutable setWorld act].
  destruct (runCommand (pythonExecutable c) [join (dirname c) "determinePythonHome.py"] w1)
    as [o2 w2] eqn:E2.
  cbv beta iota. cbn [fst].
  destruct (String.eqb (JS.trim o1) (JS.trim o2)) eqn:Heq.
  - apply String.eqb_eq in Heq. intros [= <-]. split.
    + intros _. cbn. by rewrite <- app_assoc.
    + intros Hne. by destruct Hne.
  - apply String.eqb_neq in Heq. intros Hc. apply createVenv_returns in Hc as [Hv Ht].
    split; [intros Hyes; by destruct Heq|]. intros _. split; [|exact Hv].
    rewrite Ht. cbn. by rewrite <- !app_assoc.
Qed.

Lemma X28_venv_recreated_on_other_home_witness :
  let c := SampleMore.bareChecker in
  let c' := state (ensureVenvUsesCorrectPythonHome c) in
  let venvHome := pythonHome c (venvPythonExecutable c) in
  let systemHome := pythonHome (afterVenvHome c) (pythonExecutable c) in
  (venvHome = systemHome -> trace c' = trace c ++ homeQueries c)
  /\ (venvHome <> systemHome ->
      trace c' = trace c ++ homeQueries c ++ [creation c] /\ venvFiles c' = true).
Proof.
  intros c c'. apply (X28_venv_recreated_on_other_home c c'). vm_compute. reflexivity.
Defined.


Lemma X19_unsupported_python_blocks_witness :
  let c := SampleMore.oldPythonChecker in
  exists c', allInOne true c = Blocks c'
    /\ trace c' = trace c ++ pluginDirActions c
                  ++ [Run "openssl" ["version"]; Run (pythonExecutable c) ["--version"]].
Proof.
  intros c. apply (X19_unsupported_python_blocks true c). vm_compute. reflexivity.
Defined.

Lemma X22_freeze_keys_have_no_underscore_witness :
  JS.includes "_" "typing-extensions" = false.
Proof.
  apply (X22_freeze_keys_have_no_underscore Sample.requirementsText "typing-extensions"
           (Some "4.8.0")).
  vm_compute. reflexivity.
Defined.

Lemma X23_pip_upgraded_when_pypi_fails_witness :
  let c := SampleMore.offlineChecker in
  exists c', ensureVenvPipUpToDate c = Returns tt c'
    /\ trace c' = trace c ++ [Run (venvPipExecutable c) ["--version"];
                              HttpGet PYPI_URL;
                              Run (venvPipExecutable c) ["install"; "--upgrade"; "pip"]].
Proof.
  intros c. apply (X23_pip_upgraded_when_pypi_fails c).
  - vm_compute. reflexivity.
  - vm_compute. discriminate.
Defined.

End PythonCheckerMoreProps.

Module PlatformProps.
Import Platform.
Local Open Scope list_scope.

Section Discovery.
Variable generate : string -> string.

Lemma register_blacklist (s : t) (d : Device) :
  blacklist (register generate s d) = blacklist s.
Proof.
  unfold register. destruct (blacklisted s _); [reflexivity|].
  by destruct (bool_decide _).
Qed.

Lemma register_consistent (s : t) (d : Device) :
  consistent s -> consistent (register generate s d).
Proof.
  intros [Hmap Hnd]. unfold register.
  destruct (blacklisted s _); [by split|].
  case_bool_decide as Hin; [by split|].
  split; cbn.
  - by rewrite Hmap, map_app.
  - apply NoDup_app. split; [exact Hnd|]. split.
    + intros x Hx Hx'. apply list_elem_of_singleton in Hx'. by subst x.
    + apply NoDup_singleton.
Qed.

Lemma discoveries_consistent (scans : list (option (list Device))) : forall s,
  consistent s -> consistent (discoveries generate scans s).
Proof.
  induction scans as [|scan scans IH]; intros s Hs; [exact Hs|].
  cbn [discoveries fold_left]. apply IH. unfold discoverDevices.
  generalize (List.filter isAppleTV (default [] scan)). intros l. revert s Hs.
  induction l as [|d l IHl]; intros s Hs; [exact Hs|].
  cbn [fold_left]. by apply IHl, register_consistent.
Qed.

Lemma register_genuine (bl : option (list string)) (s : t) (d : Device) :
  isAppleTV d = true ->
  blacklist s = bl -> Forall (genuine generate bl) (created s) ->
  Forall (genuine generate bl) (created (register generate s d)).
Proof.
  intros Hd Hbl Hall. unfold register, blacklisted. rewrite Hbl.
  unfold isAppleTV in Hd. apply andb_prop in Hd as [Hd _]. apply andb_prop in Hd as [Hmac _].
  destruct bl as [l|].
  - case_bool_decide as Hin; [exact Hall|].
    case_bool_decide as Hpub; [exact Hall|].
    cbn [created]. apply Forall_app. split; [exact Hall|].
    apply Forall_singleton. split; [exact Hmac|]. split; [reflexivity|].
    by intros l' [= <-].
  - case_bool_decide as Hpub; [exact Hall|].
    cbn [created]. apply Forall_app. split; [exact Hall|].
    apply Forall_singleton. split; [exact Hmac|]. split; [reflexivity | discriminate].
Qed.

Lemma fold_register_genuine (bl : option (list string)) (l : list Device) : forall s,
  Forall (fun d => isAppleTV d = true) l ->
  blacklist s = bl -> Forall (genuine generate bl) (created s) ->
  blacklist (fold_left (register generate) l s) = bl
  /\ Forall (genuine generate bl) (created (fold_left (register generate) l s)).
Proof.
  induction l as [|d l IH]; intros s Hl Hbl Hall; [by split|].
  apply Forall_cons in Hl as [Hd Hl]. cbn [fold_left]. apply IH; [exact Hl | |].
  - by rewrite register_blacklist.
  - by apply register_genuine.
Qed.

Lemma discoveries_genuine (bl : option (list string))
    (scans : list (option (list Device))) : forall s,
  blacklist s = bl -> Forall (genuine generate bl) (created s) ->
  Forall (genuine generate bl) (created (discoveries generate scans s)).
Proof.
  induction scans as [|scan scans IH]; intros s Hbl Hall; [exact Hall|].
  cbn [discoveries fold_left].
  destruct (fold_register_genuine bl (List.filter isAppleTV (default [] scan)) s)
    as [Hbl' Hall']; [| exact Hbl | exact Hall |].
  - apply Forall_forall. intros d Hd. apply list_elem_of_In, filter_In in Hd. apply Hd.
  - by apply IH.
Qed.

Lemma register_published (s : t) (d : Device) (x : string) :
  x ∈ publishedUUIDs s -> x ∈ publishedUUIDs (register generate s d).
Proof.
  intros Hx. unfold register. destruct (blacklisted s _); [exact Hx|].
  case_bool_decide; [exact Hx|]. cbn. apply elem_of_app. by left.
Qed.

Lemma fold_register_published (l : list Device) (x : string) : forall s,
  x ∈ publishedUUIDs s -> x ∈ publishedUUIDs (fold_left (register generate) l s).
Proof.
  induction l as [|d l IH]; intros s Hx; [exact Hx|].
  cbn [fold_left]. by apply IH, register_published.
Qed.

Lemma discoveries_published (scans : list (option (list Device))) (x : string) : forall s,
  x ∈ publishedUUIDs s -> x ∈ publishedUUIDs (discoveries generate scans s).
Proof.
  induction scans as [|scan scans IH]; intros s Hx; [exact Hx|].
  cbn [discoveries fold_left]. apply IH. by apply fold_register_published.
Qed.

Lemma discoveries_blacklist (scans : list (option (list Device))) : forall s,
  blacklist (discoveries generate scans s) = blacklist s.
Proof.
  induction scans as [|scan scans IH]; intros s; [reflexivity|].
  transitivity (blacklist (discoverDevices generate scan s)); [apply IH|].
  unfold discoverDevices.
  generalize (List.filter isAppleTV (default [] scan)). intros l. revert s.
  induction l as [|d l IHl]; intros s; [reflexivity|].
  cbn [fold_left]. by rewrite IHl, register_blacklist.
Qed.

Lemma fold_register_adds (l : list Device) (d : Device) : forall s,
  In d l -> blacklisted s (JS.showUndef (id d)) = false ->
  generate (JS.showUndef (id d)) ∈ publishedUUIDs (fold_left (register generate) l s).
Proof.
  induction l as [|d0 l IH]; intros s Hin Hbl; [destruct Hin|].
  cbn [fold_left]. destruct Hin as [->|Hin].
  - apply fold_register_published. unfold register. rewrite Hbl.
    case_bool_decide as Hpub; [exact Hpub|]. cbn. apply elem_of_app. right.
    by apply list_elem_of_singleton.
  - apply IH; [exact Hin|]. unfold blacklisted in *. by rewrite register_blacklist.
Qed.

Lemma discoveries_adds (scans : list (option (list Device))) (scan : list Device)
    (d : Device) : forall s,
  In (Some scan) scans -> In d scan -> isAppleTV d = true ->
  blacklisted s (JS.showUndef (id d)) = false ->
  generate (JS.showUndef (id d)) ∈ publishedUUIDs (discoveries generate scans s).
Proof.
  induction scans as [|scan0 scans IH]; intros s Hscan Hd Htv Hbl; [destruct Hscan|].
  cbn [discoveries fold_left]. destruct Hscan as [->|Hscan].
  - apply discoveries_published. unfold discoverDevices. cbn [default].
    apply fold_register_adds; [|exact Hbl]. apply filter_In. by split.
  - apply IH; try assumption. unfold blacklisted in *.
    change (discoverDevices generate scan0 s) with (discoveries generate [scan0] s).
    by rewrite discoveries_blacklist.
Qed.

End Discovery.

Lemma isHex_not_colon (c : ascii) : isHex c = true -> Ascii.eqb c ":" = false.
Proof.
  destruct c as [[] [] [] [] [] [] [] []]; vm_compute; congruence.
Qed.

Lemma macGroups_injective (n : nat) : forall s s' : string,
  macGroups n s = true -> macGroups n s' = true ->
  JS.removeAll ":" s = JS.removeAll ":" s' -> s = s'.
Proof.
  induction n as [|n IH]; intros s s' Hs Hs'.
  - destruct s as [|a [|b [|? ?]]]; try discriminate.
    destruct s' as [|a' [|b' [|? ?]]]; try discriminate.
    cbn [macGroups] in Hs, Hs'.
    apply andb_prop in Hs as [Ha Hb]. apply andb_prop in Hs' as [Ha' Hb'].
    cbn [JS.removeAll].
    rewrite (isHex_not_colon a Ha), (isHex_not_colon b Hb),
      (isHex_not_colon a' Ha'), (isHex_not_colon b' Hb').
    exact (fun H => H).
  - destruct s as [|a [|b [|c rest]]]; try discriminate.
    destruct s' as [|a' [|b' [|c' rest']]]; try discriminate.
    cbn [macGroups] in Hs, Hs'.
    apply andb_prop in Hs as [Hs Hrest]. apply andb_prop in Hs as [Hs Hc].
    apply andb_prop in Hs as [Ha Hb].
    apply andb_prop in Hs' as [Hs' Hrest']. apply andb_prop in Hs' as [Hs' Hc'].
    apply andb_prop in Hs' as [Ha' Hb'].
    cbn [JS.removeAll].
    rewrite (isHex_not_colon a Ha), (isHex_not_colon b Hb),
      (isHex_not_colon a' Ha'), (isHex_not_colon b' Hb'), Hc, Hc'.
    apply Ascii.eqb_eq in Hc, Hc'. subst c c'.
    intros [= -> -> Heq]. by rewrite (IH rest rest' Hrest Hrest' Heq).
Qed.

(** X24: however often a device shows up in a scan or in later scans, the
    platform creates at most one accessory for a UUID: the UUIDs of the
    accessories created since the start are pairwise different. *)
Theorem X24_no_accessory_twice (generate : string -> string)
    (bl : option (list string)) (scans : list (option (list Device))) :
  NoDup (map UUID (created (discoveries generate scans (create bl)))).
Proof.
  destruct (discoveries_consistent generate scans (create bl)) as [Hmap Hnd].
  - split; [reflexivity | apply NoDup_nil_2].
  - by rewrite <- Hmap.
Qed.

(** X25: every accessory that the platform creates stands for a device
    whose id has the form of a MAC address and is not on the blacklist, and
    its UUID is the one generated from that id. *)
Theorem X25_created_accessories_genuine (generate : string -> string)
    (bl : option (list string)) (scans : list (option (list Device))) (a : Accessory) :
  In a (created (discoveries generate scans (create bl))) ->
  genuine generate bl a.
Proof.
  intros Hin.
  pose proof (discoveries_genuine generate bl scans (create bl) eq_refl (Forall_nil_2 _))
    as Hall.
  rewrite Forall_forall in Hall. by apply Hall, list_elem_of_In.
Qed.

(** X26: every scanned device that has a MAC address as id, a model name
    containing [Apple TV] and the operating system [TvOS], and is not on the
    blacklist, has an accessory with the UUID of its id afterwards. *)
Theorem X26_discovered_device_has_accessory (generate : string -> string)
    (bl : option (list string)) (scans : list (option (list Device)))
    (scan : list Device) (d : Device) :
  In (Some scan) scans -> In d scan -> isAppleTV d = true ->
  blacklisted (create bl) (JS.showUndef (id d)) = false ->
  In (generate (JS.showUndef (id d)))
     (map UUID (created (discoveries generate scans (create bl)))).
Proof.
  intros Hscan Hd Htv Hbl.
  destruct (discoveries_consistent generate scans (create bl)) as [Hmap _].
  { split; [reflexivity | apply NoDup_nil_2]. }
  rewrite <- Hmap. apply list_elem_of_In.
  by apply (discoveries_adds generate scans scan d).
Qed.

(** X27: two devices whose ids have the form of a MAC address share their
    directory of stored files only if they have the same id: removing the
    colons loses nothing. *)
Theorem X27_device_directories_distinct `{Json} (a b : Accessory.t) :
  isMac (Accessory.deviceId a) = true -> isMac (Accessory.deviceId b) = true ->
  Accessory.deviceDir a = Accessory.deviceDir b ->
  Accessory.deviceId a = Accessory.deviceId b.
Proof.
  intros Ha Hb Hdir. unfold Accessory.deviceDir in Hdir.
  apply app_inj_tail in Hdir as [_ Hname].
  by apply (macGroups_injective 5).
Qed.

Lemma X25_created_accessories_genuine_witness :
  genuine SampleScans.uuidOf (Some ["0a:1b:2c:3d:4e:5f"])
    (mkAccessory "Apple TV Living Room" "uuid-AA:BB:CC:DD:EE:FF" "AA:BB:CC:DD:EE:FF").
Proof.
  apply (X25_created_accessories_genuine SampleScans.uuidOf (Some ["0a:1b:2c:3d:4e:5f"])
           SampleScans.scans).
  vm_compute. left. reflexivity.
Defined.

Lemma X26_discovered_device_has_accessory_witness :
  In (SampleScans.uuidOf "AA:BB:CC:DD:EE:FF")
     (map UUID (created (discoveries SampleScans.uuidOf SampleScans.scans
                           (create (Some ["0a:1b:2c:3d:4e:5f"]))))).
Proof.
  apply (X26_discovered_device_has_accessory SampleScans.uuidOf (Some ["0a:1b:2c:3d:4e:5f"])
           SampleScans.scans [SampleScans.bedroom; SampleScans.livingRoom]
           SampleScans.livingRoom).
  - vm_compute. right. right. left. reflexivity.
  - vm_compute. right. left. reflexivity.
  - vm_compute. reflexivity.
  - vm_compute. reflexivity.
Defined.

Lemma X27_device_directories_distinct_witness :
  Accessory.deviceId (Sample.accessory 1 Sample.freshDisk)
  = Accessory.deviceId (Sample.accessory 0 Sample.pairedDisk).
Proof.
  apply (X27_device_directories_distinct (Sample.accessory 1 Sample.freshDisk)
           (Sample.accessory 0 Sample.pairedDisk)); vm_compute; reflexivity.
Defined.

End PlatformProps.
